(** * DuplicateFileFinder: a shallow embedding of the scan-and-group engine

    Two programs are embedded: [DuplicateFileName.py] (grouping by
    normalised file name) and [DuplicateFileSizeFinder.py] (grouping by
    size, then by SHA-256 digest, under a time budget that is negotiated
    with the operator).

    Conventions.
    - A Python [str] is the list of its Unicode code points ([pystr]);
      a [bytes] object is a list of numbers below 256.
    - Python integers are [Z]; wall-clock readings ([time.time()]) are
      exact rationals [Q].
    - A [dict] is an association list in insertion order, because the
      programs iterate over their dictionaries.
    - Library code ([base64], the UTF-8 codec, [os.path], [re], [hashlib])
      is modelled after its documented behaviour; what depends on the
      Unicode database or on the file system is a parameter. *)

From Stdlib Require Import List ZArith NArith QArith Qround Lia Lqa Bool.
From Stdlib Require Import Ascii Permutation Sorted.
From Stdlib Require String.
Import String.StringSyntax.
Delimit Scope string_scope with string.
Import ListNotations.


(* ================================================================== *)
(** * Python values *)
(* ================================================================== *)

Definition pystr := list N.
Definition bytes := list N.

(** An ASCII literal as a Python string. *)
Definition lit (s : String.string) : pystr :=
  map N_of_ascii (String.list_ascii_of_string s).

Arguments lit s%_string.

Definition str_eqb (a b : pystr) : bool :=
  if list_eq_dec N.eq_dec a b then true else false.

(** [x or d] on an optional number: [None] and [0] are both falsy. *)
Definition or_else (x : option Q) (d : Q) : Q :=
  match x with
  | Some v => if Qeq_bool v 0 then d else v
  | None => d
  end.

(** [int(x)] on a float: truncation towards zero. *)
Definition py_int (x : Q) : Z := Z.quot (Qnum x) (Zpos (Qden x)).

Definition Qltb (a b : Q) : bool := negb (Qle_bool b a).

(** The option monad, for code that may raise. *)
Definition bind {A B} (x : option A) (f : A -> option B) : option B :=
  match x with
  | Some a => f a
  | None => None
  end.

Notation "x <- e ;; k" := (bind e (fun x => k))
  (at level 61, e at next level, right associativity).

(* ================================================================== *)
(** * Codecs: UTF-8, ASCII and URL-safe base64 *)
(* ================================================================== *)

Module Codec.

(** A code point that UTF-8 can carry: a Unicode scalar value. *)
Definition is_surrogate (c : N) : bool := ((0xD800 <=? c) && (c <=? 0xDFFF))%N.

Definition scalar_value (c : N) : bool := ((c <? 0x110000) && negb (is_surrogate c))%N.

(** [c.encode("utf-8")] for one code point; [None] is [UnicodeEncodeError]. *)
Definition utf8_encode_cp (c : N) : option bytes :=
  (if c <? 0x80 then Some [c]
   else if c <? 0x800 then Some [0xC0 + c / 64; 0x80 + c mod 64]
   else if c <? 0x10000 then
     if is_surrogate c then None
     else Some [0xE0 + c / 4096; 0x80 + (c / 64) mod 64; 0x80 + c mod 64]
   else if c <? 0x110000 then
     Some [0xF0 + c / 262144; 0x80 + (c / 4096) mod 64;
           0x80 + (c / 64) mod 64; 0x80 + c mod 64]
   else None)%N.

Fixpoint str_encode_utf8 (s : pystr) : option bytes :=
  match s with
  | [] => Some []
  | c :: r =>
      b <- utf8_encode_cp c ;;
      bs <- str_encode_utf8 r ;;
      Some (b ++ bs)
  end.

Definition is_cont (b : N) : bool := ((0x80 <=? b) && (b <=? 0xBF))%N.

(** [bs.decode("utf-8")], strict: truncated sequences, stray continuation
    bytes, overlong forms, surrogates and values above U+10FFFF raise
    [UnicodeDecodeError] ([None]). *)
Fixpoint bytes_decode_utf8 (bs : bytes) : option pystr :=
  match bs with
  | [] => Some []
  | b1 :: r1 =>
      if (b1 <? 0x80)%N then
        s <- bytes_decode_utf8 r1 ;; Some (b1 :: s)
      else if ((0xC0 <=? b1) && (b1 <=? 0xDF))%N then
        match r1 with
        | b2 :: r2 =>
            let c := ((b1 - 0xC0) * 64 + (b2 - 0x80))%N in
            if is_cont b2 && (0x80 <=? c)%N then
              s <- bytes_decode_utf8 r2 ;; Some (c :: s)
            else None
        | _ => None
        end
      else if ((0xE0 <=? b1) && (b1 <=? 0xEF))%N then
        match r1 with
        | b2 :: b3 :: r3 =>
            let c := ((b1 - 0xE0) * 4096 + (b2 - 0x80) * 64 + (b3 - 0x80))%N in
            if is_cont b2 && is_cont b3 && (0x800 <=? c)%N
               && negb (is_surrogate c) then
              s <- bytes_decode_utf8 r3 ;; Some (c :: s)
            else None
        | _ => None
        end
      else if ((0xF0 <=? b1) && (b1 <=? 0xF7))%N then
        match r1 with
        | b2 :: b3 :: b4 :: r4 =>
            let c := ((b1 - 0xF0) * 262144 + (b2 - 0x80) * 4096
                      + (b3 - 0x80) * 64 + (b4 - 0x80))%N in
            if is_cont b2 && is_cont b3 && is_cont b4
               && (0x10000 <=? c)%N && (c <? 0x110000)%N then
              s <- bytes_decode_utf8 r4 ;; Some (c :: s)
            else None
        | _ => None
        end
      else None
  end.

(** [s.encode("ascii")] and [bs.decode("ascii")]. *)
Definition str_encode_ascii (s : pystr) : option bytes :=
  if forallb (fun c => c <? 128)%N s then Some s else None.

Definition bytes_decode_ascii (bs : bytes) : option pystr :=
  if forallb (fun b => b <? 128)%N bs then Some bs else None.

(** The standard base64 alphabet, as ASCII codes. *)
Definition table_b2a_base64 (i : N) : N :=
  (if i <? 26 then 65 + i
   else if i <? 52 then 97 + (i - 26)
   else if i <? 62 then 48 + (i - 52)
   else if i =? 62 then 43
   else 47)%N.

Definition table_a2b_base64 (c : N) : option N :=
  (if (65 <=? c) && (c <=? 90) then Some (c - 65)
   else if (97 <=? c) && (c <=? 122) then Some (c - 97 + 26)
   else if (48 <=? c) && (c <=? 57) then Some (c - 48 + 52)
   else if c =? 43 then Some 62
   else if c =? 47 then Some 63
   else None)%N.

Definition BASE64_PAD : N := 61.

(** [binascii.b2a_base64(bs, newline=False)]: three bytes become four
    characters; a short last group is padded with [=]. *)
Fixpoint b2a_base64 (bs : bytes) : bytes :=
  match bs with
  | [] => []
  | [a] =>
      [table_b2a_base64 (a / 4); table_b2a_base64 ((a mod 4) * 16);
       BASE64_PAD; BASE64_PAD]%N
  | [a; b] =>
      [table_b2a_base64 (a / 4); table_b2a_base64 ((a mod 4) * 16 + b / 16);
       table_b2a_base64 ((b mod 16) * 4); BASE64_PAD]%N
  | a :: b :: c :: rest =>
      [table_b2a_base64 (a / 4); table_b2a_base64 ((a mod 4) * 16 + b / 16);
       table_b2a_base64 ((b mod 16) * 4 + c / 64);
       table_b2a_base64 (c mod 64)]%N ++ b2a_base64 rest
  end.

(** [binascii.a2b_base64(s)] in its default, lenient mode: characters
    outside the alphabet are skipped, a complete pad sequence ends the
    parse, and a dangling partial group raises [binascii.Error]. *)
Fixpoint a2b_loop (s : bytes) (quad_pos leftchar pads : N) (out : bytes)
  : option bytes :=
  match s with
  | [] => if (quad_pos =? 0)%N then Some out else None
  | ch :: rest =>
      if (ch =? BASE64_PAD)%N then
        if ((2 <=? quad_pos) && (4 <=? quad_pos + (pads + 1)))%N then Some out
        else a2b_loop rest quad_pos leftchar
               (if (2 <=? quad_pos)%N then (pads + 1)%N else pads) out
      else
        match table_a2b_base64 ch with
        | None => a2b_loop rest quad_pos leftchar pads out
        | Some v =>
            if (quad_pos =? 0)%N then a2b_loop rest 1%N v 0%N out
            else if (quad_pos =? 1)%N then
              a2b_loop rest 2%N (v mod 16)%N 0%N
                (out ++ [((leftchar * 4) mod 256 + v / 16)%N])
            else if (quad_pos =? 2)%N then
              a2b_loop rest 3%N (v mod 4)%N 0%N
                (out ++ [((leftchar * 16) mod 256 + v / 4)%N])
            else
              a2b_loop rest 0%N 0%N 0%N
                (out ++ [((leftchar * 64) mod 256 + v)%N])
        end
  end.

Definition a2b_base64 (s : bytes) : option bytes := a2b_loop s 0%N 0%N 0%N [].

(** [bytes.translate] with the two URL-safe substitutions. *)
Definition urlsafe_encode_translation (c : N) : N :=
  (if c =? 43 then 45 else if c =? 47 then 95 else c)%N.

Definition urlsafe_decode_translation (c : N) : N :=
  (if c =? 45 then 43 else if c =? 95 then 47 else c)%N.

Definition urlsafe_b64encode (bs : bytes) : bytes :=
  map urlsafe_encode_translation (b2a_base64 bs).

Definition urlsafe_b64decode (s : bytes) : option bytes :=
  a2b_base64 (map urlsafe_decode_translation s).

(** A character written by the encoder and read back by the decoder
    passes through both translations. *)
Definition tr (ch : N) : N :=
  urlsafe_decode_translation (urlsafe_encode_translation ch).

End Codec.


(* ================================================================== *)
(** * The platform: Unicode tables, [os.path], the file system *)
(* ================================================================== *)

(** Generic list helpers standing for Python slicing and searching. *)
Fixpoint drop_while {A} (f : A -> bool) (l : list A) : list A :=
  match l with
  | [] => []
  | x :: r => if f x then drop_while f r else l
  end.

Fixpoint take_while {A} (f : A -> bool) (l : list A) : list A :=
  match l with
  | [] => []
  | x :: r => if f x then x :: take_while f r else []
  end.

(** [s.startswith(prefix)]. *)
Fixpoint startswith (s prefix : pystr) : bool :=
  match prefix, s with
  | [], _ => true
  | _ :: _, [] => false
  | a :: p', b :: s' => (a =? b)%N && startswith s' p'
  end.

(** [s <= t] on strings: lexicographic on code points. *)
Fixpoint str_leb (s t : pystr) : bool :=
  match s, t with
  | [], _ => true
  | _ :: _, [] => false
  | a :: s', b :: t' => (a <? b)%N || ((a =? b)%N && str_leb s' t')
  end.

(** [l.index(x)]: the first position of [x]; [None] is [ValueError]. *)
Fixpoint index (x : pystr) (l : list pystr) : option Z :=
  match l with
  | [] => None
  | y :: r => if str_eqb y x then Some 0%Z
              else option_map Z.succ (index x r)
  end.

Definition len {A} (l : list A) : Z := Z.of_nat (length l).

(** [sorted(l, key=...)]: a stable sort, given the order on keys as
    [le a b] ("the key of [a] is not after the key of [b]").  Elements
    are inserted from the right, each before the first element it does
    not follow, so equal keys keep their original order. *)
Fixpoint insert_sorted {A} (le : A -> A -> bool) (x : A) (l : list A) : list A :=
  match l with
  | [] => [x]
  | y :: r => if le x y then x :: l else y :: insert_sorted le x r
  end.

Definition sorted {A} (le : A -> A -> bool) (l : list A) : list A :=
  fold_right (insert_sorted le) [] l.

(** [d[k].append(v)] on a [defaultdict(list)]: an existing key keeps its
    position, a new key is added last. *)
Fixpoint dict_append {K V} (eqb : K -> K -> bool) (k : K) (v : V)
  (d : list (K * list V)) : list (K * list V) :=
  match d with
  | [] => [(k, [v])]
  | (k', vs) :: r =>
      if eqb k k' then (k', vs ++ [v]) :: r
      else (k', vs) :: dict_append eqb k v r
  end.

(** [d.get(k, [])]. *)
Fixpoint dict_get {K V} (eqb : K -> K -> bool) (k : K) (d : list (K * list V))
  : list V :=
  match d with
  | [] => []
  | (k', vs) :: r => if eqb k k' then vs else dict_get eqb k r
  end.

(** Every member of every list stored in the dictionary is related to
    the key of its list by [P]. *)
Definition all_entries {K V} (P : K -> V -> Prop) (d : list (K * list V))
  : Prop :=
  forall k vs, In (k, vs) d -> Forall (P k) vs.

(** The part of the Unicode database the programs consult outside ASCII:
    [str.isdecimal] (the [\d] class), [str.isspace] (the [\s] class and
    [str.strip]) and full case folding.  Inside ASCII the tables are
    fixed below. *)
Record unicode_db := {
  uni_isdecimal : N -> bool;
  uni_isspace : N -> bool;
  uni_casefold : N -> pystr
}.

Module Unicode.

Definition isdecimal (U : unicode_db) (c : N) : bool :=
  (if c <? 128 then (48 <=? c) && (c <=? 57) else uni_isdecimal U c)%N.

Definition isspace (U : unicode_db) (c : N) : bool :=
  (if c <? 128 then
     ((9 <=? c) && (c <=? 13)) || ((28 <=? c) && (c <=? 32))
   else uni_isspace U c)%N.

Definition casefold_cp (U : unicode_db) (c : N) : pystr :=
  (if c <? 128 then [if (65 <=? c) && (c <=? 90) then c + 32 else c]
   else uni_casefold U c)%N.

(** [s.casefold()]. *)
Definition casefold (U : unicode_db) (s : pystr) : pystr :=
  flat_map (casefold_cp U) s.

(** [s.strip()]. *)
Definition strip (U : unicode_db) (s : pystr) : pystr :=
  rev (drop_while (isspace U) (rev (drop_while (isspace U) s))).

(** A database with nothing outside ASCII, for concrete runs. *)
Definition ascii_only : unicode_db :=
  {| uni_isdecimal := fun _ => false;
     uni_isspace := fun _ => false;
     uni_casefold := fun c => [c] |}.

End Unicode.

(** [os.path] on the two platforms Python supports. *)
Inductive os_flavour := Posix | Nt.

Module OsPath.

Definition is_sep (os : os_flavour) (c : N) : bool :=
  match os with
  | Posix => (c =? 47)%N
  | Nt => ((c =? 47) || (c =? 92))%N
  end.

(** [ntpath] sets a drive letter apart before it looks for separators
    (UNC roots are not modelled: every path the walkers build ends in a
    separator and a file name). *)
Definition splitdrive (os : os_flavour) (p : pystr) : pystr :=
  match os, p with
  | Nt, _ :: 58%N :: r => r
  | _, _ => p
  end.

(** [os.path.basename(p)]: what follows the last separator. *)
Definition basename (os : os_flavour) (p : pystr) : pystr :=
  rev (take_while (fun c => negb (is_sep os c)) (rev (splitdrive os p))).

(** [p.rfind(...)] for a class of characters: the last position, or -1. *)
Fixpoint rfind_from (f : N -> bool) (p : pystr) (i : Z) (last : Z) : Z :=
  match p with
  | [] => last
  | c :: r => rfind_from f r (i + 1)%Z (if f c then i else last)
  end.

Definition rfind (f : N -> bool) (p : pystr) : Z := rfind_from f p 0%Z (-1)%Z.

Definition slice (p : pystr) (i j : Z) : pystr :=
  firstn (Z.to_nat (j - i)) (skipn (Z.to_nat i) p).

(** [os.path.splitext(p)] ([genericpath._splitext]): split at the last
    dot of the last component, unless only dots precede it there. *)
Definition splitext (os : os_flavour) (p : pystr) : pystr * pystr :=
  let sepIndex := rfind (is_sep os) p in
  let dotIndex := rfind (fun c => c =? 46)%N p in
  if (dotIndex >? sepIndex)%Z
     && existsb (fun c => negb (c =? 46)%N) (slice p (sepIndex + 1) dotIndex)
  then (firstn (Z.to_nat dotIndex) p, skipn (Z.to_nat dotIndex) p)
  else (p, []).

End OsPath.

(** What the operating system answers about one path.  [None] stands for
    a raised [OSError] ([PermissionError], [FileNotFoundError], ...).
    [isfile] and [islink] never raise; [st_file_attributes] is the field
    of [os.stat(path, follow_symlinks=False)], 0 where the platform has
    none; [content] is what reading the whole file returns. *)
Record file_info := {
  isfile : bool;
  islink : bool;
  st_file_attributes : option Z;
  getsize : option Z;
  getmtime : option Q;
  content : option bytes
}.

(** The environment of one scan: the platform's path functions that are
    not modelled here ([os.path.join], [os.path.normpath], [str.lower]),
    the Unicode database, the two attribute masks the programs look up
    in the [stat] module with a default of 0, the digest function of
    [hashlib], the file system, and a synthetic clock: how long looking
    at one entry and hashing one file take. *)
Record environment := {
  os : os_flavour;
  unicode : unicode_db;
  join : pystr -> pystr -> pystr;
  normpath : pystr -> pystr;
  lower : pystr -> pystr;
  FILE_ATTRIBUTE_RECALL_ON_DATA_ACCESS : Z;
  FILE_ATTRIBUTE_RECALL_ON_OPEN : Z;
  sha256_hexdigest : bytes -> pystr;
  stat_of : pystr -> file_info;
  scan_cost : pystr -> Q;
  hash_cost : pystr -> Q
}.

(** A directory as [os.walk] reports it: its own name, the names of
    its files and the sub-directories the walk descends into. *)
#[warnings="-register-all"]
Inductive dirtree :=
| Dir (name : pystr) (filenames : list pystr) (subdirs : list dirtree).

Definition dirname (t : dirtree) : pystr :=
  match t with Dir name _ _ => name end.

(** Code shared, word for word, by both programs. *)
Module Shared.

Section WithEnv.
Variable env : environment.

Definition is_within_excludes (path : pystr) (excludes : list pystr) : bool :=
  let p := lower env (normpath env path) in
  existsb (fun ex => startswith p (lower env (normpath env ex))) excludes.

(** [stat.FILE_ATTRIBUTE_OFFLINE]. *)
Definition FILE_ATTRIBUTE_OFFLINE : Z := 4096.

(** The check fails open: an entry whose attributes cannot be read is
    not a placeholder. *)
Definition is_cloud_placeholder (path : pystr) : bool :=
  match st_file_attributes (stat_of env path) with
  | Some attrs =>
      let recall_on_data := FILE_ATTRIBUTE_RECALL_ON_DATA_ACCESS env in
      let recall_on_open := FILE_ATTRIBUTE_RECALL_ON_OPEN env in
      let flags := Z.lor (Z.lor FILE_ATTRIBUTE_OFFLINE recall_on_data)
                     recall_on_open in
      negb (Z.land attrs flags =? 0)%Z
  | None => false
  end.

(** The files the loop over [os.walk(root, topdown=True)] reaches, in
    order, as full paths: an excluded directory yields nothing and is
    not descended into; excluded sub-directories are pruned from
    [dirnames]. *)
Fixpoint walk (excludes : list pystr) (dirpath : pystr) (t : dirtree)
  : list pystr :=
  match t with
  | Dir _ filenames subdirs =>
      let pruning := match excludes with [] => false | _ => true end in
      if pruning && is_within_excludes dirpath excludes then []
      else
        map (join env dirpath) filenames
        ++ flat_map
             (fun sub =>
                let subpath := join env dirpath (dirname sub) in
                if pruning && is_within_excludes subpath excludes then []
                else walk excludes subpath sub)
             subdirs
  end.

(** The reasons for which a walker passes over an entry: it is not a
    regular file, it is a symbolic link, or it is a cloud placeholder
    while [include_cloud] is off. *)
Definition not_eligible (include_cloud : bool) (path : pystr) : bool :=
  let info := stat_of env path in
  negb (isfile info) || islink info
  || (negb include_cloud && is_cloud_placeholder path).

(** The size of the entry is below the minimum. *)
Definition too_small (min_size : Z) (path : pystr) : bool :=
  match getsize (stat_of env path) with
  | Some size => (size <? min_size)%Z
  | None => false
  end.

(** Asking for the size of the entry raises [OSError]. *)
Definition size_raises (path : pystr) : bool :=
  match getsize (stat_of env path) with
  | Some _ => false
  | None => true
  end.

(** Asking for the modification time of the entry raises [OSError]. *)
Definition mtime_raises (path : pystr) : bool :=
  match getmtime (stat_of env path) with
  | Some _ => false
  | None => true
  end.

Definition encode_path (path : pystr) : option pystr :=
  bs <- Codec.str_encode_utf8 path ;;
  Codec.bytes_decode_ascii (Codec.urlsafe_b64encode bs).

Definition decode_path (token : pystr) : option pystr :=
  bs <- Codec.str_encode_ascii token ;;
  raw <- Codec.urlsafe_b64decode bs ;;
  Codec.bytes_decode_utf8 raw.

End WithEnv.
End Shared.

(* ================================================================== *)
(** * DuplicateFileName.py: grouping by normalised name *)
(* ================================================================== *)

Module DuplicateFileName.

Definition encode_path := Shared.encode_path.
Definition decode_path := Shared.decode_path.

Section WithEnv.
Variable env : environment.

Definition is_cloud_placeholder := Shared.is_cloud_placeholder env.
Definition is_within_excludes := Shared.is_within_excludes env.

(** ** [TS_REGEX] and [normalized_name] *)

(** [\d{n}] at the start of [s]: the text after the digits. *)
Fixpoint match_digits (n : nat) (s : pystr) : option pystr :=
  match n with
  | O => Some s
  | S n' =>
      match s with
      | c :: r => if Unicode.isdecimal (unicode env) c then match_digits n' r
                  else None
      | [] => None
      end
  end.

(** The class [[-_ ]]. *)
Definition ts_separator (c : N) : bool := ((c =? 45) || (c =? 95) || (c =? 32))%N.

(** The class [[-_ .]]. *)
Definition ts_trailing (c : N) : bool :=
  ((c =? 45) || (c =? 95) || (c =? 32) || (c =? 46))%N.

(** [(?:[-_ ]?\d{4})?]: greedy, first with the separator, then without
    it, then empty. *)
Definition match_time_part (s : pystr) : pystr :=
  let without_sep := match match_digits 4 s with
                     | Some r => r
                     | None => s
                     end in
  match s with
  | c :: r =>
      if ts_separator c then
        match match_digits 4 r with
        | Some r' => r'
        | None => without_sep
        end
      else without_sep
  | [] => s
  end.

(** [TS_REGEX.match(candidate)]: [None] when there is no match, else
    [candidate[m.end():]]. *)
Definition TS_REGEX_match (candidate : pystr) : option pystr :=
  match match_digits 8 candidate with
  | None => None
  | Some r => Some (drop_while ts_trailing (match_time_part r))
  end.

(** [re.sub(cls+, " ", s)]: each maximal run of the class becomes one
    space.  [in_run] tells whether the previous character was in it. *)
Fixpoint sub_runs (cls : N -> bool) (in_run : bool) (s : pystr) : pystr :=
  match s with
  | [] => []
  | c :: r =>
      if cls c then
        if in_run then sub_runs cls true r else 32%N :: sub_runs cls true r
      else c :: sub_runs cls false r
  end.

(** The class [[_\-\.]]. *)
Definition punctuation (c : N) : bool := ((c =? 95) || (c =? 45) || (c =? 46))%N.

Definition normalized_name (path : pystr) (ignore_ext : bool) : pystr :=
  let base := OsPath.basename (os env) path in
  let name := fst (OsPath.splitext (os env) base) in
  let candidate := if ignore_ext then name else base in
  let candidate := match TS_REGEX_match candidate with
                   | Some rest => rest
                   | None => candidate
                   end in
  let candidate := sub_runs punctuation false candidate in
  let candidate :=
    Unicode.strip (unicode env)
      (sub_runs (Unicode.isspace (unicode env)) false candidate) in
  Unicode.casefold (unicode env) candidate.

(** ** [scan_by_name] *)

(** The reasons for which the walk passes over an entry. *)
Definition passed_over (min_size : Z) (include_cloud : bool) (fpath : pystr)
  : bool :=
  Shared.not_eligible env include_cloud fpath
  || Shared.size_raises env fpath
  || Shared.too_small env min_size fpath
  || Shared.mtime_raises env fpath.


(** One group member: [(path, size, mtime)]. *)
Definition member : Type := pystr * Z * Q.

Definition member_path (m : member) : pystr := fst (fst m).
Definition member_size (m : member) : Z := snd (fst m).

(** What is recorded about a member is what the file system said, and
    its size is not below the minimum. *)
Definition recorded (min_size : Z) (k : pystr) (m : member) : Prop :=
  getsize (stat_of env (member_path m)) = Some (member_size m)
  /\ (min_size <= member_size m)%Z.

(** The local variables of the walk. *)
Record scan_state := {
  groups : list (pystr * list member);
  scanned : Z;
  skipped : Z
}.

Definition skip (st : scan_state) : scan_state :=
  {| groups := groups st; scanned := scanned st; skipped := skipped st + 1 |}.

(** The body of [for fname in filenames], for the full path [fpath]. *)
Definition scan_entry (min_size : Z) (include_cloud ignore_ext : bool)
  (st : scan_state) (fpath : pystr) : scan_state :=
  let info := stat_of env fpath in
  if negb (isfile info) || islink info then skip st
  else if negb include_cloud && is_cloud_placeholder fpath then skip st
  else
    match getsize info with
    | None => skip st
    | Some size =>
        if (size <? min_size)%Z then skip st
        else
          let key := normalized_name fpath ignore_ext in
          match getmtime info with
          | None => skip st
          | Some mtime =>
              {| groups := dict_append str_eqb key (fpath, size, mtime)
                             (groups st);
                 scanned := scanned st + 1;
                 skipped := skipped st |}
          end
    end.

Definition total_size (files : list member) : Z :=
  fold_right (fun m acc => member_size m + acc)%Z 0%Z files.

(** [grp_sort]: the key [(-len(files), -total, k)]. *)
Definition grp_sort (item : pystr * list member) : Z * Z * pystr :=
  (- len (snd item), - total_size (snd item), fst item)%Z.

(** Tuples compare lexicographically. *)
Definition key_le (a b : Z * Z * pystr) : bool :=
  let '(a1, a2, a3) := a in
  let '(b1, b2, b3) := b in
  ((a1 <? b1) || ((a1 =? b1) && ((a2 <? b2) || ((a2 =? b2) && str_leb a3 b3))))%Z.

(** A non-empty string is truthy. *)
Definition truthy (k : pystr) : bool :=
  match k with [] => false | _ => true end.

(** What a finished scan leaves behind: the global [GROUPS] and the
    counters published in [STATUS]. *)
Record scan_result := {
  GROUPS : list (pystr * list member);
  walk_scanned : Z;
  walk_skipped : Z
}.

(** [scan_by_name(root, min_size, ignores, include_cloud, ignore_ext,
    time_budget_sec)].  The time budget only colours a progress bar
    (the check in the loop is [pass]), so neither it nor the clock is
    part of the model. *)
Definition scan_by_name (root : dirtree) (root_path : pystr) (min_size : Z)
  (ignores : list pystr) (include_cloud ignore_ext : bool) : scan_result :=
  let st :=
    fold_left (scan_entry min_size include_cloud ignore_ext)
      (Shared.walk env ignores root_path root)
      {| groups := []; scanned := 0; skipped := 0 |} in
  let kept :=
    filter (fun kv => (len (snd kv) >=? 2)%Z && truthy (fst kv)) (groups st) in
  {| GROUPS := sorted (fun a b => key_le (grp_sort a) (grp_sort b)) kept;
     walk_scanned := scanned st;
     walk_skipped := skipped st |}.

End WithEnv.
End DuplicateFileName.

(* ================================================================== *)
(** * DuplicateFileSizeFinder.py: grouping by size and SHA-256 *)
(* ================================================================== *)

Module DuplicateFileSizeFinder.

Definition encode_path := Shared.encode_path.
Definition decode_path := Shared.decode_path.

Record Group := { size : Z; sha256 : pystr; files : list pystr }.

Definition CHUNK : N := 1024 * 1024.

(** ** The global status *)

(** The values of [STATUS["state"]]. *)
Inductive phase := Scanning | Hashing | NeedsTuning | Done | Error.

Module Status.
(** The dictionary [STATUS], one field per key ([started], a formatted
    wall-clock date, is left out). *)
Record t := {
  state : phase;
  message : pystr;
  walk_scanned : Z;
  walk_skipped : Z;
  hash_total : Z;
  hash_done : Z;
  eta_seconds : option Z;
  budget_seconds : option Z;
  elapsed_seconds : Z;
  min_size : Z;
  suggest_min_size : option Z;
  error : option pystr
}.

(** The keyword arguments of [set_status]: one updater per key. *)
Definition set_state (v : phase) (s : t) : t :=
  {| state := v; message := message s; walk_scanned := walk_scanned s;
     walk_skipped := walk_skipped s; hash_total := hash_total s;
     hash_done := hash_done s; eta_seconds := eta_seconds s;
     budget_seconds := budget_seconds s; elapsed_seconds := elapsed_seconds s;
     min_size := min_size s; suggest_min_size := suggest_min_size s;
     error := error s |}.
Definition set_message (v : pystr) (s : t) : t :=
  {| state := state s; message := v; walk_scanned := walk_scanned s;
     walk_skipped := walk_skipped s; hash_total := hash_total s;
     hash_done := hash_done s; eta_seconds := eta_seconds s;
     budget_seconds := budget_seconds s; elapsed_seconds := elapsed_seconds s;
     min_size := min_size s; suggest_min_size := suggest_min_size s;
     error := error s |}.
Definition set_walk_scanned (v : Z) (s : t) : t :=
  {| state := state s; message := message s; walk_scanned := v;
     walk_skipped := walk_skipped s; hash_total := hash_total s;
     hash_done := hash_done s; eta_seconds := eta_seconds s;
     budget_seconds := budget_seconds s; elapsed_seconds := elapsed_seconds s;
     min_size := min_size s; suggest_min_size := suggest_min_size s;
     error := error s |}.
Definition set_walk_skipped (v : Z) (s : t) : t :=
  {| state := state s; message := message s; walk_scanned := walk_scanned s;
     walk_skipped := v; hash_total := hash_total s;
     hash_done := hash_done s; eta_seconds := eta_seconds s;
     budget_seconds := budget_seconds s; elapsed_seconds := elapsed_seconds s;
     min_size := min_size s; suggest_min_size := suggest_min_size s;
     error := error s |}.
Definition set_hash_total (v : Z) (s : t) : t :=
  {| state := state s; message := message s; walk_scanned := walk_scanned s;
     walk_skipped := walk_skipped s; hash_total := v;
     hash_done := hash_done s; eta_seconds := eta_seconds s;
     budget_seconds := budget_seconds s; elapsed_seconds := elapsed_seconds s;
     min_size := min_size s; suggest_min_size := suggest_min_size s;
     error := error s |}.
Definition set_hash_done (v : Z) (s : t) : t :=
  {| state := state s; message := message s; walk_scanned := walk_scanned s;
     walk_skipped := walk_skipped s; hash_total := hash_total s;
     hash_done := v; eta_seconds := eta_seconds s;
     budget_seconds := budget_seconds s; elapsed_seconds := elapsed_seconds s;
     min_size := min_size s; suggest_min_size := suggest_min_size s;
     error := error s |}.
Definition set_eta_seconds (v : option Z) (s : t) : t :=
  {| state := state s; message := message s; walk_scanned := walk_scanned s;
     walk_skipped := walk_skipped s; hash_total := hash_total s;
     hash_done := hash_done s; eta_seconds := v;
     budget_seconds := budget_seconds s; elapsed_seconds := elapsed_seconds s;
     min_size := min_size s; suggest_min_size := suggest_min_size s;
     error := error s |}.
Definition set_budget_seconds (v : option Z) (s : t) : t :=
  {| state := state s; message := message s; walk_scanned := walk_scanned s;
     walk_skipped := walk_skipped s; hash_total := hash_total s;
     hash_done := hash_done s; eta_seconds := eta_seconds s;
     budget_seconds := v; elapsed_seconds := elapsed_seconds s;
     min_size := min_size s; suggest_min_size := suggest_min_size s;
     error := error s |}.
Definition set_elapsed_seconds (v : Z) (s : t) : t :=
  {| state := state s; message := message s; walk_scanned := walk_scanned s;
     walk_skipped := walk_skipped s; hash_total := hash_total s;
     hash_done := hash_done s; eta_seconds := eta_seconds s;
     budget_seconds := budget_seconds s; elapsed_seconds := v;
     min_size := min_size s; suggest_min_size := suggest_min_size s;
     error := error s |}.
Definition set_min_size (v : Z) (s : t) : t :=
  {| state := state s; message := message s; walk_scanned := walk_scanned s;
     walk_skipped := walk_skipped s; hash_total := hash_total s;
     hash_done := hash_done s; eta_seconds := eta_seconds s;
     budget_seconds := budget_seconds s; elapsed_seconds := elapsed_seconds s;
     min_size := v; suggest_min_size := suggest_min_size s;
     error := error s |}.
Definition set_suggest_min_size (v : option Z) (s : t) : t :=
  {| state := state s; message := message s; walk_scanned := walk_scanned s;
     walk_skipped := walk_skipped s; hash_total := hash_total s;
     hash_done := hash_done s; eta_seconds := eta_seconds s;
     budget_seconds := budget_seconds s; elapsed_seconds := elapsed_seconds s;
     min_size := min_size s; suggest_min_size := v;
     error := error s |}.
Definition set_error (v : option pystr) (s : t) : t :=
  {| state := state s; message := message s; walk_scanned := walk_scanned s;
     walk_skipped := walk_skipped s; hash_total := hash_total s;
     hash_done := hash_done s; eta_seconds := eta_seconds s;
     budget_seconds := budget_seconds s; elapsed_seconds := elapsed_seconds s;
     min_size := min_size s; suggest_min_size := suggest_min_size s;
     error := v |}.

(** The initial value of [STATUS]. *)
Definition initial : t :=
  {| state := Scanning; message := []; walk_scanned := 0; walk_skipped := 0;
     hash_total := 0; hash_done := 0; eta_seconds := None;
     budget_seconds := None; elapsed_seconds := 0;
     min_size := 10 * 1024 * 1024; suggest_min_size := None;
     error := None |}.
End Status.

(** The module-level variables both threads touch. *)
Record globals := {
  CURRENT_MIN_SIZE : Z;
  STATUS : Status.t;
  RESUME_EVENT : bool
}.

(** [set_status] with its keyword arguments: the updates are applied in
    order. *)
Definition set_status (kwargs : list (Status.t -> Status.t)) (g : globals)
  : globals :=
  {| CURRENT_MIN_SIZE := CURRENT_MIN_SIZE g;
     STATUS := fold_left (fun s f => f s) kwargs (STATUS g);
     RESUME_EVENT := RESUME_EVENT g |}.

Definition get_status (g : globals) : Status.t := STATUS g.

Definition min_size_ref (g : globals) : Z := CURRENT_MIN_SIZE g.

(** ** The [/resume] endpoint *)

(** The member [new_min_size] of the request body: absent, a value that
    [int()] turns into a number, or a value [int()] rejects. *)
Inductive json_number := Absent | Number (n : Z) | NotANumber.

Record resume_body := {
  action : option pystr;
  new_min_size : json_number
}.

(** [jsonify(ok=..., error=...)] with its status code, or the 500 page
    Flask answers when the view raises. *)
Inductive reply :=
| Json (ok : bool) (error : option pystr) (code : Z)
| InternalServerError.

Definition action_is (data : resume_body) (name : pystr) : bool :=
  match action data with
  | Some a => str_eqb a name
  | None => false
  end.

Definition resume (g : globals) (data : resume_body) : globals * reply :=
  if action_is data (lit "continue") then
    ({| CURRENT_MIN_SIZE := CURRENT_MIN_SIZE g; STATUS := STATUS g;
        RESUME_EVENT := true |},
     Json true None 200)
  else if action_is data (lit "raise") then
    match (match new_min_size data with
           | Absent => Some 0%Z
           | Number n => Some n
           | NotANumber => None
           end) with
    | None => (g, InternalServerError)
    | Some new_min =>
        if (new_min <? 1024 * 1024)%Z then
          (g, Json false (Some (lit "minsize te laag")) 400)
        else
          let g1 := {| CURRENT_MIN_SIZE := new_min; STATUS := STATUS g;
                       RESUME_EVENT := RESUME_EVENT g |} in
          let g2 := set_status [Status.set_min_size (CURRENT_MIN_SIZE g1)] g1 in
          ({| CURRENT_MIN_SIZE := CURRENT_MIN_SIZE g2; STATUS := STATUS g2;
              RESUME_EVENT := true |},
           Json true None 200)
    end
  else (g, Json false (Some (lit "onbekende actie")) 400).

(** The threshold a request installs, when [resume] accepts it. *)
Definition accepted_threshold (data : resume_body) : option Z :=
  if action_is data (lit "continue") then None
  else if action_is data (lit "raise") then
    match new_min_size data with
    | Number n => if (n <? 1024 * 1024)%Z then None else Some n
    | _ => None
    end
  else None.

(** The thresholds a sequence of requests will install. *)
Definition thresholds (requests : list (Q * resume_body)) : list Z :=
  flat_map (fun r => match accepted_threshold (snd r) with
                     | Some n => [n]
                     | None => []
                     end) requests.

(** ** The worker thread *)

(** The state of a run of [find_duplicates_streaming]: the clock, the
    globals, the requests the operator will send while the worker waits
    (each with the time it takes to arrive), the local variables of the
    hashing loop, and a record of the calls of [sha256_file]. *)
Record worker := {
  now : Q;
  shared : globals;
  inbox : list (Q * resume_body);
  done : Z;
  avg_per_file : option Q;
  hash_start : Q;
  groups : list ((Z * pystr) * list pystr);
  hashed : list pystr
}.

Definition with_now (v : Q) (w : worker) : worker :=
  {| now := v; shared := shared w; inbox := inbox w; done := done w;
     avg_per_file := avg_per_file w; hash_start := hash_start w;
     groups := groups w; hashed := hashed w |}.
Definition with_shared (v : globals) (w : worker) : worker :=
  {| now := now w; shared := v; inbox := inbox w; done := done w;
     avg_per_file := avg_per_file w; hash_start := hash_start w;
     groups := groups w; hashed := hashed w |}.
Definition with_inbox (v : list (Q * resume_body)) (w : worker) : worker :=
  {| now := now w; shared := shared w; inbox := v; done := done w;
     avg_per_file := avg_per_file w; hash_start := hash_start w;
     groups := groups w; hashed := hashed w |}.
Definition with_done (v : Z) (w : worker) : worker :=
  {| now := now w; shared := shared w; inbox := inbox w; done := v;
     avg_per_file := avg_per_file w; hash_start := hash_start w;
     groups := groups w; hashed := hashed w |}.
Definition with_avg_per_file (v : option Q) (w : worker) : worker :=
  {| now := now w; shared := shared w; inbox := inbox w; done := done w;
     avg_per_file := v; hash_start := hash_start w;
     groups := groups w; hashed := hashed w |}.
Definition with_hash_start (v : Q) (w : worker) : worker :=
  {| now := now w; shared := shared w; inbox := inbox w; done := done w;
     avg_per_file := avg_per_file w; hash_start := v;
     groups := groups w; hashed := hashed w |}.
Definition with_groups (v : list ((Z * pystr) * list pystr)) (w : worker)
  : worker :=
  {| now := now w; shared := shared w; inbox := inbox w; done := done w;
     avg_per_file := avg_per_file w; hash_start := hash_start w;
     groups := v; hashed := hashed w |}.
Definition with_hashed (v : list pystr) (w : worker) : worker :=
  {| now := now w; shared := shared w; inbox := inbox w; done := done w;
     avg_per_file := avg_per_file w; hash_start := hash_start w;
     groups := groups w; hashed := v |}.

(** How a piece of the worker ends: it completes, it waits for a resume
    decision that never comes, or it raises. *)
Inductive outcome (A : Type) :=
| Finished (a : A)
| Blocked (w : worker)
| Raised (w : worker).

Arguments Finished {A} a.
Arguments Blocked {A} w.
Arguments Raised {A} w.

(** [RESUME_EVENT.clear()]. *)
Definition clear (g : globals) : globals :=
  {| CURRENT_MIN_SIZE := CURRENT_MIN_SIZE g; STATUS := STATUS g;
     RESUME_EVENT := false |}.

(** [RESUME_EVENT.wait()]: the requests of the inbox go through
    [resume], one after the other, until one of them sets the event. *)
Fixpoint deliver (requests : list (Q * resume_body)) (t : Q) (g : globals)
  : option (Q * globals * list (Q * resume_body)) :=
  match requests with
  | [] => None
  | (delay, body) :: rest =>
      let g' := fst (resume g body) in
      let t' := t + delay in
      if RESUME_EVENT g' then Some (t', g', rest) else deliver rest t' g'
  end.

Definition wait (w : worker) : option worker :=
  match deliver (inbox w) (now w) (shared w) with
  | None => None
  | Some (t, g, rest) => Some (with_inbox rest (with_now t (with_shared g w)))
  end.

(** The local variables of the walk. *)
Record walk_state := {
  size_buckets : list (Z * list pystr);
  walk_scanned : Z;
  walk_skipped : Z
}.

Definition key_eqb (a b : Z * pystr) : bool :=
  (fst a =? fst b)%Z && str_eqb (snd a) (snd b).

(** [eta = int(predicted_remaining) if predicted_remaining else None]. *)
Definition eta_of (predicted_remaining : Q) : option Z :=
  if Qeq_bool predicted_remaining 0 then None
  else Some (py_int predicted_remaining).

(** [remaining_budget > 0 and eta and eta > remaining_budget]. *)
Definition over_budget (remaining_budget : Q) (eta : option Z) : bool :=
  Qltb 0 remaining_budget
  && match eta with
     | Some e => negb (e =? 0)%Z && Qltb remaining_budget (inject_Z e)
     | None => false
     end.

(** First [n] bytes of a buffer, and what follows them. *)
Fixpoint take (n : N) (l : bytes) : bytes :=
  match l with
  | [] => []
  | x :: r => if (n =? 0)%N then [] else x :: take (N.pred n) r
  end.

Fixpoint drop (n : N) (l : bytes) : bytes :=
  match l with
  | [] => []
  | x :: r => if (n =? 0)%N then l else drop (N.pred n) r
  end.

(** The loop of [sha256_file]: [f.read(CHUNK)] until it returns nothing.
    The hash object [h] is the bytes it has been fed. *)
Fixpoint read_loop (fuel : nat) (unread : bytes) (h : bytes) : bytes :=
  match fuel with
  | O => h
  | S fuel' =>
      match take CHUNK unread with
      | [] => h
      | b => read_loop fuel' (drop CHUNK unread) (h ++ b)
      end
  end.

Section WithEnv.
Variable env : environment.

Definition is_cloud_placeholder := Shared.is_cloud_placeholder env.
Definition is_within_excludes := Shared.is_within_excludes env.

(** [None] is an [OSError] while opening or reading. *)
Definition sha256_file (path : pystr) : option pystr :=
  match content (stat_of env path) with
  | None => None
  | Some data =>
      Some (sha256_hexdigest env (read_loop (S (length data)) data []))
  end.

(** The reasons for which the walk passes over an entry. *)
Definition passed_over (include_cloud : bool) (min_size : Z) (full : pystr)
  : bool :=
  Shared.not_eligible env include_cloud full
  || Shared.size_raises env full
  || Shared.too_small env min_size full.

(** A file is in the bucket of its size, which is not below the
    minimum. *)
Definition bucketed (min_size : Z) (size : Z) (p : pystr) : Prop :=
  getsize (stat_of env p) = Some size /\ (min_size <= size)%Z.

(** The body of [for name in filenames], for the full path [full];
    [min_size] is what [min_size_ref()] returns. *)
Definition walk_entry (include_cloud : bool) (min_size : Z)
  (st : walk_state) (full : pystr) : walk_state :=
  let info := stat_of env full in
  let skip st := {| size_buckets := size_buckets st;
                    walk_scanned := walk_scanned st;
                    walk_skipped := walk_skipped st + 1 |} in
  if negb (isfile info) || islink info then skip st
  else if negb include_cloud && is_cloud_placeholder full then skip st
  else
    match getsize info with
    | None => skip st
    | Some size =>
        let st := {| size_buckets := size_buckets st;
                     walk_scanned := walk_scanned st + 1;
                     walk_skipped := walk_skipped st |} in
        if (size <? min_size)%Z then skip st
        else {| size_buckets := dict_append Z.eqb size full (size_buckets st);
                walk_scanned := walk_scanned st;
                walk_skipped := walk_skipped st |}
    end.

(** The file [p] has size [fst key] and digest [snd key]. *)
Definition has_key (key : Z * pystr) (p : pystr) : bool :=
  match getsize (stat_of env p), sha256_file p with
  | Some s, Some d => key_eqb key (s, d)
  | _, _ => false
  end.

(** The minimum size is not above [s], now and after every request that
    is still to come. *)
Definition never_above (s : Z) (w : worker) : Prop :=
  (min_size_ref (shared w) <= s)%Z
  /\ Forall (fun n => n <= s)%Z (thresholds (inbox w)).

(** The groups are the files hashed so far, by size and digest. *)
Definition groups_reflect_hashed (w : worker) : Prop :=
  NoDup (map fst (groups w))
  /\ forall key,
       dict_get key_eqb key (groups w) = filter (has_key key) (hashed w).

Section HashPhase.
Variable time_budget_sec : Z.
Variable started : Q.
Variable total_to_hash : Z.

(** The [try] ... [finally] around one file. *)
Definition hash_one (size : Z) (p : pystr) (w : worker) : worker :=
  let w := with_hashed (hashed w ++ [p]) (with_now (now w + hash_cost env p) w) in
  let w := match sha256_file p with
           | Some digest =>
               with_groups (dict_append key_eqb (size, digest) p (groups w)) w
           | None => w
           end in
  with_done (done w + 1) w.

(** [elapsed = time.time() - started] and
    [remaining_budget = time_budget_sec - elapsed]. *)
Definition remaining_budget (w : worker) : Q :=
  inject_Z time_budget_sec - (now w - started).

(** [if done > 5: avg_per_file = (time.time() - hash_start) / done]. *)
Definition refresh_average (w : worker) : worker :=
  if (done w >? 5)%Z then
    with_avg_per_file (Some ((now w - hash_start w) / inject_Z (done w))) w
  else w.

(** [predicted_remaining] and [eta]. *)
Definition predicted_remaining (w : worker) : Q :=
  inject_Z (total_to_hash - done w) * or_else (avg_per_file w) 0.

Definition eta (w : worker) : option Z := eta_of (predicted_remaining w).

(** [set_status(hash_done=done, eta_seconds=eta, elapsed_seconds=int(elapsed))]. *)
Definition publish_progress (w : worker) : worker :=
  with_shared
    (set_status [Status.set_hash_done (done w);
                 Status.set_eta_seconds (eta w);
                 Status.set_elapsed_seconds (py_int (now w - started))]
       (shared w)) w.

(** The phase becomes [needs_tuning], a new minimum size is suggested,
    and the resume event is cleared. *)
Definition announce_tuning (w : worker) : worker :=
  let cur := min_size_ref (shared w) in
  let suggest := Z.max (cur * 2) (50 * 1024 * 1024) in
  with_shared
    (clear
       (set_status [Status.set_state NeedsTuning;
                    Status.set_suggest_min_size (Some suggest);
                    Status.set_message (lit "ETA overschrijdt tijdbudget")]
          (shared w))) w.

(** After the wait: the phase is [hashing] again and the clock of the
    running average is rebased. *)
Definition resume_hashing (w : worker) : worker :=
  let w := with_shared
             (set_status [Status.set_state Hashing; Status.set_message []]
                (shared w)) w in
  with_hash_start (now w - inject_Z (done w) * or_else (avg_per_file w) 0) w.

(** The worker pauses at its check point: it waits, for ever or until
    it is resumed. *)
Definition pauses (o : outcome (bool * worker)) : Prop :=
  match o with
  | Blocked _ => True
  | Finished (waited, _) => waited = true
  | Raised _ => False
  end.

(** The first files of the hashing phase, with a uniform cost [c] per
    file, no request on its way and a minimum size [m0]: [d] files are
    done, the clock started at [t1], no average is known yet. *)
Definition warming_up (t1 c : Q) (m0 : Z) (d : Z) (w : worker) : Prop :=
  done w = d /\ now w == t1 + inject_Z d * c /\ hash_start w = t1
  /\ avg_per_file w = None /\ inbox w = []
  /\ min_size_ref (shared w) = m0
  /\ Status.hash_total (STATUS (shared w)) = total_to_hash.

(** The worker waits in [needs_tuning] with 6 files done. *)
Definition paused_after_six (w : worker) : Prop :=
  done w = 6%Z
  /\ Status.state (STATUS (shared w)) = NeedsTuning
  /\ Status.hash_done (STATUS (shared w)) = 6%Z
  /\ Status.hash_total (STATUS (shared w)) = total_to_hash.

(** The worker as it is when it starts to wait. *)
Definition before_wait (w : worker) : worker :=
  announce_tuning (publish_progress (refresh_average w)).

(** The check point before a file is hashed: the running average is
    refreshed once more than 5 files are done, the estimate is
    published, and when it exceeds what is left of the budget the worker
    announces it and waits for a resume decision.  The flag tells
    whether the worker had to wait. *)
Definition checkpoint (w : worker) : outcome (bool * worker) :=
  let remaining_budget := remaining_budget w in
  let w := publish_progress (refresh_average w) in
  if over_budget remaining_budget (eta w) then
    let w := announce_tuning w in
    match wait w with
    | None => Blocked w
    | Some w => Finished (true, resume_hashing w)
    end
  else Finished (false, w).

(** [for p in paths], from the file [p] at the head of [rest] on: after
    a wait the size of the bucket is compared with the minimum as it is
    then, and the rest of the bucket is counted as done when it is
    below. *)
Fixpoint hash_files (size : Z) (paths rest : list pystr) (w : worker)
  : outcome worker :=
  match rest with
  | [] => Finished w
  | p :: rest' =>
      match checkpoint w with
      | Blocked w => Blocked w
      | Raised w => Raised w
      | Finished (waited, w) =>
          if waited && (size <? min_size_ref (shared w))%Z then
            match index p paths with
            | None => Raised w
            | Some i =>
                let remaining_in_bucket := (1 + (len paths - (i + 1)))%Z in
                Finished (with_done (done w + remaining_in_bucket) w)
            end
          else hash_files size paths rest' (hash_one size p w)
      end
  end.

(** [avg_per_file and total_to_hash > done]. *)
Definition avg_truthy (avg : option Q) : bool :=
  match avg with
  | Some a => negb (Qeq_bool a 0)
  | None => false
  end.

(** [for size, paths in jobs_all]. *)
Fixpoint hash_jobs (jobs : list (Z * list pystr)) (w : worker)
  : outcome worker :=
  match jobs with
  | [] => Finished w
  | (size, paths) :: jobs' =>
      if (size <? min_size_ref (shared w))%Z then
        let w := with_done (done w + len paths) w in
        let eta :=
          if avg_truthy (avg_per_file w) && (total_to_hash >? done w)%Z then
            Some (Z.max
                    (py_int (inject_Z (total_to_hash - done w)
                             * or_else (avg_per_file w) 0)) 0)
          else None in
        let w := with_shared
                   (set_status [Status.set_hash_done (done w);
                                Status.set_elapsed_seconds
                                  (py_int (now w - started));
                                Status.set_eta_seconds eta]
                      (shared w)) w in
        hash_jobs jobs' w
      else
        match hash_files size paths paths w with
        | Finished w => hash_jobs jobs' w
        | Blocked w => Blocked w
        | Raised w => Raised w
        end
  end.

End HashPhase.

(** The groups that are reported: at least two files, and a size that
    is not below the minimum as it is now. *)
Definition dup_groups_of (min_size : Z)
  (groups : list ((Z * pystr) * list pystr)) : list Group :=
  flat_map
    (fun kv =>
       let size := fst (fst kv) in
       let digest := snd (fst kv) in
       let files := snd kv in
       if (len files >=? 2)%Z && (size >=? min_size)%Z then
         [{| size := size; sha256 := digest; files := sorted str_leb files |}]
       else [])
    groups.

(** The sort key [g.size * (len(g.files) - 1)], largest first. *)
Definition reclaim (g : Group) : Z := (size g * (len (files g) - 1))%Z.

Definition by_reclaim_desc (a b : Group) : bool := (reclaim b <=? reclaim a)%Z.

(** The walk over the files [visited], with the minimum size as
    [min_size_ref()] returns it. *)
Definition walk_files (include_cloud : bool) (min_size : Z)
  (visited : list pystr) : walk_state :=
  fold_left (walk_entry include_cloud min_size) visited
    {| size_buckets := []; walk_scanned := 0; walk_skipped := 0 |}.

(** The clock after the walk. *)
Definition walk_clock (visited : list pystr) (t0 : Q) : Q :=
  fold_left (fun t p => t + scan_cost env p) visited t0.

(** [jobs_all]: the buckets with at least two files. *)
Definition jobs_of (st : walk_state) : list (Z * list pystr) :=
  filter (fun sp => (len (snd sp) >=? 2)%Z) (size_buckets st).

(** [total_to_hash]. *)
Definition total_of (jobs : list (Z * list pystr)) : Z :=
  fold_right (fun sp acc => len (snd sp) + acc)%Z 0%Z jobs.

(** The worker when the hashing phase starts. *)
Definition hash_phase_start (t1 : Q) (g : globals)
  (requests : list (Q * resume_body)) : worker :=
  {| now := t1; shared := g; inbox := requests; done := 0;
     avg_per_file := None; hash_start := t1; groups := []; hashed := [] |}.

(** What follows the hashing loop: the groups are filtered and ranked,
    and the phase becomes [done]. *)
Definition finish (started : Q) (w : worker) : list Group * worker :=
  let dup_groups :=
    sorted by_reclaim_desc
      (dup_groups_of (min_size_ref (shared w)) (groups w)) in
  (dup_groups,
   with_shared
     (set_status [Status.set_state Done;
                  Status.set_eta_seconds (Some 0%Z);
                  Status.set_elapsed_seconds (py_int (now w - started))]
        (shared w)) w).

(** [find_duplicates_streaming(root, min_size_ref, excludes,
    include_cloud, time_budget_sec)], started at time [t0] with the
    globals [g0]; [min_size_ref] reads [CURRENT_MIN_SIZE].  The requests
    are what the operator sends while the worker waits.  The counters of
    the walk are published once, when the walk is over (the source
    publishes them after every directory). *)
Definition find_duplicates_streaming (root : dirtree) (root_path : pystr)
  (excludes : list pystr) (include_cloud : bool) (time_budget_sec : Z)
  (t0 : Q) (g0 : globals) (requests : list (Q * resume_body))
  : outcome (list Group * worker) :=
  (* ---- WALK ---- *)
  let started := t0 in
  let g := set_status [Status.set_state Scanning;
                       Status.set_budget_seconds (Some time_budget_sec);
                       Status.set_elapsed_seconds 0] g0 in
  let visited := Shared.walk env excludes root_path root in
  let st := walk_files include_cloud (min_size_ref g) visited in
  let t1 := walk_clock visited t0 in
  let g := set_status [Status.set_walk_scanned (walk_scanned st);
                       Status.set_walk_skipped (walk_skipped st);
                       Status.set_elapsed_seconds (py_int (t1 - started))] g in
  (* ---- HASH ---- *)
  let jobs_all := jobs_of st in
  let total_to_hash := total_of jobs_all in
  let g := set_status [Status.set_state Hashing;
                       Status.set_hash_total total_to_hash;
                       Status.set_hash_done 0] g in
  match hash_jobs time_budget_sec started total_to_hash jobs_all
          (hash_phase_start t1 g requests) with
  | Finished w => Finished (finish started w)
  | Blocked w => Blocked w
  | Raised w => Raised w
  end.

End WithEnv.
End DuplicateFileSizeFinder.

(* ================================================================== *)
(** * Concrete environments *)
(* ================================================================== *)

Module Examples.

(** [posixpath.join] for two components. *)
Definition posix_join (a b : pystr) : pystr :=
  match b with
  | 47%N :: _ => b
  | _ =>
      match rev a with
      | [] => b
      | 47%N :: _ => a ++ b
      | _ => a ++ 47%N :: b
      end
  end.

Definition regular (size : Z) (data : bytes) : file_info :=
  {| isfile := true; islink := false; st_file_attributes := Some 0%Z;
     getsize := Some size; getmtime := Some 0; content := Some data |}.

Definition absent : file_info :=
  {| isfile := false; islink := false; st_file_attributes := None;
     getsize := None; getmtime := None; content := None |}.

Fixpoint lookup (table : list (pystr * file_info)) (p : pystr) : file_info :=
  match table with
  | [] => absent
  | (q, info) :: r => if str_eqb q p then info else lookup r p
  end.

(** A POSIX machine holding the files of [table]; looking at an entry
    takes no time, hashing a file takes [hash_seconds]; the digest is a
    stand-in that returns its input. *)
Definition machine (table : list (pystr * file_info)) (hash_seconds : Q)
  : environment :=
  {| os := Posix; unicode := Unicode.ascii_only; join := posix_join;
     normpath := fun p => p; lower := fun p => p;
     FILE_ATTRIBUTE_RECALL_ON_DATA_ACCESS := 0;
     FILE_ATTRIBUTE_RECALL_ON_OPEN := 0;
     sha256_hexdigest := fun data => data;
     stat_of := lookup table;
     scan_cost := fun _ => 0;
     hash_cost := fun _ => hash_seconds |}.

Definition MiB : Z := 1024 * 1024.

(** A Windows path with an e-diaeresis (two bytes in UTF-8), a euro
    sign (three bytes) and U+1F600 (four bytes). *)
Definition accented_path : pystr :=
  lit "C:\Users\zo" ++ [235%N] ++ lit "\" ++ [8364%N] ++ lit ".txt"
  ++ [128512%N].

Definition initial_globals (min_size : Z) : DuplicateFileSizeFinder.globals :=
  {| DuplicateFileSizeFinder.CURRENT_MIN_SIZE := min_size;
     DuplicateFileSizeFinder.STATUS :=
       DuplicateFileSizeFinder.Status.set_min_size min_size
         DuplicateFileSizeFinder.Status.initial;
     DuplicateFileSizeFinder.RESUME_EVENT := false |}.

(** The globals in the middle of the hashing phase, with a minimum size
    of 10 MiB. *)
Definition hashing_globals : DuplicateFileSizeFinder.globals :=
  DuplicateFileSizeFinder.set_status
    [DuplicateFileSizeFinder.Status.set_state DuplicateFileSizeFinder.Hashing]
    (initial_globals (10 * MiB)).

Definition raise_to (n : Z) : DuplicateFileSizeFinder.resume_body :=
  {| DuplicateFileSizeFinder.action := Some (lit "raise");
     DuplicateFileSizeFinder.new_min_size := DuplicateFileSizeFinder.Number n |}.

Definition continue : DuplicateFileSizeFinder.resume_body :=
  {| DuplicateFileSizeFinder.action := Some (lit "continue");
     DuplicateFileSizeFinder.new_min_size := DuplicateFileSizeFinder.Absent |}.

(** A flat directory [/r] with [n] files [f0 .. f(n-1)] of 20 MiB whose
    contents are pairwise equal. *)
Definition file_name (i : nat) : pystr := lit "f" ++ [N.of_nat (48 + i)].

Definition flat_names (n : nat) : list pystr := map file_name (seq 0 n).

Definition flat_tree (n : nat) : dirtree := Dir (lit "r") (flat_names n) [].

Definition flat_table (n : nat) : list (pystr * file_info) :=
  map (fun name => (posix_join (lit "/r") name, regular (20 * MiB) [1%N; 2%N]))
    (flat_names n).

Definition run_flat (n : nat) (hash_seconds : Q) (budget : Z)
  (requests : list (Q * DuplicateFileSizeFinder.resume_body)) :=
  DuplicateFileSizeFinder.find_duplicates_streaming
    (machine (flat_table n) hash_seconds) (flat_tree n) (lit "/r") [] false
    budget 0 (initial_globals (10 * MiB)) requests.

(** The scenario of the specification, with a fourth, small file:
    [a/20240101-0800_report.pdf] and [b/report.pdf] hold the same
    10 MiB, [c/report.pdf] holds other 10 MiB, [d/report.pdf] is 1 KiB. *)
Definition scenario_tree : dirtree :=
  Dir (lit "r") []
    [Dir (lit "a") [lit "20240101-0800_report.pdf"] [];
     Dir (lit "b") [lit "report.pdf"] [];
     Dir (lit "c") [lit "report.pdf"] [];
     Dir (lit "d") [lit "report.pdf"] []].

Definition report_a : pystr := lit "/r/a/20240101-0800_report.pdf".
Definition report_b : pystr := lit "/r/b/report.pdf".
Definition report_c : pystr := lit "/r/c/report.pdf".
Definition report_d : pystr := lit "/r/d/report.pdf".

Definition scenario_table : list (pystr * file_info) :=
  [(report_a, regular (10 * MiB) [1%N; 2%N]);
   (report_b, regular (10 * MiB) [1%N; 2%N]);
   (report_c, regular (10 * MiB) [3%N; 4%N]);
   (report_d, regular 1024 [1%N; 2%N])].

Definition scenario : environment := machine scenario_table 1.

Definition scenario_by_name : DuplicateFileName.scan_result :=
  DuplicateFileName.scan_by_name scenario scenario_tree (lit "/r")
    (10 * MiB) [] false true.

Definition scenario_by_content :=
  DuplicateFileSizeFinder.find_duplicates_streaming scenario scenario_tree
    (lit "/r") [] false 3600 0 (initial_globals (10 * MiB)) [].

(** The group each finder reports in that scenario, and its first
    member by name. *)
Definition scenario_name_group : pystr * list DuplicateFileName.member :=
  hd ([], []) (DuplicateFileName.GROUPS scenario_by_name).

Definition scenario_name_member : DuplicateFileName.member :=
  hd ([], 0%Z, 0) (snd scenario_name_group).

Definition scenario_content_group : DuplicateFileSizeFinder.Group :=
  hd {| DuplicateFileSizeFinder.size := 0;
        DuplicateFileSizeFinder.sha256 := [];
        DuplicateFileSizeFinder.files := [] |}
     (match scenario_by_content with
      | DuplicateFileSizeFinder.Finished (gs, _) => gs
      | _ => []
      end).

(** The state of a walk before its first entry, in each program. *)
Definition name_walk_start : DuplicateFileName.scan_state :=
  {| DuplicateFileName.groups := []; DuplicateFileName.scanned := 0;
     DuplicateFileName.skipped := 0 |}.

Definition size_walk_start : DuplicateFileSizeFinder.walk_state :=
  {| DuplicateFileSizeFinder.size_buckets := [];
     DuplicateFileSizeFinder.walk_scanned := 0;
     DuplicateFileSizeFinder.walk_skipped := 0 |}.

(** The groups and the worker of a run that returned. *)
Definition result_groups
  (o : DuplicateFileSizeFinder.outcome
         (list DuplicateFileSizeFinder.Group * DuplicateFileSizeFinder.worker))
  : list DuplicateFileSizeFinder.Group :=
  match o with
  | DuplicateFileSizeFinder.Finished (gs, _) => gs
  | _ => []
  end.

Definition result_worker
  (o : DuplicateFileSizeFinder.outcome
         (list DuplicateFileSizeFinder.Group * DuplicateFileSizeFinder.worker))
  : DuplicateFileSizeFinder.worker :=
  match o with
  | DuplicateFileSizeFinder.Finished (_, w) => w
  | DuplicateFileSizeFinder.Blocked w => w
  | DuplicateFileSizeFinder.Raised w => w
  end.

(** Three equal files, 10 s to hash each, a budget of 20 s. *)
Definition flat3 := run_flat 3 10 20 [].

(** Eight equal files, 10 s each, a budget of 50 s: it is used up
    before the sixth file is done. *)
Definition flat8_short := run_flat 8 10 50 [].

(** Eight equal files, 10.4 s each, a budget of 83 s: the estimate
    exceeds what is left by a fraction of a second only. *)
Definition flat8_fraction := run_flat 8 (52 # 5) 83 [].

(** Eight equal files, 10 s each, a budget of 70 s. *)
Definition flat8 := run_flat 8 10 70 [].

(** The number of files that run has to hash. *)
Definition flat8_total : Z :=
  DuplicateFileSizeFinder.total_of
    (DuplicateFileSizeFinder.jobs_of
       (DuplicateFileSizeFinder.walk_files
          (machine (flat_table 8) 10) false
          (DuplicateFileSizeFinder.min_size_ref (initial_globals (10 * MiB)))
          (Shared.walk (machine (flat_table 8) 10) [] (lit "/r")
             (flat_tree 8)))).

(** The group that run reports. *)
Definition flat3_group : DuplicateFileSizeFinder.Group :=
  hd {| DuplicateFileSizeFinder.size := 0;
        DuplicateFileSizeFinder.sha256 := [];
        DuplicateFileSizeFinder.files := [] |} (result_groups flat3).

Definition f0 : pystr := lit "/r/f0".
Definition f1 : pystr := lit "/r/f1".

(** A worker about to look at the seventh of eight files, one minute
    into a budget of 70 s, with a request to raise the minimum size to
    50 MiB on its way. *)
Definition seventh_file : DuplicateFileSizeFinder.worker :=
  {| DuplicateFileSizeFinder.now := 60;
     DuplicateFileSizeFinder.shared := hashing_globals;
     DuplicateFileSizeFinder.inbox := [(5, raise_to (50 * MiB))];
     DuplicateFileSizeFinder.done := 6;
     DuplicateFileSizeFinder.avg_per_file := None;
     DuplicateFileSizeFinder.hash_start := 0;
     DuplicateFileSizeFinder.groups := [];
     DuplicateFileSizeFinder.hashed := [] |}.

(** The eight paths of [flat_tree 8], and that worker after its check
    point. *)
Definition flat8_paths : list pystr := map (posix_join (lit "/r")) (flat_names 8).

Definition after_raise : DuplicateFileSizeFinder.worker :=
  match DuplicateFileSizeFinder.checkpoint 70 0 8 seventh_file with
  | DuplicateFileSizeFinder.Finished (_, w) => w
  | DuplicateFileSizeFinder.Blocked w => w
  | DuplicateFileSizeFinder.Raised w => w
  end.

End Examples.
From Stdlib Require DecimalString.

(* ================================================================== *)
(** * Helpers of both programs: [human] and [onedrive_paths] *)
(* ================================================================== *)

Module Helpers.

(** ** [human] *)

Definition units : list pystr :=
  [lit "B"; lit "KB"; lit "MB"; lit "GB"; lit "TB"].

(** [str(n)] on an integer: its decimal digits, after a minus sign when
    it is negative. *)
Definition str_of_int (n : Z) : pystr :=
  lit (DecimalString.NilZero.string_of_int (Z.to_int n)).

(** [float(n)] on an integer: the double nearest to [n], as the rational
    it denotes.  Up to 53 bits the conversion is exact; beyond, the
    significand is rounded, a tie going to the even one; [None] is the
    [OverflowError] of a result that needs an exponent above 1023. *)
Definition float_of_int (n : Z) : option Q :=
  let a := Z.abs n in
  let bits := (if a =? 0 then 0 else Z.log2 a + 1)%Z in
  if (bits <=? 53)%Z then Some (inject_Z n)
  else
    let shift := (bits - 53)%Z in
    let q := Z.shiftr a shift in
    let r := (a - Z.shiftl q shift)%Z in
    let half := Z.shiftl 1 (shift - 1) in
    let q := if (half <? r)%Z || ((r =? half)%Z && Z.odd q)
             then (q + 1)%Z else q in
    let m := Z.shiftl q shift in
    if (2 ^ 1024 <=? m)%Z then None else Some (inject_Z (Z.sgn n * m)).

(** The integer nearest to [y], a tie going to the even one. *)
Definition round_half_even (y : Q) : Z :=
  let f := Qfloor y in
  let d := y - inject_Z f in
  if Qltb d (1 # 2) then f
  else if Qltb (1 # 2) d then (f + 1)%Z
  else if Z.even f then f else (f + 1)%Z.

(** The format [{x:.1f}]: [x] correctly rounded to one decimal. *)
Definition format_1f (x : Q) : pystr :=
  let negative := Qltb x 0 in
  let t := round_half_even ((if negative then - x else x) * 10) in
  (if negative then lit "-" else [])
  ++ str_of_int (t / 10) ++ lit "." ++ str_of_int (t mod 10).

(** [while x >= 1024 and i < len(units) - 1: x /= 1024.0; i += 1].  The
    bound on [i] ends the loop after at most [len(units) - 1] rounds,
    which is the fuel [human] gives it; dividing a double that is at
    least 1024 by 1024 is exact. *)
Fixpoint scale (fuel : nat) (x : Q) (i : nat) : Q * nat :=
  match fuel with
  | O => (x, i)
  | S fuel' =>
      if Qle_bool 1024 x && (i <? length units - 1)%nat
      then scale fuel' (x / 1024) (S i)
      else (x, i)
  end.

Definition human (nbytes : Z) : option pystr :=
  x <- float_of_int nbytes ;;
  let '(x, i) := scale (length units - 1) x 0 in
  Some (if (0 <? i)%nat
        then format_1f x ++ lit " " ++ nth i units []
        else str_of_int (py_int x) ++ lit " " ++ nth i units []).

(** ** [onedrive_paths] *)

(** What [onedrive_paths] asks the host: the environment variables,
    [os.path.isdir] and [os.listdir] ([None] is a raised [OSError]). *)
Record host := {
  environ : pystr -> option pystr;
  isdir : pystr -> bool;
  listdir : pystr -> option (list pystr)
}.

Section WithHost.
Variable env : environment.
Variable h : host.

(** The first loop: the variables that are set to a non-empty value. *)
Definition from_environ : list pystr :=
  flat_map
    (fun var =>
       match environ h var with
       | Some (c :: p) => [normpath env (c :: p)]
       | _ => []
       end)
    [lit "OneDrive"; lit "OneDriveCommercial"; lit "OneDriveConsumer"].

(** [base], the profile directory of [USERNAME]. *)
Definition base : pystr :=
  lit "C:\Users\"
  ++ match environ h (lit "USERNAME") with
     | Some user => user
     | None => []
     end.

(** The second loop: the entries of [base] whose name starts with
    [onedrive], whatever the case. *)
Definition from_profile : option (list pystr) :=
  if isdir h base then
    names <- listdir h base ;;
    Some (map (join env base)
            (filter (fun name => startswith (lower env name) (lit "onedrive"))
               names))
  else Some [].

(** The key under which a path is remembered in [seen]. *)
Definition seen_key (p : pystr) : pystr := lower env (normpath env p).

(** The last loop: a path is kept when its key was not seen before. *)
Fixpoint keep_unseen (seen : list pystr) (paths : list pystr) : list pystr :=
  match paths with
  | [] => []
  | p :: r =>
      let k := seen_key p in
      if existsb (str_eqb k) seen then keep_unseen seen r
      else p :: keep_unseen (k :: seen) r
  end.

Definition onedrive_paths : option (list pystr) :=
  found <- from_profile ;;
  Some (keep_unseen [] (from_environ ++ found)).

End WithHost.

(** ** Vocabulary of the statements *)

(** The characters of a URL-safe base64 token: letters, digits, [-],
    [_] and the pad [=]. *)
Definition urlsafe_char (c : N) : bool :=
  (((65 <=? c) && (c <=? 90)) || ((97 <=? c) && (c <=? 122))
   || ((48 <=? c) && (c <=? 57)) || (c =? 45) || (c =? 95) || (c =? 61))%N.

(** An ASCII capital becomes its small letter; nothing else changes. *)
Definition ascii_lower (c : N) : N :=
  (if (65 <=? c) && (c <=? 90) then c + 32 else c)%N.

(** Any character but the dot. *)
Definition nondot (c : N) : bool := negb (c =? 46)%N.

(** A date stamp: eight decimal digits. *)
Definition is_date (U : unicode_db) (d : pystr) : bool :=
  (length d =? 8)%nat && forallb (Unicode.isdecimal U) d.

(** A time stamp: nothing, or four decimal digits, after one of [-],
    [_] and the space or not. *)
Definition is_time (U : unicode_db) (t : pystr) : bool :=
  match t with
  | [] => true
  | c :: r =>
      ((length t =? 4)%nat && forallb (Unicode.isdecimal U) t)
      || (DuplicateFileName.ts_separator c && (length r =? 4)%nat
          && forallb (Unicode.isdecimal U) r)
  end.

(** A name that does not begin with a decimal digit or with one of [-],
    [_], the space and the dot. *)
Definition plain_start (U : unicode_db) (s : pystr) : bool :=
  match s with
  | [] => true
  | c :: _ =>
      negb (Unicode.isdecimal U c) && negb (DuplicateFileName.ts_trailing c)
  end.

(** A text that does not begin with a decimal digit. *)
Definition no_digit_first (U : unicode_db) (s : pystr) : Prop :=
  match s with
  | [] => True
  | c :: _ => Unicode.isdecimal U c = false
  end.

(** The number of file names in a directory tree. *)
Fixpoint count_files (t : dirtree) : nat :=
  match t with
  | Dir _ filenames subdirs =>
      (length filenames + list_sum (map count_files subdirs))%nat
  end.

End Helpers.

(* ================================================================== *)
(** * Vocabulary for the runs of the size-based finder *)
(* ================================================================== *)

Module Runs.
Import DuplicateFileSizeFinder.

(** The worker as a piece of the run leaves it, however it ends. *)
Definition outcome_worker {A} (proj : A -> worker) (o : outcome A) : worker :=
  match o with
  | Finished a => proj a
  | Blocked w => w
  | Raised w => w
  end.

(** The worker at the end of [find_duplicates_streaming]. *)
Definition run_worker (o : outcome (list Group * worker)) : worker :=
  outcome_worker snd o.

(** The entry [f] was not passed over by the walk and has the size
    [size]. *)
Definition admitted_with_size (env : environment) (include_cloud : bool)
  (min_size size : Z) (f : pystr) : bool :=
  negb (passed_over env include_cloud min_size f)
  && match getsize (stat_of env f) with
     | Some s => (s =? size)%Z
     | None => false
     end.

(** A request that [resume] accepts: [continue], or [raise] with a
    number that is at least 1 MiB. *)
Definition accepted (data : resume_body) : bool :=
  action_is data (lit "continue")
  || (action_is data (lit "raise")
      && match new_min_size data with
         | Number n => negb (n <? 1024 * 1024)%Z
         | _ => false
         end).

End Runs.

(* ================================================================== *)
(** * The endpoints [/delete] and [/delete-batch] of both programs *)
(* ================================================================== *)

Module Endpoints.

(** A member of a JSON request body, as far as the handlers tell values
    apart: absent or [null], a string, or any other value, of which only
    the truth value matters. *)
Inductive json := Null | Str (s : pystr) | Other (truth : bool).

(** [not token]. *)
Definition falsy (v : json) : bool :=
  match v with
  | Null => true
  | Str [] => true
  | Str _ => false
  | Other truth => negb truth
  end.

(** [jsonify(ok=..., error=...)] with its status code. *)
Record reply := { ok : bool; error : option pystr; code : Z }.

(** [jsonify(ok=..., deleted=..., error=...)]. *)
Record batch_reply := {
  batch_ok : bool;
  batch_deleted : Z;
  batch_error : pystr
}.

(** [sep.join(l)]. *)
Fixpoint str_join (sep : pystr) (l : list pystr) : pystr :=
  match l with
  | [] => []
  | x :: r =>
      match r with
      | [] => x
      | _ :: _ => x ++ sep ++ str_join sep r
      end
  end.

Section WithTrash.
(** The state of the disk; [send2trash path] returns the disk afterwards
    and, when it raises, the text of the exception. *)
Variable disk : Type.
Variable send2trash : pystr -> disk -> disk * option pystr.
(** The text of the exception [decode_path] raises on a token. *)
Variable decode_error : json -> pystr.

(** [decode_path(token)] on what the body holds: a value that is not a
    string has no [encode] method. *)
Definition decode_token (token : json) : option pystr :=
  match token with
  | Str s => Shared.decode_path s
  | _ => None
  end.

(** [try: send2trash(decode_path(token))] with [except Exception as e]:
    the disk afterwards and [str(e)] when something was raised. *)
Definition try_trash (token : json) (d : disk) : disk * option pystr :=
  match decode_token token with
  | None => (d, Some (decode_error token))
  | Some path => send2trash path d
  end.

(** [delete_one], for the member [path] of the body. *)
Definition delete_one (token : json) (d : disk) : disk * reply :=
  if falsy token then
    (d, {| ok := false; error := Some (lit "no path"); code := 400 |})
  else
    match try_trash token d with
    | (d', None) => (d', {| ok := true; error := None; code := 200 |})
    | (d', Some msg) => (d', {| ok := false; error := Some msg; code := 500 |})
    end.

(** The loop of [delete_batch]. *)
Fixpoint trash_all (tokens : list json) (d : disk) (ok : Z)
  (errors : list pystr) : disk * Z * list pystr :=
  match tokens with
  | [] => (d, ok, errors)
  | t :: r =>
      match try_trash t d with
      | (d', None) => trash_all r d' (ok + 1)%Z errors
      | (d', Some msg) => trash_all r d' ok (errors ++ [msg])
      end
  end.

(** [delete_batch], for the member [paths] of the body: an array, or
    absent. *)
Definition delete_batch (paths : option (list json)) (d : disk)
  : disk * batch_reply :=
  let tokens := match paths with
                | Some l => l
                | None => []
                end in
  let '(d', ok, errors) := trash_all tokens d 0%Z [] in
  (d', {| batch_ok := (ok =? len tokens)%Z;
          batch_deleted := ok;
          batch_error := str_join (lit "; ") errors |}).

End WithTrash.
End Endpoints.

(* ================================================================== *)
(** * More concrete inputs *)
(* ================================================================== *)

Module Samples.

Definition sample_size : Z := 5 * 1024 * 1024 + 512 * 1024.

(** Three copies of [x.txt] (20 MiB each) and two of [y.txt] (30 MiB
    each) in three directories. *)
Definition album_tree : dirtree :=
  Dir (lit "r") []
    [Dir (lit "a") [lit "x.txt"; lit "y.txt"] [];
     Dir (lit "b") [lit "x.txt"; lit "y.txt"] [];
     Dir (lit "c") [lit "x.txt"] []].

Definition album_table : list (pystr * file_info) :=
  [(lit "/r/a/x.txt", Examples.regular (20 * Examples.MiB) [1%N]);
   (lit "/r/a/y.txt", Examples.regular (30 * Examples.MiB) [2%N]);
   (lit "/r/b/x.txt", Examples.regular (20 * Examples.MiB) [1%N]);
   (lit "/r/b/y.txt", Examples.regular (30 * Examples.MiB) [2%N]);
   (lit "/r/c/x.txt", Examples.regular (20 * Examples.MiB) [1%N])].

Definition album : environment := Examples.machine album_table 1.

Definition album_by_name : DuplicateFileName.scan_result :=
  DuplicateFileName.scan_by_name album album_tree (lit "/r")
    (10 * Examples.MiB) [] false true.

Definition album_by_content :=
  DuplicateFileSizeFinder.find_duplicates_streaming album album_tree
    (lit "/r") [] false 3600 0 (Examples.initial_globals (10 * Examples.MiB))
    [].

Definition album_x_names : pystr * list DuplicateFileName.member :=
  (lit "x",
   [(lit "/r/a/x.txt", (20 * Examples.MiB)%Z, 0%Q);
    (lit "/r/b/x.txt", (20 * Examples.MiB)%Z, 0%Q);
    (lit "/r/c/x.txt", (20 * Examples.MiB)%Z, 0%Q)]).

Definition album_y_names : pystr * list DuplicateFileName.member :=
  (lit "y",
   [(lit "/r/a/y.txt", (30 * Examples.MiB)%Z, 0%Q);
    (lit "/r/b/y.txt", (30 * Examples.MiB)%Z, 0%Q)]).

(** The same run with a budget of 0 seconds. *)
Definition album_no_budget :=
  DuplicateFileSizeFinder.find_duplicates_streaming album album_tree
    (lit "/r") [] false 0 0 (Examples.initial_globals (10 * Examples.MiB))
    [].

Definition album_x_group : DuplicateFileSizeFinder.Group :=
  {| DuplicateFileSizeFinder.size := 20 * Examples.MiB;
     DuplicateFileSizeFinder.sha256 := [1%N];
     DuplicateFileSizeFinder.files :=
       [lit "/r/a/x.txt"; lit "/r/b/x.txt"; lit "/r/c/x.txt"] |}.

Definition album_y_group : DuplicateFileSizeFinder.Group :=
  {| DuplicateFileSizeFinder.size := 30 * Examples.MiB;
     DuplicateFileSizeFinder.sha256 := [2%N];
     DuplicateFileSizeFinder.files := [lit "/r/a/y.txt"; lit "/r/b/y.txt"] |}.

(** A worker in the hashing phase with three requests to come: a raise
    to 5 bytes, which [/resume] rejects, a continue, and a raise to
    64 MiB. *)
Definition waiting_worker : DuplicateFileSizeFinder.worker :=
  DuplicateFileSizeFinder.hash_phase_start 0 Examples.hashing_globals
    [(1, Examples.raise_to 5); (2, Examples.continue);
     (3, Examples.raise_to (64 * Examples.MiB))].

(** A trash can that keeps what it is given, last first, and never
    fails. *)
Definition trash_can (p : pystr) (d : list pystr)
  : list pystr * option pystr := (p :: d, None).

End Samples.
(* ================================================================== *)
(** * Proofs: codecs *)
(* ================================================================== *)

Ltac Zify.zify_post_hook ::= Z.to_euclidean_division_equations.

(** Turn boolean comparisons in the context into propositions. *)
Ltac reflect_hyps :=
  repeat match goal with
  | H : andb _ _ = true |- _ => apply andb_true_iff in H; destruct H
  | H : andb _ _ = false |- _ => apply andb_false_iff in H; destruct H
  | H : orb _ _ = true |- _ => apply orb_true_iff in H; destruct H
  | H : orb _ _ = false |- _ => apply orb_false_iff in H; destruct H
  | H : negb _ = true |- _ => apply negb_true_iff in H
  | H : negb _ = false |- _ => apply negb_false_iff in H
  | H : N.ltb _ _ = true |- _ => apply N.ltb_lt in H
  | H : N.ltb _ _ = false |- _ => apply N.ltb_ge in H
  | H : N.leb _ _ = true |- _ => apply N.leb_le in H
  | H : N.leb _ _ = false |- _ => apply N.leb_gt in H
  | H : N.eqb _ _ = true |- _ => apply N.eqb_eq in H
  | H : N.eqb _ _ = false |- _ => apply N.eqb_neq in H
  | H : Z.ltb _ _ = true |- _ => apply Z.ltb_lt in H
  | H : Z.ltb _ _ = false |- _ => apply Z.ltb_ge in H
  | H : Z.leb _ _ = true |- _ => apply Z.leb_le in H
  | H : Z.leb _ _ = false |- _ => apply Z.leb_gt in H
  | H : Z.eqb _ _ = true |- _ => apply Z.eqb_eq in H
  | H : Z.eqb _ _ = false |- _ => apply Z.eqb_neq in H
  end.

(** Case split on the first test of the goal. *)
Ltac split_if :=
  match goal with
  | |- context [if ?b then _ else _] =>
      lazymatch b with
      | context [if _ then _ else _] => fail
      | _ => let E := fresh "E" in destruct b eqn:E
      end
  end.

Module CodecFacts.
Import Codec.

Lemma utf8_cp_roundtrip (c : N) (bs rest : bytes) :
  utf8_encode_cp c = Some bs ->
  bytes_decode_utf8 (bs ++ rest)
  = (s <- bytes_decode_utf8 rest ;; Some (c :: s)).
Proof.
  unfold utf8_encode_cp, is_surrogate.
  intros H.
  repeat (match type of H with
          | context [if ?b then _ else _] =>
              let E := fresh "E" in destruct b eqn:E
          end); try discriminate H;
    (match type of H with
     | Some ?x = Some _ =>
         let Hx := fresh in
         assert (Hx : bs = x) by (injection H; intros Hi; symmetry; exact Hi);
         subst bs; clear H
     end); reflect_hyps.
  - cbn [app bytes_decode_utf8].
    replace (c <? 128)%N with true by (symmetry; apply N.ltb_lt; lia).
    reflexivity.
  - remember (192 + c / 64)%N as b1 eqn:Hb1.
    remember (128 + c mod 64)%N as b2 eqn:Hb2.
    cbn [app bytes_decode_utf8]. unfold is_cont.
    repeat (split_if; reflect_hyps; try lia).
    replace ((b1 - 192) * 64 + (b2 - 128))%N with c by lia. reflexivity.
  - remember (224 + c / 4096)%N as b1 eqn:Hb1.
    remember (128 + (c / 64) mod 64)%N as b2 eqn:Hb2.
    remember (128 + c mod 64)%N as b3 eqn:Hb3.
    cbn [app bytes_decode_utf8]. unfold is_cont, is_surrogate.
    replace ((b1 - 224) * 4096 + (b2 - 128) * 64 + (b3 - 128))%N with c by lia.
    repeat (split_if; reflect_hyps; try lia).
    reflexivity.
  - remember (224 + c / 4096)%N as b1 eqn:Hb1.
    remember (128 + (c / 64) mod 64)%N as b2 eqn:Hb2.
    remember (128 + c mod 64)%N as b3 eqn:Hb3.
    cbn [app bytes_decode_utf8]. unfold is_cont, is_surrogate.
    replace ((b1 - 224) * 4096 + (b2 - 128) * 64 + (b3 - 128))%N with c by lia.
    repeat (split_if; reflect_hyps; try lia).
    reflexivity.
  - remember (240 + c / 262144)%N as b1 eqn:Hb1.
    remember (128 + (c / 4096) mod 64)%N as b2 eqn:Hb2.
    remember (128 + (c / 64) mod 64)%N as b3 eqn:Hb3.
    remember (128 + c mod 64)%N as b4 eqn:Hb4.
    cbn [app bytes_decode_utf8]. unfold is_cont.
    replace ((b1 - 240) * 262144 + (b2 - 128) * 4096 + (b3 - 128) * 64
             + (b4 - 128))%N with c by lia.
    repeat (split_if; reflect_hyps; try lia).
    reflexivity.
Qed.


Lemma str_utf8_roundtrip (p : pystr) (bs : bytes) :
  str_encode_utf8 p = Some bs -> bytes_decode_utf8 bs = Some p.
Proof.
  revert bs. induction p as [|c r IH]; intros bs H; cbn in H.
  - injection H as <-. reflexivity.
  - destruct (utf8_encode_cp c) as [b|] eqn:Ec; [|discriminate].
    destruct (str_encode_utf8 r) as [bs'|] eqn:Er; [|discriminate].
    cbn in H. injection H as <-.
    rewrite (utf8_cp_roundtrip _ _ _ Ec), (IH _ eq_refl). reflexivity.
Qed.

Lemma utf8_encode_cp_total (c : N) :
  scalar_value c = true -> exists b, utf8_encode_cp c = Some b.
Proof.
  unfold scalar_value, utf8_encode_cp. intros H. reflect_hyps.
  rewrite H0.
  repeat (split_if; [eexists; reflexivity|]).
  reflect_hyps. lia.
Qed.

Lemma utf8_encode_cp_bytes (c : N) (b : bytes) :
  utf8_encode_cp c = Some b -> Forall (fun x => x < 256)%N b.
Proof.
  unfold utf8_encode_cp. intros H.
  repeat (match type of H with
          | context [if ?b then _ else _] =>
              let E := fresh "E" in destruct b eqn:E
          end); try discriminate H;
    (match type of H with
     | Some ?x = Some _ =>
         let Hx := fresh in
         assert (Hx : b = x) by (injection H; intros Hi; symmetry; exact Hi);
         subst b; clear H
     end); reflect_hyps;
    repeat (apply Forall_cons; [lia|]); apply Forall_nil.
Qed.

Lemma str_encode_utf8_total (p : pystr) :
  forallb scalar_value p = true ->
  exists bs, str_encode_utf8 p = Some bs /\ Forall (fun x => x < 256)%N bs.
Proof.
  induction p as [|c r IH]; cbn [forallb str_encode_utf8]; intros H.
  - exists []. split; [reflexivity | constructor].
  - apply andb_true_iff in H. destruct H as [Hc Hr].
    destruct (utf8_encode_cp_total c Hc) as [b Hb].
    destruct (IH Hr) as [bs [Hbs Hlt]].
    exists (b ++ bs). rewrite Hb, Hbs. split; [reflexivity|].
    apply Forall_app. split; [eapply utf8_encode_cp_bytes; eassumption | assumption].
Qed.


Lemma table_roundtrip (i : N) :
  (i < 64)%N ->
  table_a2b_base64 (tr (table_b2a_base64 i)) = Some i
  /\ (tr (table_b2a_base64 i) =? BASE64_PAD)%N = false.
Proof.
  intros Hi. unfold table_b2a_base64.
  repeat (split_if; reflect_hyps);
    unfold tr, urlsafe_decode_translation, urlsafe_encode_translation,
      table_a2b_base64, BASE64_PAD;
    repeat (split_if; reflect_hyps; try lia);
    (split; [f_equal; lia | apply N.eqb_neq; lia]).
Qed.

Lemma table_b2a_ascii (i : N) : (tr (table_b2a_base64 i) <? 128)%N = true
  /\ (urlsafe_encode_translation (table_b2a_base64 i) <? 128)%N = true.
Proof.
  unfold table_b2a_base64.
  repeat (split_if; reflect_hyps);
    unfold tr, urlsafe_decode_translation, urlsafe_encode_translation;
    repeat (split_if; reflect_hyps; try lia);
    (split; apply N.ltb_lt; lia).
Qed.


Lemma list_ind3 {A} (P : list A -> Prop) :
  P [] -> (forall a, P [a]) -> (forall a b, P [a; b]) ->
  (forall a b c r, P r -> P (a :: b :: c :: r)) ->
  forall l, P l.
Proof.
  intros H0 H1 H2 H3 l.
  assert (H : P l /\ (forall a, P (a :: l)) /\ (forall a b, P (a :: b :: l))).
  { induction l as [|x l [IH0 [IH1 IH2]]]; repeat split; auto. }
  apply H.
Qed.

(** One alphabet character fed to the decoder. *)
Lemma a2b_loop_sextet (i : N) (rest : bytes) (q lc p : N) (out : bytes) :
  (i < 64)%N ->
  a2b_loop (tr (table_b2a_base64 i) :: rest) q lc p out
  = if (q =? 0)%N then a2b_loop rest 1%N i 0%N out
    else if (q =? 1)%N then
      a2b_loop rest 2%N (i mod 16)%N 0%N (out ++ [((lc * 4) mod 256 + i / 16)%N])
    else if (q =? 2)%N then
      a2b_loop rest 3%N (i mod 4)%N 0%N (out ++ [((lc * 16) mod 256 + i / 4)%N])
    else a2b_loop rest 0%N 0%N 0%N (out ++ [((lc * 64) mod 256 + i)%N]).
Proof.
  intros Hi. destruct (table_roundtrip i Hi) as [Ht Hp].
  cbn [a2b_loop]. rewrite Hp, Ht. reflexivity.
Qed.

Lemma a2b_loop_group (a b c : N) (rest : bytes) (lc p : N) (out : bytes) :
  (a < 256)%N -> (b < 256)%N -> (c < 256)%N ->
  a2b_loop (tr (table_b2a_base64 (a / 4))
            :: tr (table_b2a_base64 ((a mod 4) * 16 + b / 16))
            :: tr (table_b2a_base64 ((b mod 16) * 4 + c / 64))
            :: tr (table_b2a_base64 (c mod 64)) :: rest) 0%N lc p out
  = a2b_loop rest 0%N 0%N 0%N (out ++ [a; b; c]).
Proof.
  intros Ha Hb Hc.
  rewrite a2b_loop_sextet by lia. cbn [N.eqb].
  rewrite a2b_loop_sextet by lia. cbn [N.eqb Pos.eqb].
  rewrite a2b_loop_sextet by lia. cbn [N.eqb Pos.eqb].
  rewrite a2b_loop_sextet by lia. cbn [N.eqb Pos.eqb].
  rewrite <- !app_assoc. cbn [app].
  f_equal. f_equal. f_equal; [lia|]. f_equal; [lia|]. f_equal. lia.
Qed.

Lemma map_tr (l : bytes) :
  map urlsafe_decode_translation (map urlsafe_encode_translation l) = map tr l.
Proof. rewrite map_map. reflexivity. Qed.

Lemma a2b_b2a (bs : bytes) :
  Forall (fun x => x < 256)%N bs ->
  forall lc p out,
    a2b_loop (map tr (b2a_base64 bs)) 0%N lc p out = Some (out ++ bs).
Proof.
  induction bs as [|a|a b|a b c r IH] using list_ind3; intros Hlt lc p out.
  - cbn. rewrite app_nil_r. reflexivity.
  - inversion Hlt as [|? ? Ha _]; subst.
    cbn [b2a_base64 map].
    rewrite a2b_loop_sextet by lia. cbn [N.eqb].
    rewrite a2b_loop_sextet by lia. cbn [N.eqb Pos.eqb].
    cbn. do 3 f_equal. lia.
  - inversion Hlt as [|? ? Ha Hlt']; subst.
    inversion Hlt' as [|? ? Hb _]; subst.
    cbn [b2a_base64 map].
    rewrite a2b_loop_sextet by lia. cbn [N.eqb].
    rewrite a2b_loop_sextet by lia. cbn [N.eqb Pos.eqb].
    rewrite a2b_loop_sextet by lia. cbn [N.eqb Pos.eqb].
    cbn. rewrite <- app_assoc. cbn [app].
    do 3 f_equal; [lia|]. f_equal. lia.
  - inversion Hlt as [|? ? Ha Hlt1]; subst.
    inversion Hlt1 as [|? ? Hb Hlt2]; subst.
    inversion Hlt2 as [|? ? Hc Hlt3]; subst.
    cbn [b2a_base64 map app].
    rewrite a2b_loop_group by assumption.
    rewrite IH by assumption. rewrite <- app_assoc. reflexivity.
Qed.

Lemma urlsafe_b64_roundtrip (bs : bytes) :
  Forall (fun x => x < 256)%N bs ->
  urlsafe_b64decode (urlsafe_b64encode bs) = Some bs.
Proof.
  intros H. unfold urlsafe_b64decode, urlsafe_b64encode, a2b_base64.
  rewrite map_tr. apply (a2b_b2a bs H).
Qed.

Lemma urlsafe_b64encode_ascii (bs : bytes) :
  forallb (fun b => b <? 128)%N (urlsafe_b64encode bs) = true.
Proof.
  unfold urlsafe_b64encode.
  induction bs as [|a|a b|a b c r IH] using list_ind3;
    cbn [b2a_base64 map app forallb];
    rewrite ?(proj2 (table_b2a_ascii _)), ?IH; reflexivity.
Qed.

End CodecFacts.

Section PathTokens.
Import Codec CodecFacts.

Lemma shared_path_roundtrip (p : pystr) :
  forallb scalar_value p = true ->
  exists token,
    Shared.encode_path p = Some token /\ Shared.decode_path token = Some p.
Proof.
  intros Hp.
  destruct (str_encode_utf8_total p Hp) as [bs [Hbs Hlt]].
  exists (urlsafe_b64encode bs).
  unfold Shared.encode_path, Shared.decode_path, bytes_decode_ascii,
    str_encode_ascii.
  rewrite Hbs. cbn [bind].
  rewrite urlsafe_b64encode_ascii. split; [reflexivity|].
  cbn [bind]. rewrite (urlsafe_b64_roundtrip bs Hlt). cbn [bind].
  apply str_utf8_roundtrip. exact Hbs.
Qed.

(** C9. A path whose code points are all Unicode scalar values (that is,
    a path that UTF-8 can represent) is encoded to a token, and decoding
    that token gives the path back; this holds for the pair of functions
    of each of the two programs. *)
Theorem C9_decode_encode_path (p : pystr) :
  forallb scalar_value p = true ->
  (exists token,
      DuplicateFileSizeFinder.encode_path p = Some token
      /\ DuplicateFileSizeFinder.decode_path token = Some p)
  /\ (exists token,
        DuplicateFileName.encode_path p = Some token
        /\ DuplicateFileName.decode_path token = Some p).
Proof.
  intros Hp. split; apply shared_path_roundtrip; exact Hp.
Qed.

Lemma C9_decode_encode_path_witness :
  forallb scalar_value Examples.accented_path = true
  /\ ((exists token,
         DuplicateFileSizeFinder.encode_path Examples.accented_path = Some token
         /\ DuplicateFileSizeFinder.decode_path token
            = Some Examples.accented_path)
      /\ (exists token,
            DuplicateFileName.encode_path Examples.accented_path = Some token
            /\ DuplicateFileName.decode_path token
               = Some Examples.accented_path)).
Proof.
  split; [reflexivity|].
  apply (C9_decode_encode_path Examples.accented_path). reflexivity.
Defined.

End PathTokens.

(* ================================================================== *)
(** * Proofs: strings, sorting and dictionaries *)
(* ================================================================== *)

Module ListFacts.

Lemma str_eqb_eq (a b : pystr) : str_eqb a b = true <-> a = b.
Proof.
  unfold str_eqb. destruct (list_eq_dec N.eq_dec a b); split; congruence.
Qed.

Lemma str_eqb_refl (a : pystr) : str_eqb a a = true.
Proof. apply str_eqb_eq. reflexivity. Qed.

Lemma str_eqb_neq (a b : pystr) : str_eqb a b = false <-> a <> b.
Proof.
  unfold str_eqb. destruct (list_eq_dec N.eq_dec a b); split; congruence.
Qed.

Lemma len_nonneg {A} (l : list A) : (0 <= len l)%Z.
Proof. unfold len. lia. Qed.

Lemma len_app {A} (l1 l2 : list A) : len (l1 ++ l2) = (len l1 + len l2)%Z.
Proof. unfold len. rewrite length_app. lia. Qed.

Lemma len_cons {A} (x : A) (l : list A) : len (x :: l) = (1 + len l)%Z.
Proof. unfold len. cbn [length]. lia. Qed.

Lemma fold_left_invariant {S X} (P : S -> Prop) (f : S -> X -> S)
  (l : list X) (init : S) :
  P init -> (forall st x, In x l -> P st -> P (f st x)) ->
  P (fold_left f l init).
Proof.
  revert init. induction l as [|x r IH]; cbn; intros init H0 Hstep; [exact H0|].
  apply IH.
  - apply Hstep; [left; reflexivity | exact H0].
  - intros st y Hy. apply Hstep. right. exact Hy.
Qed.

(** ** The order on strings *)

Lemma str_leb_total (s t : pystr) : str_leb s t = true \/ str_leb t s = true.
Proof.
  revert t. induction s as [|a s IH]; intros [|b t]; cbn; auto.
  destruct (N.lt_trichotomy a b) as [H | [H | H]].
  - left. apply orb_true_iff. left. apply N.ltb_lt. exact H.
  - subst b. destruct (IH t) as [H | H]; [left | right];
      rewrite N.eqb_refl, H; cbn; apply orb_true_r.
  - right. apply orb_true_iff. left. apply N.ltb_lt. exact H.
Qed.

Lemma str_leb_refl (s : pystr) : str_leb s s = true.
Proof. destruct (str_leb_total s s); assumption. Qed.

Lemma str_leb_antisym (s t : pystr) :
  str_leb s t = true -> str_leb t s = true -> s = t.
Proof.
  revert t. induction s as [|a s IH]; intros [|b t]; cbn; try congruence.
  intros H1 H2. reflect_hyps; try lia.
  assert (a = b) by lia. subst b. f_equal. apply IH; assumption.
Qed.

Lemma str_leb_trans (s t u : pystr) :
  str_leb s t = true -> str_leb t u = true -> str_leb s u = true.
Proof.
  revert t u. induction s as [|a s IH]; intros [|b t] [|c u]; cbn;
    try congruence.
  intros H1 H2. reflect_hyps; apply orb_true_iff.
  - left. apply N.ltb_lt. lia.
  - left. apply N.ltb_lt. lia.
  - left. apply N.ltb_lt. lia.
  - right. apply andb_true_iff. split; [apply N.eqb_eq; lia|].
    eapply IH; eassumption.
Qed.

(** ** [sorted] *)

Section Sorting.
Context {A : Type} (le : A -> A -> bool).

Lemma insert_sorted_perm (x : A) (l : list A) :
  Permutation (insert_sorted le x l) (x :: l).
Proof.
  induction l as [|y r IH]; cbn.
  - apply Permutation_refl.
  - destruct (le x y).
    + apply Permutation_refl.
    + eapply perm_trans; [apply perm_skip, IH | apply perm_swap].
Qed.

Lemma sorted_perm (l : list A) : Permutation (sorted le l) l.
Proof.
  induction l as [|x r IH]; cbn.
  - apply perm_nil.
  - eapply perm_trans; [apply insert_sorted_perm | apply perm_skip, IH].
Qed.

Lemma sorted_In (x : A) (l : list A) : In x (sorted le l) <-> In x l.
Proof.
  split; apply Permutation_in;
    [apply sorted_perm | apply Permutation_sym, sorted_perm].
Qed.

Lemma sorted_length (l : list A) : length (sorted le l) = length l.
Proof. apply Permutation_length, sorted_perm. Qed.

Lemma sorted_len (l : list A) : len (sorted le l) = len l.
Proof. unfold len. rewrite sorted_length. reflexivity. Qed.

Hypothesis le_total : forall a b, le a b = true \/ le b a = true.

Lemma insert_sorted_Sorted (x : A) (l : list A) :
  Sorted (fun a b => le a b = true) l ->
  Sorted (fun a b => le a b = true) (insert_sorted le x l).
Proof.
  induction l as [|y r IH]; cbn; intros Hs.
  - repeat constructor.
  - destruct (le x y) eqn:Exy.
    + constructor; [assumption | constructor; assumption].
    + inversion Hs as [|? ? Hr Hhd]; subst.
      constructor; [apply IH; assumption|].
      destruct r as [|z r']; cbn.
      * constructor. destruct (le_total x y); congruence.
      * destruct (le x z).
        -- constructor. destruct (le_total x y); congruence.
        -- constructor. inversion Hhd; assumption.
Qed.

Lemma sorted_Sorted (l : list A) : Sorted (fun a b => le a b = true) (sorted le l).
Proof.
  induction l as [|x r IH]; cbn.
  - constructor.
  - apply insert_sorted_Sorted. exact IH.
Qed.

Hypothesis le_trans : forall a b c, le a b = true -> le b c = true -> le a c = true.
Hypothesis le_antisym : forall a b, le a b = true -> le b a = true -> a = b.

Lemma sorted_StronglySorted (l : list A) :
  StronglySorted (fun a b => le a b = true) (sorted le l).
Proof.
  apply Sorted_StronglySorted; [|apply sorted_Sorted].
  intros a b c. apply le_trans.
Qed.

(** Two strongly sorted lists with the same elements are the same list. *)
Lemma StronglySorted_perm_eq (l1 l2 : list A) :
  StronglySorted (fun a b => le a b = true) l1 ->
  StronglySorted (fun a b => le a b = true) l2 ->
  Permutation l1 l2 -> l1 = l2.
Proof.
  revert l2. induction l1 as [|x r IH]; intros l2 H1 H2 Hp.
  - apply Permutation_nil in Hp. congruence.
  - destruct l2 as [|y r2].
    { apply Permutation_sym, Permutation_nil in Hp. discriminate. }
    inversion H1 as [|? ? Hr1 Hx]; subst.
    inversion H2 as [|? ? Hr2 Hy]; subst.
    assert (Exy : x = y).
    { assert (Hin1 : In x (y :: r2)) by (eapply Permutation_in; [exact Hp | left; reflexivity]).
      assert (Hin2 : In y (x :: r))
        by (eapply Permutation_in; [apply Permutation_sym; exact Hp | left; reflexivity]).
      destruct Hin1 as [E | Hin1]; [congruence|].
      destruct Hin2 as [E | Hin2]; [congruence|].
      rewrite Forall_forall in Hx, Hy.
      apply le_antisym; [apply Hx | apply Hy]; assumption. }
    subst y. f_equal. apply IH; try assumption.
    eapply Permutation_cons_inv. exact Hp.
Qed.

Lemma sorted_perm_eq (l1 l2 : list A) :
  Permutation l1 l2 -> sorted le l1 = sorted le l2.
Proof.
  intros Hp. apply StronglySorted_perm_eq; try apply sorted_StronglySorted.
  eapply perm_trans; [apply sorted_perm|].
  eapply perm_trans; [exact Hp | apply Permutation_sym, sorted_perm].
Qed.

End Sorting.

(** ** [defaultdict(list)] as an association list *)

Section Dict.
Context {K V : Type} (eqb : K -> K -> bool).
Hypothesis eqb_eq : forall a b, eqb a b = true <-> a = b.

Lemma dict_get_append (k k' : K) (v : V) (d : list (K * list V)) :
  dict_get eqb k' (dict_append eqb k v d)
  = if eqb k' k then dict_get eqb k' d ++ [v] else dict_get eqb k' d.
Proof.
  induction d as [|[k0 vs] r IH]; cbn.
  - destruct (eqb k' k); reflexivity.
  - destruct (eqb k k0) eqn:E0; cbn.
    + apply eqb_eq in E0. subst k0.
      destruct (eqb k' k); reflexivity.
    + rewrite IH. destruct (eqb k' k0) eqn:E1; [|reflexivity].
      destruct (eqb k' k) eqn:E2; [|reflexivity].
      apply eqb_eq in E1, E2. subst. rewrite (proj2 (eqb_eq k0 k0) eq_refl) in E0.
      discriminate.
Qed.

Lemma dict_append_keys (k : K) (v : V) (d : list (K * list V)) :
  map fst (dict_append eqb k v d)
  = if existsb (eqb k) (map fst d) then map fst d else map fst d ++ [k].
Proof.
  induction d as [|[k0 vs] r IH]; cbn; [reflexivity|].
  destruct (eqb k k0); cbn; [reflexivity|].
  rewrite IH. destruct (existsb (eqb k) (map fst r)); reflexivity.
Qed.

Lemma dict_append_NoDup (k : K) (v : V) (d : list (K * list V)) :
  NoDup (map fst d) -> NoDup (map fst (dict_append eqb k v d)).
Proof.
  intros Hnd. rewrite dict_append_keys.
  destruct (existsb (eqb k) (map fst d)) eqn:E; [assumption|].
  apply NoDup_app; [assumption | repeat constructor; intros [] |].
  intros x Hx [Hk | []]. subst x.
  assert (existsb (eqb k) (map fst d) = true); [|congruence].
  apply existsb_exists. exists k. split; [assumption | apply eqb_eq; reflexivity].
Qed.

Lemma all_entries_nil (P : K -> V -> Prop) : all_entries P [].
Proof. intros k vs []. Qed.

Lemma dict_append_all_entries (P : K -> V -> Prop) (k : K) (v : V)
  (d : list (K * list V)) :
  all_entries P d -> P k v -> all_entries P (dict_append eqb k v d).
Proof.
  unfold all_entries. induction d as [|[k0 vs0] r IH]; cbn; intros Hd Hv k' vs Hin.
  - destruct Hin as [E | []]. injection E as <- <-. repeat constructor. exact Hv.
  - destruct (eqb k k0) eqn:Ek.
    + destruct Hin as [E | Hin].
      * injection E as <- <-. apply eqb_eq in Ek. subst k0.
        apply Forall_app. split.
        -- apply (Hd k vs0). left. reflexivity.
        -- repeat constructor. exact Hv.
      * apply (Hd k' vs). right. exact Hin.
    + destruct Hin as [E | Hin].
      * injection E as <- <-. apply (Hd k0 vs0). left. reflexivity.
      * apply (IH (fun k vs H => Hd k vs (or_intror H)) Hv k' vs Hin).
Qed.

Lemma all_entries_filter (P : K -> V -> Prop) (f : K * list V -> bool)
  (d : list (K * list V)) :
  all_entries P d -> all_entries P (filter f d).
Proof.
  intros Hd k vs Hin. apply filter_In in Hin. apply (Hd k vs), Hin.
Qed.

(** With distinct keys, an entry is what [dict_get] finds. *)
Lemma dict_get_In (k : K) (vs : list V) (d : list (K * list V)) :
  NoDup (map fst d) -> In (k, vs) d -> dict_get eqb k d = vs.
Proof.
  induction d as [|[k0 vs0] r IH]; cbn; intros Hnd Hin; [contradiction|].
  inversion Hnd as [|? ? Hnot Hnd']; subst.
  destruct Hin as [E | Hin].
  - injection E as <- <-. rewrite (proj2 (eqb_eq k0 k0) eq_refl). reflexivity.
  - destruct (eqb k k0) eqn:E.
    + apply eqb_eq in E. subst k0. exfalso. apply Hnot.
      apply (in_map fst) in Hin. exact Hin.
    + apply IH; assumption.
Qed.

Lemma dict_get_nonempty_In (k : K) (d : list (K * list V)) :
  dict_get eqb k d <> [] -> In (k, dict_get eqb k d) d.
Proof.
  induction d as [|[k0 vs0] r IH]; cbn; intros Hne; [congruence|].
  destruct (eqb k k0) eqn:E.
  - apply eqb_eq in E. subst. left. reflexivity.
  - right. apply IH. exact Hne.
Qed.

End Dict.

End ListFacts.

(* ================================================================== *)
(** * Proofs: the name-based finder *)
(* ================================================================== *)

Module NameFacts.
Import ListFacts DuplicateFileName.

Section WithEnv.
Variable env : environment.

(** ** One entry of the walk *)

Lemma scan_entry_counters min_size include_cloud ignore_ext st fpath :
  let st' := scan_entry env min_size include_cloud ignore_ext st fpath in
  if passed_over env min_size include_cloud fpath
  then scanned st' = scanned st /\ skipped st' = (skipped st + 1)%Z
       /\ groups st' = groups st
  else scanned st' = (scanned st + 1)%Z /\ skipped st' = skipped st.
Proof.
  unfold passed_over, Shared.not_eligible, Shared.size_raises,
    Shared.too_small, Shared.mtime_raises, scan_entry, is_cloud_placeholder.
  cbv zeta.
  destruct (negb (isfile (stat_of env fpath)) || islink (stat_of env fpath));
    cbn [orb]; [auto|].
  destruct (negb include_cloud && Shared.is_cloud_placeholder env fpath);
    cbn [orb]; [auto|].
  destruct (getsize (stat_of env fpath)) as [size|]; cbn [orb]; [|auto].
  destruct (size <? min_size)%Z; cbn [orb]; [auto|].
  destruct (getmtime (stat_of env fpath)); cbn; auto.
Qed.

(** ** The groups built by the walk *)

Lemma scan_entry_recorded min_size include_cloud ignore_ext st fpath :
  all_entries (recorded env min_size) (groups st) ->
  all_entries (recorded env min_size)
    (groups (scan_entry env min_size include_cloud ignore_ext st fpath)).
Proof.
  intros Hst. unfold scan_entry. cbv zeta.
  repeat (split_if; cbn [groups skip]; try exact Hst).
  destruct (getsize (stat_of env fpath)) as [size|] eqn:Es; [|exact Hst].
  destruct (size <? min_size)%Z eqn:El; [exact Hst|].
  destruct (getmtime (stat_of env fpath)) as [mtime|]; [|exact Hst].
  cbn [groups]. apply dict_append_all_entries; [apply str_eqb_eq | exact Hst |].
  split; cbn; [exact Es | lia].
Qed.

Lemma scan_by_name_groups root root_path min_size ignores include_cloud
  ignore_ext k members :
  In (k, members)
    (GROUPS (scan_by_name env root root_path min_size ignores include_cloud
               ignore_ext)) ->
  (2 <= len members)%Z /\ k <> []
  /\ Forall (recorded env min_size k) members.
Proof.
  unfold scan_by_name. cbn [GROUPS]. intros Hin.
  apply sorted_In in Hin. apply filter_In in Hin. destruct Hin as [Hin Hf].
  cbn [fst snd] in Hf. apply andb_true_iff in Hf. destruct Hf as [Hlen Hk].
  split; [lia|]. split; [destruct k; [discriminate | congruence]|].
  revert Hin. generalize k members.
  change (all_entries (recorded env min_size)
            (groups (fold_left
                       (scan_entry env min_size include_cloud ignore_ext)
                       (Shared.walk env ignores root_path root)
                       {| groups := []; scanned := 0; skipped := 0 |}))).
  apply fold_left_invariant with
    (P := fun st => all_entries (recorded env min_size) (groups st)).
  - apply all_entries_nil.
  - intros st x _ Hst. apply scan_entry_recorded. exact Hst.
Qed.

(** Over the whole walk every entry is counted once. *)
Lemma scan_counters_total min_size include_cloud ignore_ext visited st :
  let st' := fold_left (scan_entry env min_size include_cloud ignore_ext)
               visited st in
  (scanned st' + skipped st' = scanned st + skipped st + len visited)%Z.
Proof.
  revert st. induction visited as [|x r IH]; intros st; cbn [fold_left].
  - cbv zeta. unfold len. cbn. lia.
  - cbv zeta in *. rewrite IH. rewrite len_cons.
    pose proof (scan_entry_counters min_size include_cloud ignore_ext st x) as H.
    cbv zeta in H. destruct (passed_over env min_size include_cloud x); lia.
Qed.

End WithEnv.


End NameFacts.

(* ================================================================== *)
(** * Proofs: the [/resume] endpoint *)
(* ================================================================== *)

Module ResumeFacts.
Import ListFacts DuplicateFileSizeFinder.

(** What [resume] does to the globals when it accepts a threshold. *)
Lemma resume_raise_accepted (g : globals) (data : resume_body) (n : Z) :
  action_is data (lit "continue") = false ->
  action_is data (lit "raise") = true ->
  new_min_size data = Number n -> (1024 * 1024 <= n)%Z ->
  resume g data
  = ({| CURRENT_MIN_SIZE := n;
        STATUS := Status.set_min_size n (STATUS g);
        RESUME_EVENT := true |}, Json true None 200).
Proof.
  intros Hc Hr Hn Hle. unfold resume. rewrite Hc, Hr, Hn.
  replace (n <? 1024 * 1024)%Z with false by (symmetry; apply Z.ltb_ge; lia).
  reflexivity.
Qed.

(** C1 (amended). The handler of [/resume] never looks at the phase.
    Whatever the phase is: [continue] sets the resume event and changes
    neither the minimum size nor the status; [raise] with a threshold of
    at least 1 MiB installs it as the minimum size, publishes it and sets
    the event; [raise] with a threshold below 1 MiB, with none, or with
    one that is not a number, and any other action, are refused and leave
    the globals as they were. *)
Theorem C1_resume_ignores_phase (g : globals) (data : resume_body) :
  (action_is data (lit "continue") = true ->
   resume g data
   = ({| CURRENT_MIN_SIZE := CURRENT_MIN_SIZE g; STATUS := STATUS g;
         RESUME_EVENT := true |}, Json true None 200))
  /\ (action_is data (lit "continue") = false ->
      action_is data (lit "raise") = true ->
      (forall n, new_min_size data = Number n -> (1024 * 1024 <= n)%Z ->
         resume g data
         = ({| CURRENT_MIN_SIZE := n;
               STATUS := Status.set_min_size n (STATUS g);
               RESUME_EVENT := true |}, Json true None 200))
      /\ (forall n, new_min_size data = Number n -> (n < 1024 * 1024)%Z ->
            resume g data = (g, Json false (Some (lit "minsize te laag")) 400))
      /\ (new_min_size data = Absent ->
          resume g data = (g, Json false (Some (lit "minsize te laag")) 400))
      /\ (new_min_size data = NotANumber ->
          resume g data = (g, InternalServerError)))
  /\ (action_is data (lit "continue") = false ->
      action_is data (lit "raise") = false ->
      resume g data = (g, Json false (Some (lit "onbekende actie")) 400)).
Proof.
  split; [|split].
  - intros Hc. unfold resume. rewrite Hc. reflexivity.
  - intros Hc Hr. repeat split.
    + intros n Hn Hle. apply resume_raise_accepted; assumption.
    + intros n Hn Hlt. unfold resume. rewrite Hc, Hr, Hn.
      replace (n <? 1024 * 1024)%Z with true by (symmetry; apply Z.ltb_lt; lia).
      reflexivity.
    + intros Hn. unfold resume. rewrite Hc, Hr, Hn. reflexivity.
    + intros Hn. unfold resume. rewrite Hc, Hr, Hn. reflexivity.
  - intros Hc Hr. unfold resume. rewrite Hc, Hr. reflexivity.
Qed.

Lemma C1_resume_ignores_phase_witness :
  resume Examples.hashing_globals Examples.continue
  = ({| CURRENT_MIN_SIZE := CURRENT_MIN_SIZE Examples.hashing_globals;
        STATUS := STATUS Examples.hashing_globals;
        RESUME_EVENT := true |}, Json true None 200)
  /\ resume Examples.hashing_globals (Examples.raise_to 4096)
     = (Examples.hashing_globals, Json false (Some (lit "minsize te laag")) 400)
  /\ resume Examples.hashing_globals
       {| action := Some (lit "pause"); new_min_size := Absent |}
     = (Examples.hashing_globals, Json false (Some (lit "onbekende actie")) 400).
Proof.
  split; [|split].
  - apply (proj1 (C1_resume_ignores_phase Examples.hashing_globals
                    Examples.continue)).
    reflexivity.
  - apply (proj1 (proj2 (proj1 (proj2 (C1_resume_ignores_phase
                    Examples.hashing_globals (Examples.raise_to 4096)))
                    eq_refl eq_refl)) 4096%Z).
    + reflexivity.
    + vm_compute. reflexivity.
  - apply (proj2 (proj2 (C1_resume_ignores_phase Examples.hashing_globals
                    {| action := Some (lit "pause"); new_min_size := Absent |})));
      reflexivity.
Defined.

(** C1, as stated, fails: in the hashing phase, which is not
    [needs_tuning], a [raise] to 50 MiB is answered with [ok] and
    changes the minimum size the worker reads, and a [continue] sets the
    resume event. *)
Lemma C1_counterexample :
  Status.state (STATUS Examples.hashing_globals) <> NeedsTuning
  /\ snd (resume Examples.hashing_globals (Examples.raise_to (50 * Examples.MiB)))
     = Json true None 200
  /\ CURRENT_MIN_SIZE
       (fst (resume Examples.hashing_globals
               (Examples.raise_to (50 * Examples.MiB))))
     = (50 * Examples.MiB)%Z
  /\ CURRENT_MIN_SIZE Examples.hashing_globals = (10 * Examples.MiB)%Z
  /\ fst (resume Examples.hashing_globals Examples.continue)
     <> Examples.hashing_globals.
Proof.
  repeat split; try reflexivity; try discriminate.
Qed.

End ResumeFacts.

(* ================================================================== *)
(** * Proofs: the hashing loop *)
(* ================================================================== *)

Module HashFacts.
Import ListFacts DuplicateFileSizeFinder.

Lemma key_eqb_eq (a b : Z * pystr) : key_eqb a b = true <-> a = b.
Proof.
  destruct a as [a1 a2], b as [b1 b2]. unfold key_eqb. cbn [fst snd].
  rewrite andb_true_iff, Z.eqb_eq, str_eqb_eq. split.
  - intros [-> ->]. reflexivity.
  - intros E. injection E as -> ->. auto.
Qed.

Lemma Finished_inj {A} (a b : A) : Finished a = Finished b -> a = b.
Proof. intros E. injection E as E. exact E. Qed.

(** ** Requests *)

Lemma resume_min_size (g : globals) (data : resume_body) :
  CURRENT_MIN_SIZE (fst (resume g data))
  = match accepted_threshold data with
    | Some n => n
    | None => CURRENT_MIN_SIZE g
    end.
Proof.
  unfold resume, accepted_threshold.
  destruct (action_is data (lit "continue")); [reflexivity|].
  destruct (action_is data (lit "raise")); [|reflexivity].
  destruct (new_min_size data) as [|n|]; try reflexivity.
  destruct (n <? 1024 * 1024)%Z; reflexivity.
Qed.

Lemma deliver_never_above (s : Z) requests t g t' g' rest :
  deliver requests t g = Some (t', g', rest) ->
  (CURRENT_MIN_SIZE g <= s)%Z ->
  Forall (fun n => n <= s)%Z (thresholds requests) ->
  (CURRENT_MIN_SIZE g' <= s)%Z
  /\ Forall (fun n => n <= s)%Z (thresholds rest).
Proof.
  revert t g. induction requests as [|[delay body] r IH]; intros t g Hd Hg Hall;
    cbn [deliver] in Hd; [discriminate|].
  cbn [thresholds flat_map snd] in Hall. apply Forall_app in Hall.
  destruct Hall as [Hhd Htl].
  assert (Hg' : (CURRENT_MIN_SIZE (fst (resume g body)) <= s)%Z).
  { rewrite resume_min_size. destruct (accepted_threshold body); [|exact Hg].
    inversion Hhd; assumption. }
  destruct (RESUME_EVENT (fst (resume g body))).
  - injection Hd as <- <- <-. split; assumption.
  - eapply IH; eassumption.
Qed.

(** A request that sets the event is at the head of what [wait]
    consumes; with no request the worker stays blocked. *)
Lemma wait_no_request (w : worker) : inbox w = [] -> wait w = None.
Proof. intros H. unfold wait. rewrite H. reflexivity. Qed.

Section WithEnv.
Variable env : environment.
Variable time_budget_sec : Z.
Variable started : Q.
Variable total_to_hash : Z.

#[local] Abbreviation checkpoint := (checkpoint time_budget_sec started total_to_hash).
#[local] Abbreviation hash_files := (hash_files env time_budget_sec started total_to_hash).
#[local] Abbreviation hash_jobs := (hash_jobs env time_budget_sec started total_to_hash).
#[local] Abbreviation before_wait := (before_wait started total_to_hash).

(** ** What a check point leaves alone *)

Lemma wait_frame (w w' : worker) :
  wait w = Some w' ->
  done w' = done w /\ groups w' = groups w /\ hashed w' = hashed w
  /\ avg_per_file w' = avg_per_file w /\ hash_start w' = hash_start w.
Proof.
  unfold wait. destruct (deliver (inbox w) (now w) (shared w)) as [[[t g] r]|];
    [|discriminate].
  intros E. injection E as <-. cbn. auto.
Qed.

Lemma wait_never_above (s : Z) (w w' : worker) :
  wait w = Some w' -> never_above s w -> never_above s w'.
Proof.
  unfold wait, never_above, min_size_ref.
  destruct (deliver (inbox w) (now w) (shared w)) as [[[t g] r]|] eqn:Ed;
    [|discriminate].
  intros E [Hmin Hall]. injection E as <-. cbn.
  eapply deliver_never_above; eassumption.
Qed.

Lemma refresh_average_frame (w : worker) :
  done (refresh_average w) = done w
  /\ groups (refresh_average w) = groups w
  /\ hashed (refresh_average w) = hashed w
  /\ shared (refresh_average w) = shared w
  /\ inbox (refresh_average w) = inbox w
  /\ now (refresh_average w) = now w
  /\ hash_start (refresh_average w) = hash_start w.
Proof.
  unfold refresh_average. destruct (done w >? 5)%Z; cbn; repeat split.
Qed.

(** The local variables and the minimum size after the publication of
    the progress. *)
Lemma publish_progress_frame (w : worker) :
  let w' := publish_progress started total_to_hash w in
  done w' = done w /\ groups w' = groups w /\ hashed w' = hashed w
  /\ min_size_ref (shared w') = min_size_ref (shared w)
  /\ inbox w' = inbox w /\ now w' = now w
  /\ avg_per_file w' = avg_per_file w /\ hash_start w' = hash_start w.
Proof. cbn. repeat split. Qed.

Lemma announce_tuning_frame (w : worker) :
  let w' := announce_tuning w in
  done w' = done w /\ groups w' = groups w /\ hashed w' = hashed w
  /\ min_size_ref (shared w') = min_size_ref (shared w)
  /\ inbox w' = inbox w /\ now w' = now w
  /\ avg_per_file w' = avg_per_file w /\ hash_start w' = hash_start w.
Proof. cbn. repeat split. Qed.

Lemma resume_hashing_frame (w : worker) :
  let w' := resume_hashing w in
  done w' = done w /\ groups w' = groups w /\ hashed w' = hashed w
  /\ min_size_ref (shared w') = min_size_ref (shared w)
  /\ inbox w' = inbox w /\ now w' = now w
  /\ avg_per_file w' = avg_per_file w.
Proof. cbn. repeat split. Qed.

Lemma checkpoint_cases (w : worker) :
  (exists w2, checkpoint w = Finished (true, resume_hashing w2)
              /\ wait (before_wait w) = Some w2)
  \/ (checkpoint w = Blocked (before_wait w)
      /\ wait (before_wait w) = None)
  \/ checkpoint w
     = Finished (false, publish_progress started total_to_hash (refresh_average w)).
Proof.
  unfold DuplicateFileSizeFinder.checkpoint, before_wait. cbv zeta.
  destruct (over_budget _ _); [|right; right; reflexivity].
  destruct (wait _) as [w2|] eqn:Ew.
  - left. exists w2. split; reflexivity.
  - right. left. split; reflexivity.
Qed.

Lemma before_wait_frame (w : worker) :
  done (before_wait w) = done w /\ groups (before_wait w) = groups w
  /\ hashed (before_wait w) = hashed w
  /\ min_size_ref (shared (before_wait w)) = min_size_ref (shared w)
  /\ inbox (before_wait w) = inbox w /\ now (before_wait w) = now w.
Proof.
  unfold before_wait.
  destruct (refresh_average_frame w) as (H1 & H2 & H3 & H4 & H5 & H6 & _).
  cbn. rewrite H1, H2, H3, H4, H5, H6. repeat split.
Qed.

Lemma checkpoint_frame (w w' : worker) (waited : bool) :
  checkpoint w = Finished (waited, w') ->
  done w' = done w /\ groups w' = groups w /\ hashed w' = hashed w.
Proof.
  destruct (before_wait_frame w) as (B1 & B2 & B3 & _).
  destruct (refresh_average_frame w) as (H1 & H2 & H3 & _).
  destruct (checkpoint_cases w) as [(w2 & -> & Ew) | [[-> _] | ->]];
    intros E; [| discriminate |]; injection E as <- <-.
  - destruct (wait_frame _ _ Ew) as (Hd & Hg & Hh & _).
    cbn. rewrite Hd, Hg, Hh. auto.
  - cbn. auto.
Qed.

Lemma checkpoint_never_above (s : Z) (w w' : worker) (waited : bool) :
  checkpoint w = Finished (waited, w') ->
  never_above s w -> never_above s w'.
Proof.
  destruct (before_wait_frame w) as (_ & _ & _ & B4 & B5 & _).
  destruct (refresh_average_frame w) as (_ & _ & _ & H4 & H5 & _).
  destruct (checkpoint_cases w) as [(w2 & -> & Ew) | [[-> _] | ->]];
    intros E Hw; [| discriminate |]; injection E as <- <-.
  - assert (H2 : never_above s w2).
    { eapply wait_never_above; [exact Ew|].
      unfold never_above. rewrite B4, B5. exact Hw. }
    exact H2.
  - unfold never_above, min_size_ref. cbn. rewrite H4, H5. exact Hw.
Qed.

(** Without a wait the minimum size is what it was. *)
Lemma checkpoint_no_wait (w w' : worker) :
  checkpoint w = Finished (false, w') ->
  min_size_ref (shared w') = min_size_ref (shared w) /\ inbox w' = inbox w
  /\ now w' = now w.
Proof.
  destruct (refresh_average_frame w) as (_ & _ & _ & H4 & H5 & H6 & _).
  destruct (checkpoint_cases w) as [(w2 & -> & Ew) | [[-> _] | ->]];
    intros E; try discriminate; injection E as <-.
  unfold min_size_ref. cbn. rewrite H4, H5, H6. auto.
Qed.

(** ** Hashing one file *)

Lemma hash_one_frame (size : Z) (p : pystr) (w : worker) :
  let w' := hash_one env size p w in
  done w' = (done w + 1)%Z /\ hashed w' = hashed w ++ [p]
  /\ shared w' = shared w /\ inbox w' = inbox w
  /\ now w' = now w + hash_cost env p
  /\ avg_per_file w' = avg_per_file w /\ hash_start w' = hash_start w.
Proof.
  unfold hash_one. cbv zeta. destruct (sha256_file env p); cbn; repeat split.
Qed.

Lemma has_key_iff (key : Z * pystr) (p : pystr) :
  has_key env key p = true
  <-> getsize (stat_of env p) = Some (fst key)
      /\ sha256_file env p = Some (snd key).
Proof.
  unfold has_key.
  destruct (getsize (stat_of env p)) as [s|], (sha256_file env p) as [d|];
    try (split; [discriminate | intros [? ?]; discriminate]).
  rewrite key_eqb_eq. destruct key as [s' d']. cbn [fst snd]. split.
  - intros E. injection E as -> ->. auto.
  - intros [E1 E2]. congruence.
Qed.

Lemma hash_one_reflect (size : Z) (p : pystr) (w : worker) :
  getsize (stat_of env p) = Some size ->
  groups_reflect_hashed env w ->
  groups_reflect_hashed env (hash_one env size p w).
Proof.
  intros Hsize [Hnd Hget]. unfold groups_reflect_hashed, hash_one. cbv zeta.
  destruct (sha256_file env p) as [digest|] eqn:Eh; cbn.
  - split; [apply dict_append_NoDup; [apply key_eqb_eq | exact Hnd]|].
    intros key. rewrite (dict_get_append key_eqb key_eqb_eq).
    assert (Hk : has_key env key p = key_eqb key (size, digest))
      by (unfold has_key; rewrite Hsize, Eh; reflexivity).
    rewrite filter_app, Hget. cbn [filter]. rewrite Hk.
    destruct (key_eqb key (size, digest));
      [reflexivity | symmetry; apply app_nil_r].
  - split; [exact Hnd|]. intros key.
    assert (Hk : has_key env key p = false)
      by (unfold has_key; rewrite Hsize, Eh; reflexivity).
    rewrite filter_app, Hget. cbn [filter]. rewrite Hk, app_nil_r. reflexivity.
Qed.

(** ** The loop over one bucket *)

Lemma hash_files_step (size : Z) (paths : list pystr) (p : pystr)
  (rest : list pystr) (w : worker) :
  hash_files size paths (p :: rest) w
  = match checkpoint w with
    | Blocked w => Blocked w
    | Raised w => Raised w
    | Finished (waited, w) =>
        if waited && (size <? min_size_ref (shared w))%Z then
          match index p paths with
          | None => Raised w
          | Some i => Finished (with_done (done w + (1 + (len paths - (i + 1)))) w)
          end
        else hash_files size paths rest (hash_one env size p w)
    end.
Proof. reflexivity. Qed.

(** A finished bucket keeps the groups in step with the files hashed,
    which only grow. *)
Lemma hash_files_reflect (size : Z) (paths rest : list pystr) (w w' : worker) :
  (forall p, In p rest -> getsize (stat_of env p) = Some size) ->
  groups_reflect_hashed env w ->
  hash_files size paths rest w = Finished w' ->
  groups_reflect_hashed env w'.
Proof.
  revert w. induction rest as [|p rest IH]; intros w Hsz Hw Hrun.
  - cbn in Hrun. injection Hrun as <-. exact Hw.
  - rewrite hash_files_step in Hrun.
    destruct (checkpoint w) as [[waited w1] | w1 | w1] eqn:Ec; try discriminate.
    destruct (checkpoint_frame _ _ _ Ec) as (Hd & Hg & Hh).
    assert (Hw1 : groups_reflect_hashed env w1).
    { unfold groups_reflect_hashed. rewrite Hg, Hh. exact Hw. }
    destruct (waited && (size <? min_size_ref (shared w1))%Z).
    + destruct (index p paths); [|discriminate].
      injection Hrun as <-. exact Hw1.
    + eapply IH; [| | exact Hrun].
      * intros q Hq. apply Hsz. right. exact Hq.
      * apply hash_one_reflect; [apply Hsz; left; reflexivity | exact Hw1].
Qed.

Lemma hash_files_never_above (s size : Z) (paths rest : list pystr)
  (w w' : worker) :
  never_above s w ->
  hash_files size paths rest w = Finished w' ->
  never_above s w' /\ exists l, hashed w' = hashed w ++ l.
Proof.
  revert w. induction rest as [|p rest IH]; intros w Hw Hrun.
  - cbn in Hrun. injection Hrun as <-. split; [exact Hw|].
    exists []. rewrite app_nil_r. reflexivity.
  - rewrite hash_files_step in Hrun.
    destruct (checkpoint w) as [[waited w1] | w1 | w1] eqn:Ec; try discriminate.
    destruct (checkpoint_frame _ _ _ Ec) as (Hd & Hg & Hh).
    pose proof (checkpoint_never_above s _ _ _ Ec Hw) as Hw1.
    destruct (waited && (size <? min_size_ref (shared w1))%Z).
    + destruct (index p paths); [|discriminate].
      injection Hrun as <-. split; [exact Hw1|].
      exists []. cbn. rewrite Hh, app_nil_r. reflexivity.
    + destruct (hash_one_frame size p w1) as (_ & H1h & H1s & H1i & _).
      destruct (IH (hash_one env size p w1)) as [Hn [l Hl]]; [| exact Hrun |].
      * unfold never_above. rewrite H1s, H1i. exact Hw1.
      * split; [exact Hn|]. exists (p :: l).
        rewrite Hl, H1h, Hh, <- app_assoc. reflexivity.
Qed.

(** A bucket whose size the minimum never exceeds is hashed whole. *)
Lemma hash_files_all (size : Z) (paths rest : list pystr) (w w' : worker) :
  never_above size w ->
  hash_files size paths rest w = Finished w' ->
  hashed w' = hashed w ++ rest.
Proof.
  revert w. induction rest as [|p rest IH]; intros w Hw Hrun.
  - cbn in Hrun. injection Hrun as <-. rewrite app_nil_r. reflexivity.
  - rewrite hash_files_step in Hrun.
    destruct (checkpoint w) as [[waited w1] | w1 | w1] eqn:Ec; try discriminate.
    destruct (checkpoint_frame _ _ _ Ec) as (Hd & Hg & Hh).
    pose proof (checkpoint_never_above size _ _ _ Ec Hw) as Hw1.
    replace (size <? min_size_ref (shared w1))%Z with false in Hrun
      by (symmetry; apply Z.ltb_ge; apply Hw1).
    rewrite andb_false_r in Hrun.
    destruct (hash_one_frame size p w1) as (_ & H1h & H1s & H1i & _).
    rewrite (IH (hash_one env size p w1)); [| | exact Hrun].
    + rewrite H1h, Hh, <- app_assoc. reflexivity.
    + unfold never_above. rewrite H1s, H1i. exact Hw1.
Qed.

(** ** The loop over the buckets *)

Lemma hash_jobs_step (size : Z) (paths : list pystr)
  (jobs : list (Z * list pystr)) (w : worker) :
  (size <? min_size_ref (shared w))%Z = false ->
  hash_jobs ((size, paths) :: jobs) w
  = match hash_files size paths paths w with
    | Finished w => hash_jobs jobs w
    | Blocked w => Blocked w
    | Raised w => Raised w
    end.
Proof. intros H. cbn [DuplicateFileSizeFinder.hash_jobs]. rewrite H. reflexivity. Qed.

(** The worker after a bucket that is skipped at its start. *)
Lemma hash_jobs_skip (size : Z) (paths : list pystr)
  (jobs : list (Z * list pystr)) (w : worker) :
  (size <? min_size_ref (shared w))%Z = true ->
  exists w',
    hash_jobs ((size, paths) :: jobs) w = hash_jobs jobs w'
    /\ done w' = (done w + len paths)%Z
    /\ Status.hash_done (STATUS (shared w')) = (done w + len paths)%Z
    /\ hashed w' = hashed w /\ groups w' = groups w
    /\ min_size_ref (shared w') = min_size_ref (shared w)
    /\ inbox w' = inbox w /\ now w' = now w
    /\ avg_per_file w' = avg_per_file w /\ hash_start w' = hash_start w.
Proof.
  intros H. cbn [DuplicateFileSizeFinder.hash_jobs]. rewrite H. cbv zeta.
  eexists. split; [reflexivity|]. cbn. repeat split.
Qed.

Lemma hash_jobs_reflect (jobs : list (Z * list pystr)) (w w' : worker) :
  (forall size paths p, In (size, paths) jobs -> In p paths ->
                        getsize (stat_of env p) = Some size) ->
  groups_reflect_hashed env w ->
  hash_jobs jobs w = Finished w' ->
  groups_reflect_hashed env w'.
Proof.
  revert w. induction jobs as [|[size paths] jobs IH]; intros w Hsz Hw Hrun.
  - cbn in Hrun. injection Hrun as <-. exact Hw.
  - assert (Hsz' : forall size paths p, In (size, paths) jobs -> In p paths ->
                     getsize (stat_of env p) = Some size)
      by (intros s ps q Hin; apply Hsz; right; exact Hin).
    destruct (size <? min_size_ref (shared w))%Z eqn:El.
    + destruct (hash_jobs_skip size paths jobs w El)
        as (w1 & E & _ & _ & Hh & Hg & _).
      rewrite E in Hrun. apply (IH w1); [exact Hsz' | | exact Hrun].
      unfold groups_reflect_hashed. rewrite Hg, Hh. exact Hw.
    + rewrite (hash_jobs_step _ _ _ _ El) in Hrun.
      destruct (hash_files size paths paths w) as [w1 | w1 | w1] eqn:Ef;
        try discriminate.
      apply (IH w1); [exact Hsz' | | exact Hrun].
      eapply hash_files_reflect; [| exact Hw | exact Ef].
      intros q Hq. apply (Hsz size paths); [left; reflexivity | exact Hq].
Qed.

Lemma hash_jobs_never_above (s : Z) (jobs : list (Z * list pystr))
  (w w' : worker) :
  never_above s w ->
  hash_jobs jobs w = Finished w' ->
  never_above s w'
  /\ (exists l, hashed w' = hashed w ++ l)
  /\ (forall paths p, In (s, paths) jobs -> In p paths -> In p (hashed w')).
Proof.
  revert w. induction jobs as [|[size paths] jobs IH]; intros w Hw Hrun.
  - cbn in Hrun. injection Hrun as <-. split; [exact Hw|]. split.
    + exists []. rewrite app_nil_r. reflexivity.
    + intros ? ? [].
  - destruct (size <? min_size_ref (shared w))%Z eqn:El.
    + destruct (hash_jobs_skip size paths jobs w El)
        as (w1 & E & _ & _ & Hh & _ & Hm & Hi & _).
      rewrite E in Hrun.
      destruct (IH w1) as (Hn & [l Hl] & Hall); [| exact Hrun |].
      { unfold never_above. rewrite Hm, Hi. exact Hw. }
      split; [exact Hn|]. split; [exists l; rewrite Hl, Hh; reflexivity|].
      intros ps q [Eq | Hin] Hq; [|eapply Hall; eassumption].
      injection Eq as -> ->. exfalso.
      apply Z.ltb_lt in El. destruct Hw as [Hmin _]. lia.
    + rewrite (hash_jobs_step _ _ _ _ El) in Hrun.
      destruct (hash_files size paths paths w) as [w1 | w1 | w1] eqn:Ef;
        try discriminate.
      destruct (hash_files_never_above s size paths paths w w1 Hw Ef)
        as [Hw1 [l1 Hl1]].
      destruct (IH w1 Hw1 Hrun) as (Hn & [l Hl] & Hall).
      split; [exact Hn|].
      split; [exists (l1 ++ l); rewrite Hl, Hl1, app_assoc; reflexivity|].
      intros ps q [Eq | Hin] Hq; [|eapply Hall; eassumption].
      injection Eq as -> ->.
      rewrite Hl, (hash_files_all _ _ _ _ _ Hw Ef).
      apply in_or_app. left. apply in_or_app. right. exact Hq.
Qed.

End WithEnv.
End HashFacts.

(* ================================================================== *)
(** * Proofs: the walk and the final ranking of the size-based finder *)
(* ================================================================== *)

Module SizeFacts.
Import ListFacts DuplicateFileSizeFinder HashFacts.

Lemma two_members {A} (a b : A) (l : list A) :
  a <> b -> In a l -> In b l -> (2 <= len l)%Z.
Proof.
  intros Hne Ha Hb. destruct l as [|x [|y r]].
  - contradiction.
  - destruct Ha as [<- | []], Hb as [<- | []]. congruence.
  - unfold len. cbn [length]. lia.
Qed.

Section WithEnv.
Variable env : environment.

(** ** One entry of the walk *)

Lemma walk_entry_counters include_cloud min_size st full :
  let st' := walk_entry env include_cloud min_size st full in
  walk_skipped st'
  = (if passed_over env include_cloud min_size full
     then walk_skipped st + 1 else walk_skipped st)%Z
  /\ walk_scanned st'
     = (if Shared.not_eligible env include_cloud full
           || Shared.size_raises env full
        then walk_scanned st else walk_scanned st + 1)%Z.
Proof.
  unfold passed_over, Shared.not_eligible, Shared.size_raises,
    Shared.too_small, walk_entry, is_cloud_placeholder.
  cbv zeta.
  destruct (negb (isfile (stat_of env full)) || islink (stat_of env full));
    cbn [orb]; [auto|].
  destruct (negb include_cloud && Shared.is_cloud_placeholder env full);
    cbn [orb]; [auto|].
  destruct (getsize (stat_of env full)) as [size|]; cbn [orb]; [|auto].
  destruct (size <? min_size)%Z; cbn; auto.
Qed.

Lemma walk_entry_buckets include_cloud min_size st full :
  size_buckets (walk_entry env include_cloud min_size st full)
  = if passed_over env include_cloud min_size full then size_buckets st
    else match getsize (stat_of env full) with
         | Some size => dict_append Z.eqb size full (size_buckets st)
         | None => size_buckets st
         end.
Proof.
  unfold passed_over, Shared.not_eligible, Shared.size_raises,
    Shared.too_small, walk_entry, is_cloud_placeholder.
  cbv zeta.
  destruct (negb (isfile (stat_of env full)) || islink (stat_of env full));
    cbn [orb]; [reflexivity|].
  destruct (negb include_cloud && Shared.is_cloud_placeholder env full);
    cbn [orb]; [reflexivity|].
  destruct (getsize (stat_of env full)) as [size|]; cbn [orb]; [|reflexivity].
  destruct (size <? min_size)%Z; reflexivity.
Qed.

Lemma passed_over_too_small include_cloud min_size full size :
  passed_over env include_cloud min_size full = false ->
  getsize (stat_of env full) = Some size -> (min_size <= size)%Z.
Proof.
  unfold passed_over, Shared.too_small. intros H Hs. rewrite Hs in H.
  reflect_hyps. lia.
Qed.

(** ** The buckets *)

Lemma walk_files_bucketed include_cloud min_size visited :
  all_entries (bucketed env min_size)
    (size_buckets (walk_files env include_cloud min_size visited)).
Proof.
  unfold walk_files.
  apply fold_left_invariant with
    (P := fun st => all_entries (bucketed env min_size) (size_buckets st)).
  - apply all_entries_nil.
  - intros st x _ Hst. rewrite walk_entry_buckets.
    destruct (passed_over env include_cloud min_size x) eqn:Ep; [exact Hst|].
    destruct (getsize (stat_of env x)) as [size|] eqn:Es; [|exact Hst].
    apply dict_append_all_entries; [apply Z.eqb_eq | exact Hst |].
    split; [exact Es | eapply passed_over_too_small; eassumption].
Qed.

Lemma walk_fold_member include_cloud min_size visited st f s :
  passed_over env include_cloud min_size f = false ->
  getsize (stat_of env f) = Some s ->
  In f visited \/ In f (dict_get Z.eqb s (size_buckets st)) ->
  In f (dict_get Z.eqb s
          (size_buckets
             (fold_left (walk_entry env include_cloud min_size) visited st))).
Proof.
  intros Hp Hs. revert st.
  induction visited as [|x r IH]; intros st Hin; cbn [fold_left].
  - destruct Hin as [[] | Hin]. exact Hin.
  - apply IH. rewrite walk_entry_buckets.
    destruct Hin as [[-> | Hin] | Hin].
    + right. rewrite Hp, Hs. rewrite (dict_get_append Z.eqb Z.eqb_eq).
      rewrite Z.eqb_refl. apply in_or_app. right. left. reflexivity.
    + left. exact Hin.
    + right. destruct (passed_over env include_cloud min_size x); [exact Hin|].
      destruct (getsize (stat_of env x)) as [size|]; [|exact Hin].
      rewrite (dict_get_append Z.eqb Z.eqb_eq).
      destruct (s =? size)%Z; [apply in_or_app; left|]; exact Hin.
Qed.

Lemma walk_files_member include_cloud min_size visited f s :
  In f visited ->
  passed_over env include_cloud min_size f = false ->
  getsize (stat_of env f) = Some s ->
  In f (dict_get Z.eqb s
          (size_buckets (walk_files env include_cloud min_size visited))).
Proof.
  intros Hin Hp Hs. unfold walk_files.
  apply walk_fold_member; auto.
Qed.

Lemma jobs_of_sizes include_cloud min_size visited size paths p :
  In (size, paths) (jobs_of (walk_files env include_cloud min_size visited)) ->
  In p paths -> getsize (stat_of env p) = Some size.
Proof.
  unfold jobs_of. intros Hin Hp. apply filter_In in Hin. destruct Hin as [Hin _].
  pose proof (walk_files_bucketed include_cloud min_size visited size paths Hin)
    as Hall.
  rewrite Forall_forall in Hall. apply (Hall p Hp).
Qed.

(** ** The groups that are reported *)

Lemma dup_groups_of_In (min_size : Z) (groups : list ((Z * pystr) * list pystr))
  (g : Group) :
  In g (dup_groups_of min_size groups)
  <-> exists s d fl,
        In ((s, d), fl) groups /\ (2 <= len fl)%Z /\ (min_size <= s)%Z
        /\ g = {| size := s; sha256 := d; files := sorted str_leb fl |}.
Proof.
  unfold dup_groups_of. rewrite in_flat_map. split.
  - intros [[[s d] fl] [Hin Hg]]. cbn [fst snd] in Hg.
    destruct ((len fl >=? 2)%Z && (s >=? min_size)%Z) eqn:E; [|contradiction].
    destruct Hg as [<- | []]. exists s, d, fl.
    apply andb_true_iff in E. destruct E as [E1 E2].
    repeat split; [exact Hin | lia | lia].
  - intros (s & d & fl & Hin & Hlen & Hmin & ->).
    exists ((s, d), fl). split; [exact Hin|]. cbn [fst snd].
    replace ((len fl >=? 2)%Z && (s >=? min_size)%Z) with true.
    + left. reflexivity.
    + symmetry. apply andb_true_iff. split; lia.
Qed.

Lemma finish_In (started : Q) (w : worker) (g : Group) :
  In g (fst (finish started w))
  <-> exists s d fl,
        In ((s, d), fl) (groups w) /\ (2 <= len fl)%Z
        /\ (min_size_ref (shared w) <= s)%Z
        /\ g = {| size := s; sha256 := d; files := sorted str_leb fl |}.
Proof.
  unfold finish. cbn [fst]. rewrite sorted_In. apply dup_groups_of_In.
Qed.

Lemma finish_min_size (started : Q) (w : worker) :
  min_size_ref (shared (snd (finish started w))) = min_size_ref (shared w).
Proof. reflexivity. Qed.

(** ** A finished run *)

(** A run that returns went through a hashing loop that finished; the
    groups it holds are the files it hashed, by size and digest. *)
Lemma finished_run root root_path excludes include_cloud time_budget_sec t0 g0
  requests gs wf :
  find_duplicates_streaming env root root_path excludes include_cloud
    time_budget_sec t0 g0 requests = Finished (gs, wf) ->
  exists w0 w,
    let visited := Shared.walk env excludes root_path root in
    let st := walk_files env include_cloud (min_size_ref g0) visited in
    hash_jobs env time_budget_sec t0 (total_of (jobs_of st)) (jobs_of st) w0
    = Finished w
    /\ min_size_ref (shared w0) = min_size_ref g0
    /\ inbox w0 = requests /\ hashed w0 = []
    /\ (gs, wf) = finish t0 w
    /\ groups_reflect_hashed env w.
Proof.
  unfold find_duplicates_streaming. cbv zeta.
  match goal with
  | |- context [hash_jobs _ _ _ _ ?j ?w0] =>
      destruct (hash_jobs env time_budget_sec t0 (total_of j) j w0)
        as [w | w | w] eqn:Eh; try discriminate;
      intros E; injection E as <- <-; exists w0, w
  end.
  cbv zeta. split; [exact Eh|].
  do 4 (split; [reflexivity|]).
  eapply hash_jobs_reflect; [| | exact Eh].
  - intros size paths p Hin Hp. eapply jobs_of_sizes; eassumption.
  - split; [constructor | intros key; reflexivity].
Qed.

End WithEnv.
End SizeFacts.

(* ================================================================== *)
(** * Proofs: claims about the size-based finder *)
(* ================================================================== *)

Module SizeClaims.
Import ListFacts DuplicateFileSizeFinder HashFacts SizeFacts.

Lemma take_drop (n : N) (l : bytes) : take n l ++ drop n l = l.
Proof.
  revert n. induction l as [|y l IH]; intros n; cbn; [reflexivity|].
  destruct (n =? 0)%N; [reflexivity|]. cbn. rewrite IH. reflexivity.
Qed.

Lemma drop_length (n : N) (l : bytes) : (length (drop n l) <= length l)%nat.
Proof.
  revert n. induction l as [|y l IH]; intros n; cbn; [lia|].
  destruct (n =? 0)%N; cbn; [lia|]. specialize (IH (N.pred n)). lia.
Qed.

Lemma read_loop_all (fuel : nat) (data h : bytes) :
  (length data < fuel)%nat -> read_loop fuel data h = h ++ data.
Proof.
  revert data h. induction fuel as [|fuel IH]; intros data h Hlt; [lia|].
  cbn [read_loop]. destruct data as [|x r].
  - cbn. rewrite app_nil_r. reflexivity.
  - pose proof (take_drop CHUNK (x :: r)) as Hsplit.
    assert (Hlen : (length (drop CHUNK (x :: r)) <= length r)%nat).
    { change (drop CHUNK (x :: r)) with (drop (N.pred CHUNK) r).
      apply drop_length. }
    destruct (take CHUNK (x :: r)) as [|b bs] eqn:Et.
    + discriminate Et.
    + rewrite IH by (cbn [length] in Hlt; lia).
      rewrite <- app_assoc, Hsplit. reflexivity.
Qed.

Section WithEnv.
Variable env : environment.

(** The digest is that of the whole contents. *)
Lemma sha256_file_content (p : pystr) (data : bytes) :
  content (stat_of env p) = Some data ->
  sha256_file env p = Some (sha256_hexdigest env data).
Proof.
  intros H. unfold sha256_file. rewrite H.
  rewrite read_loop_all by lia. reflexivity.
Qed.

(** C10. In a run that returns, the file list of every reported group
    is in ascending lexicographic order of the paths, and it is the
    same list whatever the order in which the members were found: any
    rearrangement of the members sorts to it. *)
Theorem C10_group_files_sorted root root_path excludes include_cloud
  time_budget_sec t0 g0 requests gs wf g :
  find_duplicates_streaming env root root_path excludes include_cloud
    time_budget_sec t0 g0 requests = Finished (gs, wf) ->
  In g gs ->
  StronglySorted (fun a b => str_leb a b = true) (files g)
  /\ (forall l, Permutation l (files g) -> sorted str_leb l = files g).
Proof.
  intros Hrun Hg.
  destruct (finished_run _ _ _ _ _ _ _ _ _ _ _ Hrun) as (w0 & w & H).
  cbv zeta in H. destruct H as (_ & _ & _ & _ & Hfin & _).
  assert (Hgs : gs = fst (finish t0 w)) by (rewrite <- Hfin; reflexivity).
  subst gs. apply finish_In in Hg.
  destruct Hg as (s & d & fl & _ & _ & _ & ->). cbn [files].
  split.
  - apply sorted_StronglySorted; [apply str_leb_total | apply str_leb_trans].
  - intros l Hl.
    apply (sorted_perm_eq str_leb str_leb_total str_leb_trans str_leb_antisym).
    eapply perm_trans; [exact Hl | apply sorted_perm].
Qed.

(** C5. Take two different files that the walk admitted, that are read
    without error, and whose sizes the minimum size never exceeds during
    the run (so that their buckets are neither skipped nor dropped).  In
    a run that returns they are members of one reported group exactly
    when they have the same size and the same SHA-256 digest of their
    whole contents; in particular two such files of the same size with
    identical contents always share a group, whatever their names. *)
Theorem C5_same_group_iff root root_path excludes include_cloud
  time_budget_sec t0 g0 requests gs wf fa fb sa sb da db :
  find_duplicates_streaming env root root_path excludes include_cloud
    time_budget_sec t0 g0 requests = Finished (gs, wf) ->
  fa <> fb ->
  In fa (Shared.walk env excludes root_path root) ->
  In fb (Shared.walk env excludes root_path root) ->
  passed_over env include_cloud (min_size_ref g0) fa = false ->
  passed_over env include_cloud (min_size_ref g0) fb = false ->
  getsize (stat_of env fa) = Some sa ->
  getsize (stat_of env fb) = Some sb ->
  content (stat_of env fa) = Some da ->
  content (stat_of env fb) = Some db ->
  Forall (fun n => n <= sa)%Z (thresholds requests) ->
  Forall (fun n => n <= sb)%Z (thresholds requests) ->
  ((exists g, In g gs /\ In fa (files g) /\ In fb (files g))
   <-> sa = sb /\ sha256_hexdigest env da = sha256_hexdigest env db)
  /\ (sa = sb -> da = db ->
      exists g, In g gs /\ In fa (files g) /\ In fb (files g)).
Proof.
  intros Hrun Hne Hva Hvb Hpa Hpb Hsa Hsb Hca Hcb Hta Htb.
  pose proof (sha256_file_content fa da Hca) as Hda.
  pose proof (sha256_file_content fb db Hcb) as Hdb.
  destruct (finished_run _ _ _ _ _ _ _ _ _ _ _ Hrun) as (w0 & w & H).
  cbv zeta in H. destruct H as (Hjobs & Hmin0 & Hin0 & Hh0 & Hfin & [Hnd Hget]).
  assert (Hgs : gs = fst (finish t0 w)) by (rewrite <- Hfin; reflexivity).
  subst gs.
  assert (Hiff : (exists g, In g (fst (finish t0 w))
                            /\ In fa (files g) /\ In fb (files g))
                 <-> sa = sb
                     /\ sha256_hexdigest env da = sha256_hexdigest env db).
  { split.
    - intros (g & Hg & Hfa & Hfb). apply finish_In in Hg.
      destruct Hg as (s & d & fl & Hin & _ & _ & ->). cbn [files] in Hfa, Hfb.
      apply sorted_In in Hfa, Hfb.
      pose proof (dict_get_In key_eqb key_eqb_eq (s, d) fl (groups w) Hnd Hin)
        as Hfl.
      rewrite Hget in Hfl. subst fl.
      apply filter_In in Hfa, Hfb.
      destruct Hfa as [_ Hka], Hfb as [_ Hkb].
      apply has_key_iff in Hka, Hkb. cbn [fst snd] in Hka, Hkb.
      destruct Hka as [Ea1 Ea2], Hkb as [Eb1 Eb2]. split; congruence.
    - intros [<- Hd].
      set (st := walk_files env include_cloud (min_size_ref g0)
                   (Shared.walk env excludes root_path root)) in *.
      set (paths := dict_get Z.eqb sa (size_buckets st)).
      assert (Hfa : In fa paths) by (apply walk_files_member; assumption).
      assert (Hfb : In fb paths) by (apply walk_files_member; assumption).
      assert (Hjob : In (sa, paths) (jobs_of st)).
      { unfold jobs_of. apply filter_In. split.
        - apply dict_get_nonempty_In; [apply Z.eqb_eq|].
          fold paths. intros E. rewrite E in Hfa. contradiction.
        - cbn [snd]. pose proof (two_members fa fb paths Hne Hfa Hfb). lia. }
      assert (Hw0 : never_above sa w0).
      { split.
        - rewrite Hmin0. eapply passed_over_too_small; eassumption.
        - rewrite Hin0. exact Hta. }
      destruct (hash_jobs_never_above env _ _ _ sa _ _ _ Hw0 Hjobs)
        as ([Hminw _] & _ & Hall).
      set (key := (sa, sha256_hexdigest env da)).
      set (fl := dict_get key_eqb key (groups w)).
      assert (Hka : In fa fl).
      { unfold fl. rewrite Hget. apply filter_In. split.
        - apply (Hall paths); assumption.
        - apply has_key_iff. split; assumption. }
      assert (Hkb : In fb fl).
      { unfold fl. rewrite Hget. apply filter_In. split.
        - apply (Hall paths); assumption.
        - apply has_key_iff. cbn [fst snd key]. split; congruence. }
      exists {| size := sa; sha256 := sha256_hexdigest env da;
                files := sorted str_leb fl |}.
      split; [|split; cbn [files]; apply sorted_In; assumption].
      apply finish_In. exists sa, (sha256_hexdigest env da), fl.
      split; [|split; [|split]].
      + apply dict_get_nonempty_In; [apply key_eqb_eq|].
        fold key fl. intros E. rewrite E in Hka. contradiction.
      + apply (two_members fa fb); assumption.
      + exact Hminw.
      + reflexivity. }
  split; [exact Hiff|].
  intros Es Ed. apply Hiff. split; congruence.
Qed.

Lemma index_middle (pre : list pystr) (p : pystr) (rest : list pystr) :
  NoDup (pre ++ p :: rest) -> index p (pre ++ p :: rest) = Some (len pre).
Proof.
  induction pre as [|x pre IH]; cbn [app index]; intros Hnd.
  - rewrite str_eqb_refl. reflexivity.
  - inversion Hnd as [|? ? Hnot Hnd']; subst.
    destruct (str_eqb x p) eqn:E.
    + apply str_eqb_eq in E. subst x. exfalso. apply Hnot.
      apply in_or_app. right. left. reflexivity.
    + rewrite (IH Hnd'). cbn [option_map]. rewrite len_cons. f_equal. lia.
Qed.

Section Budget.
Variable time_budget_sec : Z.
Variable started : Q.
Variable total_to_hash : Z.

#[local] Abbreviation checkpoint := (checkpoint time_budget_sec started total_to_hash).
#[local] Abbreviation hash_files := (hash_files env time_budget_sec started total_to_hash).
#[local] Abbreviation hash_jobs := (hash_jobs env time_budget_sec started total_to_hash).

(** When the bucket in progress falls below the minimum at a wait, what
    is left of it is counted and nothing of it is hashed. *)
Lemma hash_files_raised (size : Z) (pre : list pystr) (p : pystr)
  (rest : list pystr) (w w1 : worker) :
  NoDup (pre ++ p :: rest) ->
  checkpoint w = Finished (true, w1) ->
  (size < min_size_ref (shared w1))%Z ->
  hash_files size (pre ++ p :: rest) (p :: rest) w
  = Finished (with_done (done w + len (p :: rest)) w1).
Proof.
  intros Hnd Hc Hlt. rewrite hash_files_step, Hc.
  replace (size <? min_size_ref (shared w1))%Z with true
    by (symmetry; apply Z.ltb_lt; exact Hlt).
  cbn [andb]. rewrite (index_middle _ _ _ Hnd).
  destruct (checkpoint_frame _ _ _ _ _ _ Hc) as (Hd & _).
  rewrite Hd. do 2 f_equal. rewrite len_app. lia.
Qed.

(** A bucket that finishes advances the counter by the number of its
    files that were still to come, hashed or not. *)
Lemma hash_files_done (size : Z) (pre rest : list pystr) (w w' : worker) :
  NoDup (pre ++ rest) ->
  hash_files size (pre ++ rest) rest w = Finished w' ->
  done w' = (done w + len rest)%Z.
Proof.
  revert pre w. induction rest as [|p rest IH]; intros pre w Hnd Hrun.
  - cbn in Hrun. injection Hrun as <-. unfold len. cbn. lia.
  - rewrite hash_files_step in Hrun.
    destruct (checkpoint w) as [[waited w1] | w1 | w1] eqn:Ec; try discriminate.
    destruct (checkpoint_frame _ _ _ _ _ _ Ec) as (Hd & _).
    destruct (waited && (size <? min_size_ref (shared w1))%Z).
    + rewrite (index_middle _ _ _ Hnd) in Hrun.
      apply Finished_inj in Hrun. subst w'.
      cbn [done with_done]. rewrite Hd, len_app. lia.
    + destruct (hash_one_frame env size p w1) as (H1d & _).
      replace (pre ++ p :: rest) with ((pre ++ [p]) ++ rest) in Hrun, Hnd
        by (rewrite <- app_assoc; reflexivity).
      rewrite (IH _ _ Hnd Hrun), H1d, Hd, len_cons. lia.
Qed.

Lemma hash_jobs_done (jobs : list (Z * list pystr)) (w w' : worker) :
  (forall size paths, In (size, paths) jobs -> NoDup paths) ->
  hash_jobs jobs w = Finished w' ->
  done w' = (done w + total_of jobs)%Z.
Proof.
  revert w. induction jobs as [|[size paths] jobs IH]; intros w Hnd Hrun.
  - cbn in Hrun. injection Hrun as <-. cbn. lia.
  - assert (Hnd' : forall size paths, In (size, paths) jobs -> NoDup paths)
      by (intros s ps Hin; apply (Hnd s ps); right; exact Hin).
    cbn [total_of fold_right snd]. fold (total_of jobs).
    destruct (size <? min_size_ref (shared w))%Z eqn:El.
    + destruct (hash_jobs_skip env time_budget_sec started total_to_hash
                  size paths jobs w El) as (w1 & E & Hd & _).
      rewrite E in Hrun. rewrite (IH w1 Hnd' Hrun), Hd. lia.
    + rewrite (hash_jobs_step _ _ _ _ _ _ _ _ El) in Hrun.
      destruct (hash_files size paths paths w) as [w1 | w1 | w1] eqn:Ef;
        try discriminate.
      rewrite (IH w1 Hnd' Hrun).
      rewrite (hash_files_done size [] paths w w1); [lia | | exact Ef].
      apply (Hnd size paths). left. reflexivity.
Qed.


End Budget.
End WithEnv.


Lemma C5_same_group_iff_witness :
  ((exists g, In g (Examples.result_groups Examples.flat3)
              /\ In Examples.f0 (files g) /\ In Examples.f1 (files g))
   <-> (20 * Examples.MiB = 20 * Examples.MiB)%Z
       /\ sha256_hexdigest (Examples.machine (Examples.flat_table 3) 10)
            [1%N; 2%N]
          = sha256_hexdigest (Examples.machine (Examples.flat_table 3) 10)
              [1%N; 2%N])
  /\ ((20 * Examples.MiB = 20 * Examples.MiB)%Z ->
      [1%N; 2%N] = [1%N; 2%N] ->
      exists g, In g (Examples.result_groups Examples.flat3)
                /\ In Examples.f0 (files g) /\ In Examples.f1 (files g)).
Proof.
  apply (C5_same_group_iff (Examples.machine (Examples.flat_table 3) 10)
           (Examples.flat_tree 3) (lit "/r") [] false 20 0
           (Examples.initial_globals (10 * Examples.MiB)) []
           (Examples.result_groups Examples.flat3)
           (Examples.result_worker Examples.flat3)
           Examples.f0 Examples.f1).
  - vm_compute. reflexivity.
  - discriminate.
  - vm_compute. left. reflexivity.
  - vm_compute. right. left. reflexivity.
  - vm_compute. reflexivity.
  - vm_compute. reflexivity.
  - vm_compute. reflexivity.
  - vm_compute. reflexivity.
  - vm_compute. reflexivity.
  - vm_compute. reflexivity.
  - constructor.
  - constructor.
Defined.

Lemma C10_group_files_sorted_witness :
  StronglySorted (fun a b => str_leb a b = true) (files Examples.flat3_group)
  /\ (forall l, Permutation l (files Examples.flat3_group) ->
                sorted str_leb l = files Examples.flat3_group).
Proof.
  apply (C10_group_files_sorted (Examples.machine (Examples.flat_table 3) 10)
           (Examples.flat_tree 3) (lit "/r") [] false 20 0
           (Examples.initial_globals (10 * Examples.MiB)) []
           (Examples.result_groups Examples.flat3)
           (Examples.result_worker Examples.flat3)
           Examples.flat3_group).
  - vm_compute. reflexivity.
  - vm_compute. left. reflexivity.
Defined.

End SizeClaims.

(* ================================================================== *)
(** * Proofs: the time budget *)
(* ================================================================== *)

Module BudgetFacts.
Import ListFacts DuplicateFileSizeFinder HashFacts SizeFacts.

Lemma Qltb_lt (a b : Q) : Qltb a b = true <-> a < b.
Proof.
  unfold Qltb. rewrite negb_true_iff. split.
  - intros H. apply Qnot_le_lt. intros Hle. apply Qle_bool_iff in Hle. congruence.
  - intros H. destruct (Qle_bool b a) eqn:E; [|reflexivity].
    apply Qle_bool_iff in E. exfalso. apply (Qlt_not_le _ _ H E).
Qed.

Lemma py_int_floor (x : Q) : 0 <= x -> py_int x = Qfloor x.
Proof.
  destruct x as [n d]. unfold Qle, py_int, Qfloor. cbn. intros H.
  apply Z.quot_div_nonneg; lia.
Qed.

(** Truncation loses less than one second. *)
Lemma py_int_above (x : Q) : 0 <= x -> x - 1 < inject_Z (py_int x).
Proof.
  intros H. rewrite (py_int_floor x H).
  pose proof (Qlt_floor x) as Hlt. rewrite inject_Z_plus in Hlt.
  change (inject_Z 1) with 1 in Hlt. lra.
Qed.

Lemma over_budget_iff (remaining : Q) (eta : option Z) :
  over_budget remaining eta = true
  <-> 0 < remaining /\ exists e, eta = Some e /\ remaining < inject_Z e.
Proof.
  unfold over_budget. rewrite andb_true_iff, Qltb_lt. split.
  - intros [Hr He]. split; [exact Hr|]. destruct eta as [e|]; [|discriminate].
    apply andb_true_iff in He. destruct He as [_ He]. apply Qltb_lt in He.
    exists e. split; [reflexivity | exact He].
  - intros [Hr (e & -> & He)]. split; [exact Hr|].
    apply andb_true_iff. split; [|apply Qltb_lt; exact He].
    apply negb_true_iff, Z.eqb_neq. intros ->.
    change (inject_Z 0) with 0 in He. lra.
Qed.

Section WithBudget.
Variable env : environment.
Variable time_budget_sec : Z.
Variable started : Q.
Variable total_to_hash : Z.

#[local] Abbreviation checkpoint := (checkpoint time_budget_sec started total_to_hash).
#[local] Abbreviation hash_files := (hash_files env time_budget_sec started total_to_hash).
#[local] Abbreviation hash_jobs := (hash_jobs env time_budget_sec started total_to_hash).
#[local] Abbreviation before_wait := (before_wait started total_to_hash).
#[local] Abbreviation publish_progress := (publish_progress started total_to_hash).
#[local] Abbreviation remaining_budget := (remaining_budget time_budget_sec started).
#[local] Abbreviation eta := (eta total_to_hash).

Lemma checkpoint_unfold (w : worker) :
  checkpoint w
  = if over_budget (remaining_budget w) (eta (refresh_average w)) then
      match wait (before_wait w) with
      | None => Blocked (before_wait w)
      | Some w' => Finished (true, resume_hashing w')
      end
    else Finished (false, publish_progress (refresh_average w)).
Proof. reflexivity. Qed.

(** The worker pauses at a check point exactly when some budget is
    left and the estimate, in whole seconds, exceeds it. *)
Lemma checkpoint_pauses_iff (w : worker) :
  pauses (checkpoint w)
  <-> 0 < remaining_budget w
      /\ exists e, eta (refresh_average w) = Some e
                   /\ remaining_budget w < inject_Z e.
Proof.
  rewrite <- over_budget_iff, checkpoint_unfold.
  destruct (over_budget _ _).
  - destruct (wait _); cbn; split; auto.
  - cbn. split; discriminate.
Qed.

(** Until more than 5 files are done there is no average, hence no
    estimate. *)
Lemma no_eta_during_warm_up (w : worker) :
  avg_per_file w = None -> (done w <= 5)%Z -> eta (refresh_average w) = None.
Proof.
  intros Havg Hd. unfold refresh_average.
  replace (done w >? 5)%Z with false by (symmetry; rewrite Z.gtb_ltb; apply Z.ltb_ge; lia).
  unfold DuplicateFileSizeFinder.eta, predicted_remaining, eta_of.
  rewrite Havg. cbn [or_else].
  replace (Qeq_bool _ 0) with true; [reflexivity|].
  symmetry. apply Qeq_bool_iff. ring.
Qed.

Section WarmUp.
Variables (t1 c : Q) (m0 : Z).
Hypothesis uniform_cost : forall p, hash_cost env p == c.
Hypothesis walk_takes_time : started <= t1.
Hypothesis budget_left_after_six :
  6 * c < inject_Z time_budget_sec - (t1 - started).
Hypothesis budget_too_small :
  inject_Z time_budget_sec + 1 <= inject_Z total_to_hash * c.

#[local] Abbreviation warming_up := (warming_up total_to_hash t1 c m0).
#[local] Abbreviation paused_after_six := (paused_after_six total_to_hash).

Lemma warm_checkpoint (d : Z) (w : worker) :
  warming_up d w -> (d <= 5)%Z ->
  checkpoint w = Finished (false, publish_progress (refresh_average w))
  /\ warming_up d (publish_progress (refresh_average w)).
Proof.
  intros (Hd & Hnow & Hhs & Havg & Hin & Hmin & Htot) Hle.
  rewrite checkpoint_unfold.
  rewrite (no_eta_during_warm_up w Havg) by lia.
  unfold over_budget. rewrite andb_false_r. split; [reflexivity|].
  unfold refresh_average.
  replace (done w >? 5)%Z with false by (symmetry; rewrite Z.gtb_ltb; apply Z.ltb_ge; lia).
  unfold DuplicateFileSizeFinder.warming_up. cbn. auto 10.
Qed.

Lemma cost_positive : (6 < total_to_hash)%Z -> 0 < c.
Proof.
  intros HT.
  assert (H6 : 6 < inject_Z total_to_hash).
  { change 6 with (inject_Z 6). rewrite <- Zlt_Qlt. exact HT. }
  destruct (Qlt_le_dec 0 c) as [H | H]; [exact H | exfalso].
  assert (inject_Z total_to_hash * c <= 6 * c) by nra.
  lra.
Qed.

Lemma six_checkpoint (w : worker) :
  (6 < total_to_hash)%Z ->
  warming_up 6 w ->
  checkpoint w = Blocked (before_wait w) /\ paused_after_six (before_wait w).
Proof.
  intros HT (Hd & Hnow & Hhs & Havg & Hin & Hmin & Htot).
  pose proof (cost_positive HT) as Hc.
  destruct (before_wait_frame started total_to_hash w)
    as (B1 & _ & _ & _ & B5 & _).
  assert (Hr : refresh_average w
               = with_avg_per_file
                   (Some ((now w - hash_start w) / inject_Z (done w))) w).
  { unfold refresh_average. rewrite Hd. reflexivity. }
  assert (Havg6 : (now w - hash_start w) / inject_Z (done w) == c).
  { rewrite Hhs, Hd, Hnow. change (inject_Z 6) with 6. field. }
  assert (Hpred : predicted_remaining total_to_hash (refresh_average w)
                  == (inject_Z total_to_hash - 6) * c).
  { rewrite Hr. unfold predicted_remaining. cbn [done avg_per_file with_avg_per_file or_else].
    destruct (Qeq_bool _ 0) eqn:E.
    - apply Qeq_bool_iff in E. rewrite Havg6 in E. lra.
    - rewrite Havg6, Hd. unfold Zminus. rewrite inject_Z_plus, inject_Z_opp.
      change (inject_Z 6) with 6. ring. }
  assert (H6 : 6 < inject_Z total_to_hash).
  { change 6 with (inject_Z 6). rewrite <- Zlt_Qlt. exact HT. }
  assert (Hpos : 0 < predicted_remaining total_to_hash (refresh_average w)).
  { rewrite Hpred. nra. }
  assert (Hob : over_budget (remaining_budget w) (eta (refresh_average w)) = true).
  { apply over_budget_iff.
    assert (Hrem : remaining_budget w
                   == inject_Z time_budget_sec - (t1 - started) - 6 * c).
    { unfold DuplicateFileSizeFinder.remaining_budget. rewrite Hnow.
      change (inject_Z 6) with 6. ring. }
    split; [rewrite Hrem; lra|].
    exists (py_int (predicted_remaining total_to_hash (refresh_average w))).
    split.
    - unfold DuplicateFileSizeFinder.eta, eta_of.
      destruct (Qeq_bool _ 0) eqn:E; [|reflexivity].
      apply Qeq_bool_iff in E. rewrite E in Hpos. lra.
    - pose proof (py_int_above _ (Qlt_le_weak _ _ Hpos)) as Habove.
      rewrite Hpred in Habove at 1. rewrite Hrem. nra. }
  rewrite checkpoint_unfold, Hob.
  rewrite (wait_no_request (before_wait w)) by (rewrite B5; exact Hin).
  split; [reflexivity|].
  unfold DuplicateFileSizeFinder.paused_after_six.
  split; [rewrite B1; exact Hd|].
  unfold DuplicateFileSizeFinder.before_wait. rewrite Hr. cbn.
  rewrite Hd. auto.
Qed.

Lemma hash_one_warm (size d : Z) (p : pystr) (w : worker) :
  warming_up d w -> warming_up (d + 1) (hash_one env size p w).
Proof.
  intros (Hd & Hnow & Hhs & Havg & Hin & Hmin & Htot).
  destruct (hash_one_frame env size p w) as (F1 & _ & F3 & F4 & F5 & F6 & F7).
  unfold DuplicateFileSizeFinder.warming_up.
  rewrite F1, F3, F4, F5, F6, F7.
  repeat split; try assumption; [lia|].
  rewrite Hnow, uniform_cost, inject_Z_plus. change (inject_Z 1) with 1. ring.
Qed.

Lemma hash_files_warm (size : Z) (paths rest : list pystr) (d : Z) (w : worker) :
  (6 < total_to_hash)%Z ->
  warming_up d w -> (0 <= d <= 6)%Z ->
  ((d + len rest <= 6)%Z ->
   exists w', hash_files size paths rest w = Finished w'
              /\ warming_up (d + len rest) w')
  /\ ((6 < d + len rest)%Z ->
      exists w', hash_files size paths rest w = Blocked w'
                 /\ paused_after_six w').
Proof.
  intros HT. revert d w. induction rest as [|p rest IH]; intros d w Hw Hd.
  - split; intros H.
    + exists w. split; [reflexivity|]. unfold len. cbn [length Z.of_nat].
      rewrite Z.add_0_r. exact Hw.
    + unfold len in H. cbn in H. lia.
  - rewrite hash_files_step, len_cons.
    pose proof (len_nonneg rest) as Hlen.
    destruct (Z.eq_dec d 6) as [-> | Hne].
    + destruct (six_checkpoint w HT Hw) as [Ec Hp]. rewrite Ec.
      split; intros H; [lia|]. eexists. split; [reflexivity | exact Hp].
    + destruct (warm_checkpoint d w Hw) as [Ec Hw1]; [lia|]. rewrite Ec.
      cbn [andb].
      pose proof (hash_one_warm size d p _ Hw1) as Hw2.
      destruct (IH (d + 1)%Z _ Hw2) as [IHa IHb]; [lia|].
      split; intros H.
      * destruct IHa as (w' & E & Hw'); [lia|]. exists w'. split; [exact E|].
        replace (d + (1 + len rest))%Z with (d + 1 + len rest)%Z by lia.
        exact Hw'.
      * apply IHb. lia.
Qed.

Lemma total_of_nonneg (jobs : list (Z * list pystr)) : (0 <= total_of jobs)%Z.
Proof.
  induction jobs as [|[s ps] r IH]; cbn; [lia|].
  fold (total_of r). pose proof (len_nonneg ps). lia.
Qed.

Lemma hash_jobs_warm (jobs : list (Z * list pystr)) (d : Z) (w : worker) :
  (6 < total_to_hash)%Z ->
  (forall size paths, In (size, paths) jobs -> (m0 <= size)%Z) ->
  warming_up d w -> (0 <= d <= 6)%Z ->
  ((d + total_of jobs <= 6)%Z ->
   exists w', hash_jobs jobs w = Finished w'
              /\ warming_up (d + total_of jobs) w')
  /\ ((6 < d + total_of jobs)%Z ->
      exists w', hash_jobs jobs w = Blocked w' /\ paused_after_six w').
Proof.
  intros HT. revert d w.
  induction jobs as [|[size paths] jobs IH]; intros d w Hsz Hw Hd.
  - split; intros H.
    + exists w. split; [reflexivity|]. cbn. rewrite Z.add_0_r. exact Hw.
    + cbn in H. lia.
  - assert (Hsz' : forall size paths, In (size, paths) jobs -> (m0 <= size)%Z)
      by (intros s ps Hin; apply (Hsz s ps); right; exact Hin).
    cbn [total_of fold_right snd]. fold (total_of jobs).
    pose proof (total_of_nonneg jobs) as Htot.
    pose proof (len_nonneg paths) as Hlen.
    assert (El : (size <? min_size_ref (shared w))%Z = false).
    { apply Z.ltb_ge. destruct Hw as (_ & _ & _ & _ & _ & Hmin & _).
      rewrite Hmin. apply (Hsz size paths). left. reflexivity. }
    rewrite (hash_jobs_step _ _ _ _ _ _ _ _ El).
    destruct (hash_files_warm size paths paths d w HT Hw Hd) as [Fa Fb].
    destruct (Z_le_gt_dec (d + len paths) 6) as [Hle | Hgt].
    + destruct (Fa Hle) as (w1 & E1 & Hw1). rewrite E1.
      destruct (IH (d + len paths)%Z w1 Hsz' Hw1) as [IHa IHb]; [lia|].
      split; intros H.
      * destruct IHa as (w' & E & Hw'); [lia|]. exists w'. split; [exact E|].
        replace (d + (len paths + total_of jobs))%Z
          with (d + len paths + total_of jobs)%Z by lia.
        exact Hw'.
      * apply IHb. lia.
    + destruct Fb as (w1 & E1 & Hp); [lia|]. rewrite E1.
      split; intros H; [lia|]. exists w1. split; [reflexivity | exact Hp].
Qed.

End WarmUp.
End WithBudget.
End BudgetFacts.

Module BudgetClaims.
Import ListFacts DuplicateFileSizeFinder HashFacts SizeFacts BudgetFacts.

Lemma walk_files_min_size env include_cloud min_size visited size paths :
  In (size, paths) (jobs_of (walk_files env include_cloud min_size visited)) ->
  (min_size <= size)%Z.
Proof.
  unfold jobs_of. intros Hin. apply filter_In in Hin. destruct Hin as [Hin Hlen].
  cbn [snd] in Hlen.
  pose proof (walk_files_bucketed env include_cloud min_size visited size paths
                Hin) as Hall.
  destruct paths as [|p ps]; [unfold len in Hlen; cbn in Hlen; lia|].
  inversion Hall as [|? ? [_ Hmin] _]; subst. exact Hmin.
Qed.




End BudgetClaims.

(* ================================================================== *)
(** * Proofs: claims about both finders *)
(* ================================================================== *)

Module BothFinders.
Import ListFacts.

(** C3. A file whose size is below the minimum size is a member of no
    reported group: in name mode for the configured minimum, in content
    mode for the minimum size as it is when the run returns. *)
Theorem C3_small_files_never_reported (env : environment) :
  (forall root root_path min_size ignores include_cloud ignore_ext f s
          k members m,
      getsize (stat_of env f) = Some s -> (s < min_size)%Z ->
      In (k, members)
        (DuplicateFileName.GROUPS
           (DuplicateFileName.scan_by_name env root root_path min_size ignores
              include_cloud ignore_ext)) ->
      In m members ->
      DuplicateFileName.member_path m <> f)
  /\ (forall root root_path excludes include_cloud time_budget_sec t0 g0
            requests gs wf f s g,
        DuplicateFileSizeFinder.find_duplicates_streaming env root root_path
          excludes include_cloud time_budget_sec t0 g0 requests
        = DuplicateFileSizeFinder.Finished (gs, wf) ->
        getsize (stat_of env f) = Some s ->
        (s < DuplicateFileSizeFinder.min_size_ref
               (DuplicateFileSizeFinder.shared wf))%Z ->
        In g gs ->
        ~ In f (DuplicateFileSizeFinder.files g)).
Proof.
  split.
  - intros root root_path min_size ignores include_cloud ignore_ext f s
      k members m Hs Hlt Hin Hm Hpath.
    destruct (NameFacts.scan_by_name_groups env _ _ _ _ _ _ _ _ Hin)
      as (_ & _ & Hall).
    rewrite Forall_forall in Hall. destruct (Hall m Hm) as [Hrec Hmin].
    rewrite Hpath, Hs in Hrec. injection Hrec as Hrec. lia.
  - intros root root_path excludes include_cloud time_budget_sec t0 g0
      requests gs wf f s g Hrun Hs Hlt Hg Hf.
    destruct (SizeFacts.finished_run env _ _ _ _ _ _ _ _ _ _ Hrun)
      as (w0 & w & H).
    cbv zeta in H. destruct H as (_ & _ & _ & _ & Hfin & [Hnd Hget]).
    assert (Hgs : gs = fst (DuplicateFileSizeFinder.finish t0 w))
      by (rewrite <- Hfin; reflexivity).
    assert (Hwf : wf = snd (DuplicateFileSizeFinder.finish t0 w))
      by (rewrite <- Hfin; reflexivity).
    subst gs wf. rewrite SizeFacts.finish_min_size in Hlt.
    apply SizeFacts.finish_In in Hg.
    destruct Hg as (s' & d & fl & Hin & _ & Hmin & ->).
    cbn [DuplicateFileSizeFinder.files] in Hf. apply sorted_In in Hf.
    pose proof (dict_get_In DuplicateFileSizeFinder.key_eqb HashFacts.key_eqb_eq
                  (s', d) fl _ Hnd Hin) as Hfl.
    rewrite Hget in Hfl. subst fl. apply filter_In in Hf. destruct Hf as [_ Hk].
    apply HashFacts.has_key_iff in Hk. cbn [fst snd] in Hk.
    destruct Hk as [Hs' _]. rewrite Hs in Hs'. injection Hs' as Hs'. lia.
Qed.

Lemma C3_small_files_never_reported_witness :
  DuplicateFileName.member_path Examples.scenario_name_member
  <> Examples.report_d
  /\ ~ In Examples.report_d
         (DuplicateFileSizeFinder.files Examples.scenario_content_group).
Proof.
  split.
  - apply (proj1 (C3_small_files_never_reported Examples.scenario)
             Examples.scenario_tree (lit "/r") (10 * Examples.MiB)%Z [] false
             true Examples.report_d 1024%Z
             (fst Examples.scenario_name_group)
             (snd Examples.scenario_name_group)
             Examples.scenario_name_member).
    + vm_compute. reflexivity.
    + vm_compute. reflexivity.
    + vm_compute. left. reflexivity.
    + vm_compute. left. reflexivity.
  - apply (proj2 (C3_small_files_never_reported Examples.scenario)
             Examples.scenario_tree (lit "/r") [] false 3600%Z 0
             (Examples.initial_globals (10 * Examples.MiB)) []
             (Examples.result_groups Examples.scenario_by_content)
             (Examples.result_worker Examples.scenario_by_content)
             Examples.report_d 1024%Z Examples.scenario_content_group).
    + vm_compute. reflexivity.
    + vm_compute. reflexivity.
    + vm_compute. reflexivity.
    + vm_compute. left. reflexivity.
Defined.

(** C4. Every group that is reported has at least two members, in name
    mode and in content mode; in name mode no reported group has the
    empty string as its key. *)
Theorem C4_no_singleton_groups (env : environment) :
  (forall root root_path min_size ignores include_cloud ignore_ext k members,
      In (k, members)
        (DuplicateFileName.GROUPS
           (DuplicateFileName.scan_by_name env root root_path min_size ignores
              include_cloud ignore_ext)) ->
      (2 <= len members)%Z /\ k <> [])
  /\ (forall root root_path excludes include_cloud time_budget_sec t0 g0
            requests gs wf g,
        DuplicateFileSizeFinder.find_duplicates_streaming env root root_path
          excludes include_cloud time_budget_sec t0 g0 requests
        = DuplicateFileSizeFinder.Finished (gs, wf) ->
        In g gs ->
        (2 <= len (DuplicateFileSizeFinder.files g))%Z).
Proof.
  split.
  - intros root root_path min_size ignores include_cloud ignore_ext k members
      Hin.
    destruct (NameFacts.scan_by_name_groups env _ _ _ _ _ _ _ _ Hin)
      as (Hlen & Hk & _).
    split; assumption.
  - intros root root_path excludes include_cloud time_budget_sec t0 g0
      requests gs wf g Hrun Hg.
    destruct (SizeFacts.finished_run env _ _ _ _ _ _ _ _ _ _ Hrun)
      as (w0 & w & H).
    cbv zeta in H. destruct H as (_ & _ & _ & _ & Hfin & _).
    assert (Hgs : gs = fst (DuplicateFileSizeFinder.finish t0 w))
      by (rewrite <- Hfin; reflexivity).
    subst gs. apply SizeFacts.finish_In in Hg.
    destruct Hg as (s & d & fl & _ & Hlen & _ & ->).
    cbn [DuplicateFileSizeFinder.files]. rewrite sorted_len. exact Hlen.
Qed.

Lemma C4_no_singleton_groups_witness :
  ((2 <= len (snd Examples.scenario_name_group))%Z
   /\ fst Examples.scenario_name_group <> [])
  /\ (2 <= len (DuplicateFileSizeFinder.files
                  Examples.scenario_content_group))%Z.
Proof.
  split.
  - apply (proj1 (C4_no_singleton_groups Examples.scenario)
             Examples.scenario_tree (lit "/r") (10 * Examples.MiB)%Z [] false
             true).
    vm_compute. left. reflexivity.
  - apply (proj2 (C4_no_singleton_groups Examples.scenario)
             Examples.scenario_tree (lit "/r") [] false 3600%Z 0
             (Examples.initial_globals (10 * Examples.MiB)) []
             (Examples.result_groups Examples.scenario_by_content)
             (Examples.result_worker Examples.scenario_by_content)).
    + vm_compute. reflexivity.
    + vm_compute. left. reflexivity.
Defined.




End BothFinders.

(* ================================================================== *)
(** * Proofs: the shape of path tokens *)
(* ================================================================== *)

Module TokenFacts.
Import Codec CodecFacts Helpers.

(** ** What the encoder writes *)

Lemma table_b2a_urlsafe (i : N) :
  urlsafe_char (urlsafe_encode_translation (table_b2a_base64 i)) = true.
Proof.
  unfold table_b2a_base64.
  repeat (split_if; reflect_hyps);
    unfold urlsafe_encode_translation, urlsafe_char;
    repeat (split_if; reflect_hyps; try lia);
    try reflexivity;
    rewrite !orb_true_iff, !andb_true_iff, !N.leb_le, !N.eqb_eq; lia.
Qed.

Lemma urlsafe_b64encode_chars (bs : bytes) :
  forallb urlsafe_char (urlsafe_b64encode bs) = true.
Proof.
  unfold urlsafe_b64encode.
  induction bs as [|a|a b|a b c r IH] using list_ind3;
    cbn [b2a_base64 map app forallb];
    rewrite ?table_b2a_urlsafe, ?IH; reflexivity.
Qed.

Lemma b2a_base64_length (bs : bytes) :
  length (b2a_base64 bs) = (4 * ((length bs + 2) / 3))%nat.
Proof.
  induction bs as [|a|a b|a b c r IH] using list_ind3.
  - reflexivity.
  - reflexivity.
  - reflexivity.
  - cbn [b2a_base64 app length]. rewrite IH.
    replace (S (S (S (length r))) + 2)%nat with (length r + 2 + 1 * 3)%nat
      by lia.
    rewrite Nat.div_add by lia. lia.
Qed.

Lemma encode_path_bytes (p token : pystr) :
  Shared.encode_path p = Some token <->
  exists bs, str_encode_utf8 p = Some bs /\ token = urlsafe_b64encode bs.
Proof.
  unfold Shared.encode_path, bytes_decode_ascii.
  destruct (str_encode_utf8 p) as [bs|]; cbn [bind].
  - rewrite urlsafe_b64encode_ascii. split.
    + intros E. exists bs. split; [reflexivity | congruence].
    + intros (bs' & E & ->). injection E as <-. reflexivity.
  - split; [discriminate | intros (bs' & E & _); discriminate].
Qed.

(** ** When the encoder fails *)

Lemma utf8_encode_cp_none (c : N) :
  utf8_encode_cp c = None <-> scalar_value c = false.
Proof.
  split.
  - intros E. destruct (scalar_value c) eqn:Es; [|reflexivity].
    destruct (utf8_encode_cp_total c Es) as [b Hb]. congruence.
  - unfold scalar_value, utf8_encode_cp. intros H.
    repeat (split_if; reflect_hyps; try reflexivity); unfold is_surrogate in *;
      reflect_hyps; try discriminate; try lia.
Qed.

Lemma str_encode_utf8_none (p : pystr) :
  str_encode_utf8 p = None <-> exists c, In c p /\ scalar_value c = false.
Proof.
  induction p as [|c r IH]; cbn [str_encode_utf8].
  - split; [discriminate | intros (c & [] & _)].
  - destruct (utf8_encode_cp c) as [b|] eqn:Ec; cbn [bind].
    + destruct (str_encode_utf8 r) as [bs|]; cbn [bind].
      * split; [discriminate|]. intros (x & [<- | Hx] & Hs).
        -- apply utf8_encode_cp_none in Hs. congruence.
        -- assert (Hn : Some bs = None) by (apply IH; exists x; auto).
           discriminate Hn.
      * split; [|reflexivity]. intros _.
        destruct (proj1 IH eq_refl) as (x & Hx & Hs).
        exists x. split; [right; exact Hx | exact Hs].
    + split; [|reflexivity]. intros _. exists c.
      split; [left; reflexivity | apply utf8_encode_cp_none; exact Ec].
Qed.

Lemma encode_path_decode (p token : pystr) :
  Shared.encode_path p = Some token -> Shared.decode_path token = Some p.
Proof.
  intros E.
  assert (Hp : forallb scalar_value p = true).
  { apply forallb_forall. intros c Hc.
    destruct (scalar_value c) eqn:Es; [reflexivity|].
    apply encode_path_bytes in E. destruct E as (bs & E & _).
    assert (str_encode_utf8 p = None)
      by (apply str_encode_utf8_none; exists c; auto).
    congruence. }
  destruct (shared_path_roundtrip p Hp) as (t & Ht & Hd). congruence.
Qed.

(** ** What the decoder skips *)

Lemma a2b_loop_skip (c : N) (l1 l2 : bytes) :
  table_a2b_base64 c = None -> c <> BASE64_PAD ->
  forall q lc p out,
    a2b_loop (l1 ++ c :: l2) q lc p out = a2b_loop (l1 ++ l2) q lc p out.
Proof.
  intros Hc Hpad. induction l1 as [|x r IH]; intros q lc p out.
  - cbn [app a2b_loop]. rewrite Hc.
    destruct (c =? BASE64_PAD)%N eqn:E; [|reflexivity].
    apply N.eqb_eq in E. contradiction.
  - cbn [app a2b_loop].
    destruct (x =? BASE64_PAD)%N.
    + destruct ((2 <=? q)%N && (4 <=? q + (p + 1))%N); [reflexivity|].
      apply IH.
    + destruct (table_a2b_base64 x) as [v|]; [|apply IH].
      destruct (q =? 0)%N; [apply IH|].
      destruct (q =? 1)%N; [apply IH|].
      destruct (q =? 2)%N; apply IH.
Qed.

Lemma foreign_char (c : N) :
  urlsafe_char c = false -> c <> 43%N -> c <> 47%N ->
  urlsafe_decode_translation c = c /\ table_a2b_base64 c = None
  /\ c <> BASE64_PAD.
Proof.
  unfold urlsafe_char, urlsafe_decode_translation, table_a2b_base64, BASE64_PAD.
  intros H H43 H47. reflect_hyps;
    (split; [|split]);
    repeat (split_if; reflect_hyps; try lia); try reflexivity; congruence.
Qed.

Lemma decode_translation_idem (c : N) :
  urlsafe_decode_translation (urlsafe_decode_translation c)
  = urlsafe_decode_translation c.
Proof.
  unfold urlsafe_decode_translation.
  repeat (split_if; reflect_hyps; try lia); reflexivity.
Qed.

Lemma decode_translation_ascii (c : N) :
  (urlsafe_decode_translation c <? 128)%N = (c <? 128)%N.
Proof.
  unfold urlsafe_decode_translation.
  repeat (split_if; reflect_hyps; subst; try reflexivity).
Qed.

Lemma decode_translation_forallb (l : pystr) :
  forallb (fun b => (b <? 128)%N) (map urlsafe_decode_translation l)
  = forallb (fun b => (b <? 128)%N) l.
Proof.
  induction l as [|c r IH]; cbn [map forallb]; [reflexivity|].
  rewrite decode_translation_ascii, IH. reflexivity.
Qed.

(** ** The properties *)

(** X1. A token [encode_path] returns is made of the 64 characters of
    the URL-safe alphabet (letters, digits, [-] and [_]) and the pad
    [=] only, and it has four characters for every three bytes, or part
    thereof, of the UTF-8 form of the path. *)
Theorem encode_path_token_shape (p token : pystr) :
  Shared.encode_path p = Some token ->
  forallb urlsafe_char token = true
  /\ exists bs, str_encode_utf8 p = Some bs
                /\ length token = (4 * ((length bs + 2) / 3))%nat.
Proof.
  intros E. apply encode_path_bytes in E. destruct E as (bs & E & ->).
  split; [apply urlsafe_b64encode_chars|].
  exists bs. split; [exact E|].
  unfold urlsafe_b64encode. rewrite length_map. apply b2a_base64_length.
Qed.

Lemma encode_path_token_shape_witness :
  forallb urlsafe_char (lit "L3Iv4oKsLnR4dA==") = true
  /\ exists bs, str_encode_utf8 (lit "/r/" ++ [8364%N] ++ lit ".txt") = Some bs
                /\ length (lit "L3Iv4oKsLnR4dA==")
                   = (4 * ((length bs + 2) / 3))%nat.
Proof.
  apply (encode_path_token_shape (lit "/r/" ++ [8364%N] ++ lit ".txt")).
  vm_compute. reflexivity.
Defined.

(** X2. [encode_path] raises exactly on the paths that hold a code
    point which is not a Unicode scalar value: a surrogate, as the file
    names the operating system could not decode carry them. *)
Theorem encode_path_fails_iff (p : pystr) :
  Shared.encode_path p = None
  <-> exists c, In c p /\ scalar_value c = false.
Proof.
  rewrite <- str_encode_utf8_none.
  unfold Shared.encode_path, bytes_decode_ascii.
  destruct (str_encode_utf8 p) as [bs|]; cbn [bind].
  - rewrite urlsafe_b64encode_ascii. split; discriminate.
  - split; reflexivity.
Qed.

(** X3. Two paths with the same token are the same path: a token names
    one file. *)
Theorem encode_path_injective (p q token : pystr) :
  Shared.encode_path p = Some token -> Shared.encode_path q = Some token ->
  p = q.
Proof.
  intros Hp Hq. apply encode_path_decode in Hp, Hq. congruence.
Qed.

Lemma encode_path_injective_witness :
  Examples.accented_path = Examples.accented_path.
Proof.
  apply (encode_path_injective Examples.accented_path Examples.accented_path
           (lit "QzpcVXNlcnNcem_Dq1zigqwudHh08J-YgA=="));
    vm_compute; reflexivity.
Defined.

(** X4. [decode_path] skips every ASCII character of a token that is
    neither in the URL-safe alphabet nor [+], [/] or the pad: a token
    with such characters inserted decodes as the token without them. *)
Theorem decode_path_skips_foreign (t1 t2 : pystr) (c : N) :
  (c < 128)%N -> urlsafe_char c = false -> c <> 43%N -> c <> 47%N ->
  Shared.decode_path (t1 ++ c :: t2) = Shared.decode_path (t1 ++ t2).
Proof.
  intros Hc Hu H43 H47.
  destruct (foreign_char c Hu H43 H47) as (Htr & Htab & Hpad).
  unfold Shared.decode_path, str_encode_ascii.
  rewrite !forallb_app. cbn [forallb].
  replace (c <? 128)%N with true by (symmetry; apply N.ltb_lt; exact Hc).
  cbn [andb]. rewrite <- forallb_app.
  destruct (forallb (fun c0 => (c0 <? 128)%N) (t1 ++ t2)); [|reflexivity].
  cbn [bind]. unfold urlsafe_b64decode, a2b_base64.
  rewrite !map_app. cbn [map]. rewrite Htr.
  rewrite (a2b_loop_skip c _ _ Htab Hpad). reflexivity.
Qed.

Lemma decode_path_skips_foreign_witness :
  Shared.decode_path (lit "L3Iv" ++ 10%N :: lit "YQ==")
  = Shared.decode_path (lit "L3Iv" ++ lit "YQ==").
Proof.
  apply (decode_path_skips_foreign (lit "L3Iv") (lit "YQ==") 10%N).
  - reflexivity.
  - reflexivity.
  - discriminate.
  - discriminate.
Defined.

(** X5. [decode_path] reads the characters [+] and [/] of the standard
    alphabet as it reads [-] and [_]: a token in the standard alphabet
    decodes as its URL-safe form. *)
Theorem decode_path_standard_alphabet (token : pystr) :
  Shared.decode_path (map urlsafe_decode_translation token)
  = Shared.decode_path token.
Proof.
  unfold Shared.decode_path, str_encode_ascii.
  rewrite decode_translation_forallb.
  destruct (forallb (fun b => (b <? 128)%N) token); [|reflexivity].
  cbn [bind]. unfold urlsafe_b64decode. rewrite map_map.
  rewrite (map_ext _ _ decode_translation_idem). reflexivity.
Qed.

End TokenFacts.

(* ================================================================== *)
(** * Proofs: the helpers of both programs *)
(* ================================================================== *)

Module HumanFacts.
Import Helpers.

(** ** The conversion to a double and the rounding *)

Lemma float_of_int_exact (n : Z) :
  (Z.abs n < 2 ^ 53)%Z -> float_of_int n = Some (inject_Z n).
Proof.
  intros H. unfold float_of_int. cbv zeta.
  assert (E : ((if (Z.abs n =? 0)%Z then 0 else Z.log2 (Z.abs n) + 1) <=? 53)%Z = true).
  { destruct (Z.abs n =? 0)%Z eqn:E0; [reflexivity|].
    apply Z.leb_le. apply Z.eqb_neq in E0.
    assert (Z.log2 (Z.abs n) < 53)%Z; [|lia].
    apply Z.log2_lt_pow2; lia. }
  rewrite E. reflexivity.
Qed.

Lemma inject_Z_succ (z : Z) : inject_Z (z + 1) == inject_Z z + 1.
Proof. rewrite inject_Z_plus. reflexivity. Qed.

Lemma round_half_even_bound (y : Q) :
  y - (1 # 2) <= inject_Z (round_half_even y)
  /\ inject_Z (round_half_even y) <= y + (1 # 2).
Proof.
  unfold round_half_even. cbv zeta.
  pose proof (Qfloor_le y) as Hlo. pose proof (Qlt_floor y) as Hhi.
  pose proof (inject_Z_succ (Qfloor y)) as Hs.
  destruct (Qltb (y - inject_Z (Qfloor y)) (1 # 2)) eqn:E1.
  - apply BudgetFacts.Qltb_lt in E1. split; lra.
  - assert (H1 : ~ y - inject_Z (Qfloor y) < 1 # 2)
      by (rewrite <- BudgetFacts.Qltb_lt; congruence).
    destruct (Qltb (1 # 2) (y - inject_Z (Qfloor y))) eqn:E2.
    + split; lra.
    + assert (H2 : ~ (1 # 2) < y - inject_Z (Qfloor y))
        by (rewrite <- BudgetFacts.Qltb_lt; congruence).
      destruct (Z.even (Qfloor y)); split; lra.
Qed.

Lemma scale_step (fuel : nat) (x : Q) (i : nat) :
  scale (S fuel) x i
  = if Qle_bool 1024 x && (i <? 4)%nat then scale fuel (x / 1024) (S i)
    else (x, i).
Proof. reflexivity. Qed.


Lemma Qle_bool_false (a b : Q) : Qle_bool a b = false <-> b < a.
Proof.
  split.
  - intros E. apply Qnot_le_lt. intros H. apply Qle_bool_iff in H. congruence.
  - intros H. destruct (Qle_bool a b) eqn:E; [|reflexivity].
    apply Qle_bool_iff in E. lra.
Qed.

Lemma format_1f_nonneg (y : Q) :
  0 <= y ->
  format_1f y
  = str_of_int (round_half_even (y * 10) / 10) ++ lit "."
    ++ str_of_int (round_half_even (y * 10) mod 10).
Proof.
  intros H. unfold format_1f. cbv zeta.
  replace (Qltb y 0) with false; [reflexivity|].
  symmetry. unfold Qltb. apply negb_false_iff. apply Qle_bool_iff. exact H.
Qed.


Ltac q2z :=
  unfold Qeq, Qle, Qlt, Qdiv, Qminus, Qmult, Qinv, Qplus, Qopp;
  cbn [Qnum Qden inject_Z].

Ltac q2z_in H :=
  unfold Qeq, Qle, Qlt, Qdiv, Qminus, Qmult, Qinv, Qplus, Qopp in H;
  cbn [Qnum Qden inject_Z] in H.

Lemma round_half_even_ratio (y : Q) (m : Z) (d : positive) :
  y == m # d ->
  (2 * Z.abs (m - round_half_even y * Z.pos d) <= Z.pos d)%Z.
Proof.
  intros E. destruct (round_half_even_bound y) as [B1 B2].
  generalize dependent (round_half_even y). intros t B1 B2.
  rewrite E in B1, B2. q2z_in B1. q2z_in B2. lia.
Qed.

(** One more division by 1024 does not end the loop. *)
Lemma scaled_value (n : Z) (y : Q) (d : positive) :
  y == n # d ->
  (Qle_bool 1024 y = true <-> (1024 * Z.pos d <= n)%Z)
  /\ y / 1024 == n # (d * 1024)
  /\ y * 10 == (10 * n) # d.
Proof.
  intros E. split; [|split].
  - rewrite Qle_bool_iff, E. q2z. lia.
  - rewrite E. q2z. lia.
  - rewrite E. q2z. lia.
Qed.

Lemma human_leaf (n : Z) (y : Q) (d : positive) (i : nat) :
  y == n # d -> (0 <= n)%Z -> (0 < i)%nat ->
  exists t,
    Some (if (0 <? i)%nat
          then format_1f y ++ lit " " ++ nth i units []
          else str_of_int (py_int y) ++ lit " " ++ nth i units [])
    = Some (str_of_int (t / 10) ++ lit "." ++ str_of_int (t mod 10)
            ++ lit " " ++ nth i units [])
    /\ (2 * Z.abs (10 * n - t * Z.pos d) <= Z.pos d)%Z.
Proof.
  intros E Hn Hi. exists (round_half_even (y * 10)).
  replace (0 <? i)%nat with true by (symmetry; apply Nat.ltb_lt; exact Hi).
  rewrite format_1f_nonneg by (rewrite E; q2z; lia).
  split; [rewrite <- !app_assoc; reflexivity|].
  apply round_half_even_ratio.
  destruct (scaled_value n y d E) as (_ & _ & H). exact H.
Qed.

(** ** The properties *)

(** X6. For a size from 1 KiB up to what a double holds exactly (2^53),
    [human] shows the size in the largest unit among KB, MB, GB and TB
    that does not exceed it (TB for everything beyond), as a number with
    one decimal that is the size in that unit rounded to the nearest
    tenth: the text is off by at most a twentieth of the unit. *)
Theorem human_scaled (n : Z) :
  (1024 <= n < 2 ^ 53)%Z ->
  exists (i : nat) (t : Z),
    human n
    = Some (str_of_int (t / 10) ++ lit "." ++ str_of_int (t mod 10)
            ++ lit " " ++ nth i units [])
    /\ (1 <= i <= 4)%nat
    /\ (1024 ^ Z.of_nat i <= n)%Z
    /\ ((i < 4)%nat -> (n < 1024 ^ Z.of_nat (S i))%Z)
    /\ (2 * Z.abs (10 * n - t * 1024 ^ Z.of_nat i) <= 1024 ^ Z.of_nat i)%Z.
Proof.
  intros [Hlo Hhi]. unfold human.
  rewrite float_of_int_exact by lia. cbn [bind].
  change (length units - 1)%nat with 4%nat.
  assert (Y0 : inject_Z n == n # 1) by reflexivity.
  destruct (scaled_value n _ 1 Y0) as (L0 & Y1 & _).
  rewrite scale_step.
  replace (Qle_bool 1024 (inject_Z n)) with true by (symmetry; apply L0; lia).
  cbn [andb Nat.ltb Nat.leb].
  destruct (scaled_value n _ _ Y1) as (L1 & Y2 & _).
  destruct (scaled_value n _ _ Y2) as (L2 & Y3 & _).
  destruct (scaled_value n _ _ Y3) as (L3 & Y4 & _).
  rewrite scale_step.
  destruct (Qle_bool 1024 (inject_Z n / 1024)) eqn:E1;
    cbn [andb Nat.ltb Nat.leb].
  - rewrite scale_step.
    destruct (Qle_bool 1024 (inject_Z n / 1024 / 1024)) eqn:E2;
      cbn [andb Nat.ltb Nat.leb].
    + rewrite scale_step.
      destruct (Qle_bool 1024 (inject_Z n / 1024 / 1024 / 1024)) eqn:E3;
        cbn [andb Nat.ltb Nat.leb scale].
      * destruct (human_leaf n _ _ 4 Y4) as (t & Ht & Hb); [lia | lia |].
        exists 4%nat, t. split; [exact Ht|].
        change (1024 ^ Z.of_nat 4)%Z with (Z.pos (1 * 1024 * 1024 * 1024 * 1024)).
        pose proof (proj1 L3 eq_refl). repeat split; lia.
      * destruct (human_leaf n _ _ 3 Y3) as (t & Ht & Hb); [lia | lia |].
        exists 3%nat, t. split; [exact Ht|].
        change (1024 ^ Z.of_nat 3)%Z with (Z.pos (1 * 1024 * 1024 * 1024)).
        change (1024 ^ Z.of_nat 4)%Z with (1024 * Z.pos (1 * 1024 * 1024 * 1024))%Z.
        pose proof (proj1 L2 eq_refl).
        assert (E3' : ~ (1024 * Z.pos (1 * 1024 * 1024 * 1024) <= n)%Z)
          by (intros Hc; apply L3 in Hc; discriminate Hc).
        repeat split; lia.
    + destruct (human_leaf n _ _ 2 Y2) as (t & Ht & Hb); [lia | lia |].
      exists 2%nat, t. split; [exact Ht|].
      change (1024 ^ Z.of_nat 2)%Z with (Z.pos (1 * 1024 * 1024)).
      change (1024 ^ Z.of_nat 3)%Z with (1024 * Z.pos (1 * 1024 * 1024))%Z.
      pose proof (proj1 L1 eq_refl).
      assert (E2' : ~ (1024 * Z.pos (1 * 1024 * 1024) <= n)%Z)
        by (intros Hc; apply L2 in Hc; discriminate Hc).
      repeat split; lia.
  - destruct (human_leaf n _ _ 1 Y1) as (t & Ht & Hb); [lia | lia |].
    exists 1%nat, t. split; [exact Ht|].
    change (1024 ^ Z.of_nat 1)%Z with (Z.pos (1 * 1024)).
    change (1024 ^ Z.of_nat 2)%Z with (1024 * Z.pos (1 * 1024))%Z.
    assert (E1' : ~ (1024 * Z.pos (1 * 1024) <= n)%Z)
      by (intros Hc; apply L1 in Hc; discriminate Hc).
    repeat split; lia.
Qed.

Lemma human_scaled_witness :
  exists (i : nat) (t : Z),
    human Samples.sample_size
    = Some (str_of_int (t / 10) ++ lit "." ++ str_of_int (t mod 10)
            ++ lit " " ++ nth i units [])
    /\ (1 <= i <= 4)%nat
    /\ (1024 ^ Z.of_nat i <= Samples.sample_size)%Z
    /\ ((i < 4)%nat -> (Samples.sample_size < 1024 ^ Z.of_nat (S i))%Z)
    /\ (2 * Z.abs (10 * Samples.sample_size - t * 1024 ^ Z.of_nat i)
        <= 1024 ^ Z.of_nat i)%Z.
Proof.
  apply (human_scaled Samples.sample_size).
  split; [discriminate | reflexivity].
Defined.

(** X7. Below 1 KiB [human] shows the exact number of bytes, without a
    decimal; this includes negative numbers, which no division ever
    scales. *)
Theorem human_bytes (n : Z) :
  (- 2 ^ 53 < n < 1024)%Z -> human n = Some (str_of_int n ++ lit " B").
Proof.
  intros [Hlo Hhi]. unfold human.
  rewrite float_of_int_exact by lia. cbn [bind].
  change (length units - 1)%nat with 4%nat.
  rewrite scale_step.
  replace (Qle_bool 1024 (inject_Z n)) with false
    by (symmetry; apply Qle_bool_false; q2z; lia).
  cbn [andb Nat.ltb Nat.leb nth units].
  unfold py_int. cbn [Qnum Qden inject_Z]. rewrite Z.quot_1_r. reflexivity.
Qed.

Lemma human_bytes_witness :
  human 1023 = Some (str_of_int 1023 ++ lit " B").
Proof.
  apply (human_bytes 1023). split; reflexivity.
Defined.

End HumanFacts.

(* ================================================================== *)
(** * Proofs: exclusions and the walk *)
(* ================================================================== *)

Module WalkFacts.
Import ListFacts Helpers.

Lemma startswith_iff (s prefix : pystr) :
  startswith s prefix = true <-> exists rest, s = prefix ++ rest.
Proof.
  revert s. induction prefix as [|a p IH]; intros s; cbn [startswith].
  - split; [intros _; exists s; reflexivity | destruct s; reflexivity].
  - destruct s as [|b s].
    + split; [discriminate | intros [rest E]; discriminate E].
    + cbn [startswith]. rewrite andb_true_iff, N.eqb_eq, IH. split.
      * intros [-> [rest ->]]. exists rest. reflexivity.
      * intros [rest E]. injection E as -> ->. split; [reflexivity|].
        exists rest. reflexivity.
Qed.

(** Induction on a directory tree, with the hypothesis for every
    sub-directory. *)
Lemma dirtree_induction (P : dirtree -> Prop) :
  (forall name filenames subdirs,
      Forall P subdirs -> P (Dir name filenames subdirs)) ->
  forall t, P t.
Proof.
  intros H. fix IH 1. intros [name filenames subdirs].
  apply H. induction subdirs as [|sub r IHr]; constructor.
  - apply IH.
  - exact IHr.
Qed.

Section WithEnv.
Variable env : environment.

(** Every file the walk reaches was listed in a directory that is not
    within the exclusions. *)
Lemma walk_not_excluded (excludes : list pystr) (t : dirtree) :
  forall dirpath f,
    In f (Shared.walk env excludes dirpath t) ->
    exists d name,
      f = join env d name
      /\ (excludes <> [] -> Shared.is_within_excludes env d excludes = false).
Proof.
  induction t as [name filenames subdirs IH] using dirtree_induction.
  intros dirpath f. cbn [Shared.walk].
  set (pruning := match excludes with [] => false | _ :: _ => true end).
  destruct (pruning && Shared.is_within_excludes env dirpath excludes) eqn:E;
    [intros []|].
  intros Hin. apply in_app_or in Hin. destruct Hin as [Hin | Hin].
  - apply in_map_iff in Hin. destruct Hin as (fname & <- & _).
    exists dirpath, fname. split; [reflexivity|]. intros Hne.
    subst pruning. destruct excludes; [congruence|]. exact E.
  - apply in_flat_map in Hin. destruct Hin as (sub & Hsub & Hin).
    destruct (pruning
              && Shared.is_within_excludes env
                   (join env dirpath (dirname sub)) excludes);
      [destruct Hin|].
    rewrite Forall_forall in IH. eapply IH; eassumption.
Qed.

Lemma length_flat_map_sum {A B} (f : A -> list B) (c : A -> nat) (l : list A) :
  Forall (fun x => length (f x) = c x) l ->
  length (flat_map f l) = list_sum (map c l).
Proof.
  induction 1 as [|x r Hx _ IH]; cbn [flat_map map list_sum]; [reflexivity|].
  rewrite length_app. cbv beta in Hx. rewrite Hx, IH. reflexivity.
Qed.

Lemma walk_all (t : dirtree) :
  forall dirpath, length (Shared.walk env [] dirpath t) = count_files t.
Proof.
  induction t as [name filenames subdirs IH] using dirtree_induction.
  intros dirpath. cbn [Shared.walk count_files andb].
  rewrite length_app, length_map. f_equal.
  apply length_flat_map_sum. rewrite Forall_forall in *.
  intros sub Hsub. apply IH. exact Hsub.
Qed.

Lemma walk_at_most (excludes : list pystr) (t : dirtree) :
  forall dirpath,
    (length (Shared.walk env excludes dirpath t) <= count_files t)%nat.
Proof.
  induction t as [name filenames subdirs IH] using dirtree_induction.
  intros dirpath. cbn [Shared.walk count_files].
  destruct (_ && Shared.is_within_excludes env dirpath excludes);
    [cbn; lia|].
  rewrite length_app, length_map. apply Nat.add_le_mono_l.
  induction IH as [|sub r Hsub _ IHr]; cbn [flat_map map]; [cbn; lia|].
  rewrite length_app.
  change (list_sum (count_files sub :: map count_files r))
    with (count_files sub + list_sum (map count_files r))%nat.
  destruct (_ && Shared.is_within_excludes env _ excludes).
  - cbn [length]. lia.
  - specialize (Hsub (join env dirpath (dirname sub))). lia.
Qed.

(** ** The properties *)

(** X8. [is_within_excludes] compares strings, not path components: a
    path is within the exclusions exactly when its normalised,
    lower-cased form begins with the normalised, lower-cased form of
    one of them, whatever follows (a separator or not). *)
Theorem is_within_excludes_iff (path : pystr) (excludes : list pystr) :
  Shared.is_within_excludes env path excludes = true
  <-> exists ex rest,
        In ex excludes
        /\ lower env (normpath env path)
           = lower env (normpath env ex) ++ rest.
Proof.
  unfold Shared.is_within_excludes. cbv zeta. rewrite existsb_exists. split.
  - intros (ex & Hin & Hs). apply startswith_iff in Hs.
    destruct Hs as [rest E]. exists ex, rest. auto.
  - intros (ex & rest & Hin & E). exists ex. split; [exact Hin|].
    apply startswith_iff. exists rest. exact E.
Qed.


(** X10. An entry is a cloud placeholder exactly when its attributes
    can be read and have a bit in common with one of the three flags
    (offline, recall on data access, recall on open); an entry whose
    attributes cannot be read is not one. *)
Theorem is_cloud_placeholder_iff (path : pystr) :
  Shared.is_cloud_placeholder env path = true
  <-> exists attrs,
        st_file_attributes (stat_of env path) = Some attrs
        /\ (Z.land attrs Shared.FILE_ATTRIBUTE_OFFLINE <> 0%Z
            \/ Z.land attrs (FILE_ATTRIBUTE_RECALL_ON_DATA_ACCESS env) <> 0%Z
            \/ Z.land attrs (FILE_ATTRIBUTE_RECALL_ON_OPEN env) <> 0%Z).
Proof.
  unfold Shared.is_cloud_placeholder.
  destruct (st_file_attributes (stat_of env path)) as [attrs|].
  - cbv zeta. rewrite negb_true_iff, Z.eqb_neq, !Z.land_lor_distr_r.
    rewrite !Z.lor_eq_0_iff. split.
    + intros H. exists attrs. split; [reflexivity|].
      destruct (Z.eq_dec (Z.land attrs Shared.FILE_ATTRIBUTE_OFFLINE) 0);
        [|left; assumption].
      destruct (Z.eq_dec
                  (Z.land attrs (FILE_ATTRIBUTE_RECALL_ON_DATA_ACCESS env)) 0);
        [|right; left; assumption].
      right. right. intros E. apply H. auto.
    + intros (a & E & H). injection E as <-. intros [[H1 H2] H3].
      destruct H as [H | [H | H]]; contradiction.
  - split; [discriminate|]. intros (a & E & _). discriminate.
Qed.

End WithEnv.
End WalkFacts.

(* ================================================================== *)
(** * Proofs: [onedrive_paths] *)
(* ================================================================== *)

Module OneDriveFacts.
Import ListFacts Helpers.

Section WithHost.
Variable env : environment.
Variable h : host.

Lemma seen_iff (k : pystr) (seen : list pystr) :
  existsb (str_eqb k) seen = true <-> In k seen.
Proof.
  rewrite existsb_exists. split.
  - intros (x & Hin & E). apply str_eqb_eq in E. subst. exact Hin.
  - intros Hin. exists k. split; [exact Hin | apply str_eqb_refl].
Qed.

Lemma keep_unseen_spec (paths : list pystr) :
  forall seen,
    let out := keep_unseen env seen paths in
    NoDup (map (seen_key env) out)
    /\ (forall p, In p out -> In p paths /\ ~ In (seen_key env p) seen)
    /\ (forall p, In p paths ->
                  In (seen_key env p) seen
                  \/ exists q, In q out /\ seen_key env q = seen_key env p).
Proof.
  induction paths as [|p r IH]; intros seen; cbn [keep_unseen]; cbv zeta.
  - split; [constructor|]. split; [intros ? []|intros ? []].
  - destruct (existsb (str_eqb (seen_key env p)) seen) eqn:E.
    + apply seen_iff in E. destruct (IH seen) as (Hnd & Hin & Hcov).
      split; [exact Hnd|]. split.
      * intros q Hq. destruct (Hin q Hq). split; [right|]; assumption.
      * intros q [<- | Hq]; [left; exact E | apply Hcov; exact Hq].
    + assert (Hp : ~ In (seen_key env p) seen)
        by (rewrite <- seen_iff; congruence).
      destruct (IH (seen_key env p :: seen)) as (Hnd & Hin & Hcov).
      split; [|split].
      * cbn [map]. constructor; [|exact Hnd].
        intros Hk. apply in_map_iff in Hk. destruct Hk as (q & Eq & Hq).
        destruct (Hin q Hq) as [_ Hn]. apply Hn. left. symmetry. exact Eq.
      * intros q [<- | Hq]; [split; [left; reflexivity | exact Hp]|].
        destruct (Hin q Hq) as [H1 H2]. split; [right; exact H1|].
        intros Hs. apply H2. right. exact Hs.
      * intros q [<- | Hq].
        -- right. exists p. split; [left|]; reflexivity.
        -- destruct (Hcov q Hq) as [[E' | Hs] | (x & Hx & Ex)].
           ++ right. exists p. split; [left; reflexivity | exact E'].
           ++ left. exact Hs.
           ++ right. exists x. split; [right; exact Hx | exact Ex].
Qed.

(** X11. [onedrive_paths] raises only when the profile directory exists
    and cannot be listed.  Otherwise it returns candidates only (the
    values of the three variables and the profile entries named
    [onedrive...]), no two of them with the same normalised,
    lower-cased form, and every candidate is represented by a returned
    path of the same form. *)
Theorem onedrive_paths_unique :
  (onedrive_paths env h = None
   <-> isdir h (base h) = true /\ listdir h (base h) = None)
  /\ forall out,
       onedrive_paths env h = Some out ->
       exists found,
         from_profile env h = Some found
         /\ NoDup (map (seen_key env) out)
         /\ incl out (from_environ env h ++ found)
         /\ forall p, In p (from_environ env h ++ found) ->
                      exists q, In q out /\ seen_key env q = seen_key env p.
Proof.
  unfold onedrive_paths, from_profile. split.
  - destruct (isdir h (base h)); [|split; [discriminate | intros [? _]; discriminate]].
    destruct (listdir h (base h)); cbn [bind].
    + split; [discriminate | intros [_ ?]; discriminate].
    + split; auto.
  - intros out E.
    destruct (if isdir h (base h)
              then names <- listdir h (base h);;
                   Some (map (join env (base h))
                           (filter (fun name =>
                                      startswith (lower env name)
                                        (lit "onedrive")) names))
              else Some []) as [found|]; [|discriminate].
    cbn [bind] in E. injection E as <-. exists found.
    split; [reflexivity|].
    destruct (keep_unseen_spec (from_environ env h ++ found) [])
      as (Hnd & Hin & Hcov).
    split; [exact Hnd|]. split.
    + intros p Hp. apply Hin. exact Hp.
    + intros p Hp. destruct (Hcov p Hp) as [[] | Hq]. exact Hq.
Qed.

End WithHost.
End OneDriveFacts.

(* ================================================================== *)
(** * Proofs: the keys of the name-based finder *)
(* ================================================================== *)

Module KeyFacts.
Import ListFacts Helpers DuplicateFileName.

(** ** Lists under a map that respects a class of characters *)

Section Respect.
Variable g : N -> N.
Variable cls : N -> bool.
Hypothesis respects : forall c, cls (g c) = cls c.

Lemma drop_while_map (l : pystr) :
  drop_while cls (map g l) = map g (drop_while cls l).
Proof.
  induction l as [|c r IH]; cbn [map drop_while]; [reflexivity|].
  rewrite respects. destruct (cls c); [exact IH | reflexivity].
Qed.

Lemma take_while_map (l : pystr) :
  take_while cls (map g l) = map g (take_while cls l).
Proof.
  induction l as [|c r IH]; cbn [map take_while]; [reflexivity|].
  rewrite respects. destruct (cls c); [cbn [map]; rewrite IH|]; reflexivity.
Qed.

Lemma existsb_map_respect (l : pystr) : existsb cls (map g l) = existsb cls l.
Proof.
  induction l as [|c r IH]; cbn [map existsb]; [reflexivity|].
  rewrite respects, IH. reflexivity.
Qed.

Lemma rfind_from_map (l : pystr) (i last : Z) :
  OsPath.rfind_from cls (map g l) i last = OsPath.rfind_from cls l i last.
Proof.
  revert i last. induction l as [|c r IH]; intros i last;
    cbn [map OsPath.rfind_from]; [reflexivity|].
  rewrite respects. apply IH.
Qed.

Lemma sub_runs_map (l : pystr) (in_run : bool) :
  g 32%N = 32%N ->
  sub_runs cls in_run (map g l) = map g (sub_runs cls in_run l).
Proof.
  intros H32. revert in_run.
  induction l as [|c r IH]; intros in_run; cbn [map sub_runs]; [reflexivity|].
  rewrite respects. destruct (cls c).
  - destruct in_run; cbn [map]; rewrite IH, ?H32; reflexivity.
  - cbn [map]. rewrite IH. reflexivity.
Qed.

End Respect.

Lemma slice_map (g : N -> N) (p : pystr) (i j : Z) :
  OsPath.slice (map g p) i j = map g (OsPath.slice p i j).
Proof. unfold OsPath.slice. rewrite skipn_map, firstn_map. reflexivity. Qed.

(** ** The characters [ascii_lower] moves belong to no class *)

Ltac plain_term a :=
  lazymatch a with
  | context [if _ then _ else _] => fail
  | _ => idtac
  end.

Ltac cmp_cases :=
  repeat (match goal with
          | |- context [N.eqb ?a ?b] =>
              plain_term a; destruct (N.eqb a b) eqn:?
          | |- context [N.leb ?a ?b] =>
              plain_term b; destruct (N.leb a b) eqn:?
          | |- context [N.ltb ?a ?b] =>
              plain_term a; destruct (N.ltb a b) eqn:?
          end; cbn [andb orb negb]);
  reflect_hyps; try reflexivity; try lia.

Lemma lower_is_sep (o : os_flavour) (c : N) :
  OsPath.is_sep o (ascii_lower c) = OsPath.is_sep o c.
Proof. unfold OsPath.is_sep, ascii_lower. destruct o; cmp_cases. Qed.

Lemma lower_not_sep (o : os_flavour) (c : N) :
  negb (OsPath.is_sep o (ascii_lower c)) = negb (OsPath.is_sep o c).
Proof. rewrite lower_is_sep. reflexivity. Qed.

Lemma lower_is_dot (c : N) : (ascii_lower c =? 46)%N = (c =? 46)%N.
Proof. unfold ascii_lower. cmp_cases. Qed.

Lemma lower_not_dot (c : N) :
  negb (ascii_lower c =? 46)%N = negb (c =? 46)%N.
Proof. rewrite lower_is_dot. reflexivity. Qed.

Lemma lower_is_colon (c : N) : (ascii_lower c =? 58)%N = (c =? 58)%N.
Proof. unfold ascii_lower. cmp_cases. Qed.

Lemma lower_punctuation (c : N) : punctuation (ascii_lower c) = punctuation c.
Proof. unfold punctuation, ascii_lower. cmp_cases. Qed.

Lemma lower_ts_separator (c : N) :
  ts_separator (ascii_lower c) = ts_separator c.
Proof. unfold ts_separator, ascii_lower. cmp_cases. Qed.

Lemma lower_ts_trailing (c : N) : ts_trailing (ascii_lower c) = ts_trailing c.
Proof. unfold ts_trailing, ascii_lower. cmp_cases. Qed.

Lemma lower_isdecimal (U : unicode_db) (c : N) :
  Unicode.isdecimal U (ascii_lower c) = Unicode.isdecimal U c.
Proof. unfold Unicode.isdecimal, ascii_lower. cmp_cases. Qed.

Lemma lower_isspace (U : unicode_db) (c : N) :
  Unicode.isspace U (ascii_lower c) = Unicode.isspace U c.
Proof. unfold Unicode.isspace, ascii_lower. cmp_cases. Qed.

Lemma lower_casefold_cp (U : unicode_db) (c : N) :
  Unicode.casefold_cp U (ascii_lower c) = Unicode.casefold_cp U c.
Proof.
  unfold Unicode.casefold_cp, ascii_lower. cmp_cases; do 2 f_equal; lia.
Qed.

(** ** Searching from the right, and [splitext] *)

Lemma firstn_len_app {A} (l1 l2 : list A) :
  firstn (Z.to_nat (len l1)) (l1 ++ l2) = l1.
Proof.
  unfold len. rewrite Nat2Z.id.
  induction l1 as [|x r IH]; cbn; [destruct l2; reflexivity|].
  rewrite IH. reflexivity.
Qed.

Lemma skipn_len_app {A} (l1 l2 : list A) :
  skipn (Z.to_nat (len l1)) (l1 ++ l2) = l2.
Proof.
  unfold len. rewrite Nat2Z.id.
  induction l1 as [|x r IH]; cbn; [reflexivity | exact IH].
Qed.

Lemma rfind_from_none (f : N -> bool) (p : pystr) (i last : Z) :
  Forall (fun c => f c = false) p -> OsPath.rfind_from f p i last = last.
Proof.
  intros H. revert i last.
  induction H as [|c r Hc _ IH]; intros i last; cbn [OsPath.rfind_from];
    [reflexivity|].
  rewrite Hc. apply IH.
Qed.

Lemma rfind_from_app (f : N -> bool) (l1 l2 : pystr) (i last : Z) :
  OsPath.rfind_from f (l1 ++ l2) i last
  = OsPath.rfind_from f l2 (i + len l1) (OsPath.rfind_from f l1 i last).
Proof.
  revert i last. induction l1 as [|c r IH]; intros i last;
    cbn [app OsPath.rfind_from].
  - unfold len. cbn. rewrite Z.add_0_r. reflexivity.
  - rewrite IH, len_cons. f_equal. lia.
Qed.

Lemma rfind_last (f : N -> bool) (l1 : pystr) (c : N) (l2 : pystr) :
  f c = true -> Forall (fun x => f x = false) l2 ->
  OsPath.rfind f (l1 ++ c :: l2) = len l1.
Proof.
  intros Hc H2. unfold OsPath.rfind. rewrite rfind_from_app.
  cbn [OsPath.rfind_from]. rewrite Hc, rfind_from_none by exact H2. lia.
Qed.

Lemma rfind_from_inv (f : N -> bool) (p : pystr) :
  forall i last,
    (OsPath.rfind_from f p i last = last /\ Forall (fun c => f c = false) p)
    \/ exists l1 c l2,
         p = l1 ++ c :: l2 /\ f c = true
         /\ Forall (fun x => f x = false) l2
         /\ OsPath.rfind_from f p i last = (i + len l1)%Z.
Proof.
  induction p as [|c r IH]; intros i last; cbn [OsPath.rfind_from].
  - left. split; [reflexivity | constructor].
  - destruct (IH (i + 1)%Z (if f c then i else last))
      as [[E Hall] | (l1 & x & l2 & -> & Hx & Hl2 & E)].
    + destruct (f c) eqn:Ec.
      * right. exists [], c, r. rewrite E. unfold len. cbn.
        repeat split; [exact Ec | exact Hall | lia].
      * left. split; [exact E | constructor; assumption].
    + right. exists (c :: l1), x, l2. rewrite E, len_cons.
      repeat split; [exact Hx | exact Hl2 | lia].
Qed.

Lemma not_sep_dot (o : os_flavour) : OsPath.is_sep o 46%N = false.
Proof. destruct o; reflexivity. Qed.

Lemma nondot_false (l : pystr) :
  forallb nondot l = true -> Forall (fun c => (c =? 46)%N = false) l.
Proof.
  intros H. apply Forall_forall. intros c Hc.
  rewrite forallb_forall in H. specialize (H c Hc).
  unfold nondot in H. apply negb_true_iff in H. exact H.
Qed.

(** A name without separator whose last dot follows something else
    than dots is split at that dot. *)
Lemma splitext_stem (o : os_flavour) (stem e : pystr) :
  Forall (fun c => OsPath.is_sep o c = false) (stem ++ 46%N :: e) ->
  forallb nondot e = true -> existsb nondot stem = true ->
  OsPath.splitext o (stem ++ 46%N :: e) = (stem, 46%N :: e).
Proof.
  intros Hsep He Hstem. unfold OsPath.splitext. cbv zeta.
  replace (OsPath.rfind (OsPath.is_sep o) (stem ++ 46%N :: e)) with (-1)%Z
    by (symmetry; apply rfind_from_none; exact Hsep).
  rewrite (rfind_last _ stem 46%N e eq_refl (nondot_false e He)).
  replace (len stem >? -1)%Z with true
    by (symmetry; apply Z.gtb_lt; pose proof (len_nonneg stem); lia).
  unfold OsPath.slice. change (-1 + 1)%Z with 0%Z. cbn [Z.to_nat skipn].
  rewrite Z.sub_0_r, firstn_len_app, skipn_len_app.
  change (existsb (fun c => negb (c =? 46)%N) stem) with (existsb nondot stem).
  rewrite Hstem. reflexivity.
Qed.

(** A name without separator that [splitext] splits ends in a dot and
    an extension without dot, after a stem that is not made of dots. *)
Lemma splitext_inv (o : os_flavour) (p : pystr) :
  Forall (fun c => OsPath.is_sep o c = false) p ->
  snd (OsPath.splitext o p) <> [] ->
  exists stem e,
    p = stem ++ 46%N :: e /\ forallb nondot e = true
    /\ existsb nondot stem = true.
Proof.
  intros Hsep. unfold OsPath.splitext, OsPath.rfind. cbv zeta.
  rewrite (rfind_from_none _ p 0 (-1) Hsep).
  destruct (rfind_from_inv (fun c => (c =? 46)%N) p 0 (-1))
    as [[E _] | (l1 & c & l2 & -> & Hc & Hl2 & E)]; rewrite E.
  - cbn. congruence.
  - apply N.eqb_eq in Hc. subst c.
    replace (0 + len l1 >? -1)%Z with true
      by (symmetry; apply Z.gtb_lt; pose proof (len_nonneg l1); lia).
    unfold OsPath.slice. change (-1 + 1)%Z with 0%Z.
    cbn [andb Z.to_nat skipn].
    rewrite Z.add_0_l, Z.sub_0_r, firstn_len_app.
    change (existsb (fun c => negb (c =? 46)%N) l1) with (existsb nondot l1).
    destruct (existsb nondot l1) eqn:Ex; [|cbn; congruence].
    intros _. exists l1, l2. split; [reflexivity|]. split; [|exact Ex].
    apply forallb_forall. intros x Hx. rewrite Forall_forall in Hl2.
    unfold nondot. rewrite (Hl2 x Hx). reflexivity.
Qed.

Lemma take_while_Forall {A} (f : A -> bool) (l : list A) :
  Forall (fun x => f x = true) (take_while f l).
Proof.
  induction l as [|x r IH]; cbn [take_while]; [constructor|].
  destruct (f x) eqn:E; constructor; assumption.
Qed.

Lemma basename_no_sep (o : os_flavour) (p : pystr) :
  Forall (fun c => OsPath.is_sep o c = false) (OsPath.basename o p).
Proof.
  unfold OsPath.basename. apply Forall_rev.
  eapply Forall_impl; [|apply take_while_Forall].
  intros c H. apply negb_true_iff in H. exact H.
Qed.

(** ** [normalized_name] and the case of ASCII letters *)

Lemma splitdrive_eq (o : os_flavour) (p : pystr) :
  OsPath.splitdrive o p
  = match o, p with
    | Nt, a :: b :: r => if (b =? 58)%N then r else p
    | _, _ => p
    end.
Proof.
  destruct o; [destruct p as [|a [|b r]]; reflexivity|].
  destruct p as [|a [|b r]]; try reflexivity.
  destruct (b =? 58)%N eqn:E.
  - apply N.eqb_eq in E. subst b. reflexivity.
  - destruct b as [|q]; [reflexivity|].
    do 7 (try (destruct q as [q|q|]; try reflexivity)); discriminate E.
Qed.

Section WithEnv.
Variable env : environment.

#[local] Abbreviation low := (map ascii_lower).

Lemma splitdrive_lower (p : pystr) :
  OsPath.splitdrive (os env) (low p) = low (OsPath.splitdrive (os env) p).
Proof.
  rewrite !splitdrive_eq.
  destruct (os env), p as [|a [|b r]]; try reflexivity.
  cbn [map]. rewrite lower_is_colon. destruct (b =? 58)%N; reflexivity.
Qed.

Lemma basename_lower (p : pystr) :
  OsPath.basename (os env) (low p) = low (OsPath.basename (os env) p).
Proof.
  unfold OsPath.basename.
  rewrite splitdrive_lower, <- map_rev.
  rewrite (take_while_map ascii_lower _ (lower_not_sep (os env))).
  rewrite map_rev. reflexivity.
Qed.

Lemma splitext_lower (p : pystr) :
  fst (OsPath.splitext (os env) (low p))
  = low (fst (OsPath.splitext (os env) p)).
Proof.
  unfold OsPath.splitext, OsPath.rfind. cbv zeta.
  rewrite (rfind_from_map ascii_lower _ (lower_is_sep (os env))).
  rewrite (rfind_from_map ascii_lower _ lower_is_dot).
  rewrite slice_map.
  rewrite (existsb_map_respect ascii_lower _ lower_not_dot).
  destruct (_ && _); cbn [fst]; rewrite ?firstn_map; reflexivity.
Qed.

Lemma match_digits_lower (n : nat) (s : pystr) :
  match_digits env n (low s) = option_map low (match_digits env n s).
Proof.
  revert s. induction n as [|n IH]; intros s; cbn [match_digits];
    [reflexivity|].
  destruct s as [|c r]; cbn [map]; [reflexivity|].
  rewrite lower_isdecimal.
  destruct (Unicode.isdecimal (unicode env) c); [apply IH | reflexivity].
Qed.

Lemma match_time_part_lower (s : pystr) :
  match_time_part env (low s) = low (match_time_part env s).
Proof.
  unfold match_time_part. cbv zeta. rewrite match_digits_lower.
  destruct s as [|c r]; cbn [map]; [reflexivity|].
  rewrite lower_ts_separator, match_digits_lower.
  change (ascii_lower c :: low r) with (low (c :: r)).
  destruct (ts_separator c), (match_digits env 4 r),
    (match_digits env 4 (c :: r)); reflexivity.
Qed.

Lemma TS_REGEX_match_lower (s : pystr) :
  TS_REGEX_match env (low s) = option_map low (TS_REGEX_match env s).
Proof.
  unfold TS_REGEX_match. rewrite match_digits_lower.
  destruct (match_digits env 8 s) as [r|]; cbn [option_map]; [|reflexivity].
  rewrite match_time_part_lower.
  rewrite (drop_while_map ascii_lower _ lower_ts_trailing). reflexivity.
Qed.

Lemma strip_lower (s : pystr) :
  Unicode.strip (unicode env) (low s) = low (Unicode.strip (unicode env) s).
Proof.
  unfold Unicode.strip.
  rewrite (drop_while_map ascii_lower _ (lower_isspace (unicode env))).
  rewrite <- map_rev.
  rewrite (drop_while_map ascii_lower _ (lower_isspace (unicode env))).
  rewrite map_rev. reflexivity.
Qed.

Lemma casefold_lower (s : pystr) :
  Unicode.casefold (unicode env) (low s) = Unicode.casefold (unicode env) s.
Proof.
  unfold Unicode.casefold.
  induction s as [|c r IH]; cbn [map flat_map]; [reflexivity|].
  rewrite lower_casefold_cp, IH. reflexivity.
Qed.

Lemma clean_lower (candidate : pystr) :
  Unicode.casefold (unicode env)
    (Unicode.strip (unicode env)
       (sub_runs (Unicode.isspace (unicode env)) false
          (sub_runs punctuation false
             match TS_REGEX_match env (low candidate) with
             | Some rest => rest
             | None => low candidate
             end)))
  = Unicode.casefold (unicode env)
      (Unicode.strip (unicode env)
         (sub_runs (Unicode.isspace (unicode env)) false
            (sub_runs punctuation false
               match TS_REGEX_match env candidate with
               | Some rest => rest
               | None => candidate
               end))).
Proof.
  rewrite TS_REGEX_match_lower.
  destruct (TS_REGEX_match env candidate) as [rest|]; cbn [option_map];
    rewrite (sub_runs_map ascii_lower _ lower_punctuation) by reflexivity;
    rewrite (sub_runs_map ascii_lower _ (lower_isspace (unicode env)))
      by reflexivity;
    rewrite strip_lower; apply casefold_lower.
Qed.

Lemma normalized_name_lower (p : pystr) (ignore_ext : bool) :
  normalized_name env (low p) ignore_ext = normalized_name env p ignore_ext.
Proof.
  unfold normalized_name. cbv zeta.
  rewrite basename_lower, splitext_lower.
  destruct ignore_ext; apply clean_lower.
Qed.

(** X12. [normalized_name] does not tell ASCII capitals from small
    letters: two paths that differ only in the case of ASCII letters
    have the same key, with or without the extension. *)
Theorem normalized_name_ignores_case (p q : pystr) (ignore_ext : bool) :
  map ascii_lower p = map ascii_lower q ->
  normalized_name env p ignore_ext = normalized_name env q ignore_ext.
Proof.
  intros E. rewrite <- (normalized_name_lower p), <- (normalized_name_lower q).
  rewrite E. reflexivity.
Qed.

(** ** The extension *)

Lemma basename_stem (p stem e : pystr) :
  OsPath.basename (os env) p = stem ++ 46%N :: e ->
  forallb nondot e = true -> existsb nondot stem = true ->
  fst (OsPath.splitext (os env) (OsPath.basename (os env) p)) = stem.
Proof.
  intros Hb He Hstem. rewrite Hb, splitext_stem; [reflexivity| |exact He|exact Hstem].
  rewrite <- Hb. apply basename_no_sep.
Qed.

(** X13. Without the extension ([ignore_ext]), two files whose base
    names differ only after the last dot have the same key, provided
    the common part before that dot is not made of dots alone. *)
Theorem normalized_name_ignores_extension (p1 p2 stem e1 e2 : pystr) :
  OsPath.basename (os env) p1 = stem ++ 46%N :: e1 ->
  OsPath.basename (os env) p2 = stem ++ 46%N :: e2 ->
  forallb nondot e1 = true -> forallb nondot e2 = true ->
  existsb nondot stem = true ->
  normalized_name env p1 true = normalized_name env p2 true.
Proof.
  intros H1 H2 He1 He2 Hstem. unfold normalized_name. cbv zeta.
  rewrite (basename_stem p1 stem e1 H1 He1 Hstem).
  rewrite (basename_stem p2 stem e2 H2 He2 Hstem). reflexivity.
Qed.

(** ** The time stamp *)

Lemma decimal_not_trailing (c : N) :
  Unicode.isdecimal (unicode env) c = true ->
  ts_trailing c = false /\ ts_separator c = false.
Proof.
  unfold Unicode.isdecimal, ts_trailing, ts_separator.
  destruct (c <? 128)%N eqn:E.
  - intros H. reflect_hyps. split; cmp_cases.
  - intros _. reflect_hyps. split; cmp_cases.
Qed.

Lemma separator_trailing (c : N) :
  ts_separator c = true -> ts_trailing c = true.
Proof.
  unfold ts_separator, ts_trailing. intros H. rewrite H. reflexivity.
Qed.

Lemma match_digits_app (n : nat) (d r : pystr) :
  length d = n -> forallb (Unicode.isdecimal (unicode env)) d = true ->
  match_digits env n (d ++ r) = Some r.
Proof.
  revert d. induction n as [|n IH]; intros [|c d] Hlen Hd;
    try discriminate Hlen; [reflexivity|].
  cbn [app match_digits]. cbn [forallb] in Hd.
  apply andb_true_iff in Hd. destruct Hd as [Hc Hd]. rewrite Hc.
  apply IH; [cbn in Hlen; lia | exact Hd].
Qed.

#[local] Abbreviation no_digit_first := (no_digit_first (unicode env)).

Lemma match_digits_none (n : nat) (s : pystr) :
  no_digit_first s -> match_digits env (S n) s = None.
Proof.
  destruct s as [|c r]; cbn [match_digits no_digit_first]; [reflexivity|].
  intros ->. reflexivity.
Qed.

Lemma trailing_then_plain (seps body : pystr) :
  forallb ts_trailing seps = true ->
  plain_start (unicode env) body = true ->
  no_digit_first (seps ++ body)
  /\ drop_while ts_trailing (seps ++ body) = body.
Proof.
  intros Hs Hb. induction seps as [|c r IH]; cbn [app].
  - destruct body as [|b body]; [split; [exact I | reflexivity]|].
    cbn [plain_start] in Hb. apply andb_true_iff in Hb.
    destruct Hb as [Hd Ht]. apply negb_true_iff in Hd, Ht.
    split; [exact Hd|]. cbn [drop_while]. rewrite Ht. reflexivity.
  - cbn [forallb] in Hs. apply andb_true_iff in Hs. destruct Hs as [Hc Hr].
    destruct (IH Hr) as [_ Hdrop]. split.
    + cbn [no_digit_first].
      destruct (Unicode.isdecimal (unicode env) c) eqn:E; [|reflexivity].
      destruct (decimal_not_trailing c E). congruence.
    + cbn [drop_while]. rewrite Hc. exact Hdrop.
Qed.

Lemma match_time_part_plain (seps body : pystr) :
  forallb ts_trailing seps = true ->
  plain_start (unicode env) body = true ->
  match_time_part env (seps ++ body) = seps ++ body.
Proof.
  intros Hs Hb. unfold match_time_part. cbv zeta.
  destruct (trailing_then_plain seps body Hs Hb) as [Hnd _].
  rewrite (match_digits_none 3 _ Hnd).
  destruct (seps ++ body) as [|c r] eqn:E; [reflexivity|].
  destruct (ts_separator c) eqn:Ec; [|reflexivity].
  destruct seps as [|c' seps'].
  - cbn [app] in E. subst body. cbn [plain_start] in Hb.
    apply andb_true_iff in Hb. destruct Hb as [_ Ht].
    apply negb_true_iff in Ht. apply separator_trailing in Ec. congruence.
  - cbn [app] in E. injection E as -> <-.
    cbn [forallb] in Hs. apply andb_true_iff in Hs. destruct Hs as [_ Hr].
    destruct (trailing_then_plain seps' body Hr Hb) as [Hnd' _].
    rewrite (match_digits_none 3 _ Hnd'). reflexivity.
Qed.

Lemma match_time_part_stamp (tm rest : pystr) :
  is_time (unicode env) tm = true -> tm <> [] ->
  match_time_part env (tm ++ rest) = rest.
Proof.
  intros Ht Hne. destruct tm as [|c r]; [congruence|].
  unfold is_time in Ht. unfold match_time_part. cbv zeta. cbn [app].
  apply orb_true_iff in Ht. destruct Ht as [Ht | Ht].
  - apply andb_true_iff in Ht. destruct Ht as [Hlen Hd].
    apply Nat.eqb_eq in Hlen.
    change (c :: r ++ rest) with ((c :: r) ++ rest).
    rewrite (match_digits_app 4 (c :: r) rest Hlen Hd).
    cbn [forallb] in Hd. apply andb_true_iff in Hd. destruct Hd as [Hc _].
    destruct (decimal_not_trailing c Hc) as [_ Hsep]. rewrite Hsep.
    reflexivity.
  - apply andb_true_iff in Ht. destruct Ht as [Ht Hd].
    apply andb_true_iff in Ht. destruct Ht as [Hsep Hlen].
    apply Nat.eqb_eq in Hlen. rewrite Hsep.
    rewrite (match_digits_app 4 r rest Hlen Hd). reflexivity.
Qed.

(** The regular expression takes the stamp and what separates it from
    the name, and nothing of a name that starts plainly. *)
Lemma TS_REGEX_match_stamp (date tm seps body : pystr) :
  is_date (unicode env) date = true -> is_time (unicode env) tm = true ->
  forallb ts_trailing seps = true ->
  plain_start (unicode env) body = true ->
  TS_REGEX_match env (date ++ tm ++ seps ++ body) = Some body
  /\ TS_REGEX_match env body = None.
Proof.
  intros Hdate Htm Hs Hb. unfold is_date in Hdate.
  apply andb_true_iff in Hdate. destruct Hdate as [Hlen Hd].
  apply Nat.eqb_eq in Hlen.
  destruct (trailing_then_plain seps body Hs Hb) as [_ Hdrop].
  split.
  - unfold TS_REGEX_match. rewrite (match_digits_app 8 date _ Hlen Hd).
    f_equal. destruct tm as [|c r] eqn:E.
    + cbn [app]. rewrite (match_time_part_plain seps body Hs Hb). exact Hdrop.
    + rewrite <- E in *. rewrite match_time_part_stamp;
        [exact Hdrop | exact Htm | congruence].
  - unfold TS_REGEX_match.
    destruct (trailing_then_plain [] body eq_refl Hb) as [Hnd _].
    cbn [app] in Hnd. rewrite (match_digits_none 7 _ Hnd). reflexivity.
Qed.

Lemma plain_start_stem (stem e : pystr) :
  existsb nondot stem = true ->
  plain_start (unicode env) (stem ++ 46%N :: e) = true ->
  plain_start (unicode env) stem = true.
Proof.
  destruct stem as [|c r]; [discriminate|]. intros _ H. exact H.
Qed.

(** X14. A leading time stamp does not count: a file whose base name is
    a date of eight digits, an optional time of four digits (after [-],
    [_] or a space, or directly), any run of [-], [_], space and dot,
    and then the base name of another file, has the key of that other
    file, as long as that name starts with no digit and none of these
    separators and, when the extension is ignored, has an extension. *)
Theorem normalized_name_strips_stamp (p q date tm seps : pystr)
  (ignore_ext : bool) :
  is_date (unicode env) date = true -> is_time (unicode env) tm = true ->
  forallb ts_trailing seps = true ->
  OsPath.basename (os env) p
  = date ++ tm ++ seps ++ OsPath.basename (os env) q ->
  plain_start (unicode env) (OsPath.basename (os env) q) = true ->
  (ignore_ext = true ->
   snd (OsPath.splitext (os env) (OsPath.basename (os env) q)) <> []) ->
  normalized_name env p ignore_ext = normalized_name env q ignore_ext.
Proof.
  intros Hdate Htm Hs Hp Hq Hext. unfold normalized_name. cbv zeta.
  destruct ignore_ext.
  - destruct (splitext_inv (os env) _ (basename_no_sep (os env) q)
                (Hext eq_refl)) as (stem & e & Eq & He & Hstem).
    rewrite (basename_stem q stem e Eq He Hstem).
    assert (Ep : OsPath.basename (os env) p
                 = (date ++ tm ++ seps ++ stem) ++ 46%N :: e)
      by (rewrite Hp, Eq, <- !app_assoc; reflexivity).
    rewrite (basename_stem p _ e Ep He)
      by (rewrite !existsb_app, Hstem, !orb_true_r; reflexivity).
    rewrite Eq in Hq. apply plain_start_stem in Hq; [|exact Hstem].
    destruct (TS_REGEX_match_stamp date tm seps stem Hdate Htm Hs Hq)
      as [-> ->]. reflexivity.
  - rewrite Hp.
    destruct (TS_REGEX_match_stamp date tm seps _ Hdate Htm Hs Hq)
      as [-> ->]. reflexivity.
Qed.

End WithEnv.

Lemma normalized_name_ignores_case_witness :
  normalized_name Examples.scenario (lit "/r/a/Report.PDF") false
  = normalized_name Examples.scenario (lit "/R/a/REPORT.pdf") false.
Proof.
  apply (normalized_name_ignores_case Examples.scenario
           (lit "/r/a/Report.PDF") (lit "/R/a/REPORT.pdf") false).
  reflexivity.
Defined.

Lemma normalized_name_ignores_extension_witness :
  normalized_name Examples.scenario (lit "/r/a/photo.jpg") true
  = normalized_name Examples.scenario (lit "/r/b/photo.png") true.
Proof.
  apply (normalized_name_ignores_extension Examples.scenario
           (lit "/r/a/photo.jpg") (lit "/r/b/photo.png")
           (lit "photo") (lit "jpg") (lit "png")); reflexivity.
Defined.

Lemma normalized_name_strips_stamp_witness :
  normalized_name Examples.scenario Examples.report_a true
  = normalized_name Examples.scenario Examples.report_b true.
Proof.
  apply (normalized_name_strips_stamp Examples.scenario
           Examples.report_a Examples.report_b
           (lit "20240101") (lit "-0800") (lit "_") true);
    try reflexivity.
  intros _. vm_compute. discriminate.
Defined.

End KeyFacts.

(* ================================================================== *)
(** * Proofs: the groups of the name-based finder *)
(* ================================================================== *)

Module NameGroups.
Import ListFacts Helpers DuplicateFileName.

Lemma StronglySorted_before {A} (R : A -> A -> Prop) (l1 l2 l3 : list A)
  (a b : A) :
  StronglySorted R (l1 ++ a :: l2 ++ b :: l3) -> R a b.
Proof.
  induction l1 as [|x l1 IH]; cbn [app]; intros H; inversion H as [|? ? Hs Hall];
    subst.
  - rewrite Forall_forall in Hall. apply Hall.
    apply in_or_app. right. left. reflexivity.
  - apply IH. exact Hs.
Qed.

Lemma key_le_total (a b : Z * Z * pystr) :
  key_le a b = true \/ key_le b a = true.
Proof.
  destruct a as [[a1 a2] a3], b as [[b1 b2] b3]. unfold key_le.
  destruct (str_leb_total a3 b3) as [H | H]; rewrite H;
    destruct (Z.compare_spec a1 b1), (Z.compare_spec a2 b2); subst;
    rewrite ?Z.ltb_irrefl, ?Z.eqb_refl; cbn [andb orb]; auto;
    repeat match goal with
           | H : (?x < ?y)%Z |- _ =>
               rewrite (proj2 (Z.ltb_lt x y) H); clear H
           end; cbn [andb orb]; auto;
    rewrite ?orb_true_r; auto.
Qed.

Lemma key_le_iff (a b : Z * Z * pystr) :
  key_le a b = true
  <-> (fst (fst a) < fst (fst b))%Z
      \/ (fst (fst a) = fst (fst b)
          /\ ((snd (fst a) < snd (fst b))%Z
              \/ (snd (fst a) = snd (fst b)
                  /\ str_leb (snd a) (snd b) = true))).
Proof.
  destruct a as [[a1 a2] a3], b as [[b1 b2] b3]. unfold key_le. cbn [fst snd].
  rewrite !orb_true_iff, !andb_true_iff, !orb_true_iff, !andb_true_iff,
    !Z.ltb_lt, !Z.eqb_eq. reflexivity.
Qed.

Lemma key_le_trans (a b c : Z * Z * pystr) :
  key_le a b = true -> key_le b c = true -> key_le a c = true.
Proof.
  rewrite !key_le_iff.
  intros [H1 | [E1 [H1 | [F1 S1]]]] [H2 | [E2 [H2 | [F2 S2]]]];
    try (left; lia); right; (split; [lia|]); try (left; lia).
  right. split; [lia|]. eapply str_leb_trans; eassumption.
Qed.

Section WithEnv.
Variable env : environment.
Variables (min_size : Z) (include_cloud ignore_ext : bool).

#[local] Abbreviation scan_entry :=
  (scan_entry env min_size include_cloud ignore_ext).

(** The files of the walk that are admitted under the key [k]. *)
#[local] Abbreviation under_key k :=
  (filter (fun f => negb (passed_over env min_size include_cloud f)
                    && str_eqb (normalized_name env f ignore_ext) k)).

Lemma scan_entry_groups (st : scan_state) (fpath : pystr) :
  (passed_over env min_size include_cloud fpath = true
   /\ groups (scan_entry st fpath) = groups st)
  \/ (passed_over env min_size include_cloud fpath = false
      /\ exists size mtime,
           groups (scan_entry st fpath)
           = dict_append str_eqb (normalized_name env fpath ignore_ext)
               (fpath, size, mtime) (groups st)).
Proof.
  unfold passed_over, Shared.not_eligible, Shared.size_raises,
    Shared.too_small, Shared.mtime_raises, DuplicateFileName.scan_entry,
    is_cloud_placeholder.
  cbv zeta.
  destruct (negb (isfile (stat_of env fpath)) || islink (stat_of env fpath));
    cbn [orb]; [left; auto|].
  destruct (negb include_cloud && Shared.is_cloud_placeholder env fpath);
    cbn [orb]; [left; auto|].
  destruct (getsize (stat_of env fpath)) as [size|]; cbn [orb]; [|left; auto].
  destruct (size <? min_size)%Z; cbn [orb]; [left; auto|].
  destruct (getmtime (stat_of env fpath)) as [mtime|]; [|left; auto].
  right. split; [reflexivity|]. exists size, mtime. reflexivity.
Qed.

Lemma scan_fold_groups (visited : list pystr) :
  forall st,
    NoDup (map fst (groups st)) ->
    let st' := fold_left scan_entry visited st in
    NoDup (map fst (groups st'))
    /\ forall k,
         map member_path (dict_get str_eqb k (groups st'))
         = map member_path (dict_get str_eqb k (groups st))
           ++ under_key k visited.
Proof.
  induction visited as [|f r IH]; intros st Hnd; cbn [fold_left filter].
  - split; [exact Hnd|]. intros k. rewrite app_nil_r. reflexivity.
  - destruct (scan_entry_groups st f) as [[Hp Hg] | [Hp (size & mtime & Hg)]].
    + destruct (IH (scan_entry st f)) as [Hnd' Hget];
        [rewrite Hg; exact Hnd|].
      split; [exact Hnd'|]. intros k. rewrite Hget, Hg, Hp. reflexivity.
    + destruct (IH (scan_entry st f)) as [Hnd' Hget].
      { rewrite Hg. apply dict_append_NoDup; [apply str_eqb_eq | exact Hnd]. }
      split; [exact Hnd'|]. intros k. rewrite Hget, Hg, Hp. cbn [negb andb].
      rewrite (dict_get_append str_eqb str_eqb_eq).
      destruct (str_eqb k (normalized_name env f ignore_ext)) eqn:E.
      * apply str_eqb_eq in E. subst k. rewrite str_eqb_refl.
        rewrite map_app, <- app_assoc. reflexivity.
      * replace (str_eqb (normalized_name env f ignore_ext) k) with false;
          [reflexivity|].
        symmetry. apply str_eqb_neq. apply str_eqb_neq in E. congruence.
Qed.

Lemma scan_groups (visited : list pystr) :
  let st := fold_left scan_entry visited
              {| groups := []; scanned := 0; skipped := 0 |} in
  NoDup (map fst (groups st))
  /\ forall k,
       map member_path (dict_get str_eqb k (groups st)) = under_key k visited.
Proof.
  destruct (scan_fold_groups visited
              {| groups := []; scanned := 0; skipped := 0 |})
    as [Hnd Hget]; [constructor|].
  split; [exact Hnd|]. intros k. rewrite Hget. reflexivity.
Qed.

Lemma NoDup_map_filter {A B} (g : A -> B) (f : A -> bool) (l : list A) :
  NoDup (map g l) -> NoDup (map g (filter f l)).
Proof.
  induction l as [|x r IH]; cbn [map filter]; intros H; [constructor|].
  inversion H as [|? ? Hx Hr]; subst.
  destruct (f x); [|apply IH; exact Hr].
  cbn [map]. constructor; [|apply IH; exact Hr].
  intros Hin. apply Hx. apply in_map_iff in Hin.
  destruct Hin as (y & E & Hy). apply filter_In in Hy.
  apply in_map_iff. exists y. tauto.
Qed.

(** X15. What [scan_by_name] reports, in terms of the walk: every
    reported group holds, in the order of the walk, exactly the files
    that were not passed over and whose normalised name is the key of
    the group; every non-empty key that at least two such files share
    is reported; no key is reported twice. *)
Theorem scan_by_name_groups_by_key (root : dirtree) (root_path : pystr)
  (ignores : list pystr) :
  let r := scan_by_name env root root_path min_size ignores include_cloud
             ignore_ext in
  let visited := Shared.walk env ignores root_path root in
  (forall k members,
      In (k, members) (GROUPS r) ->
      map member_path members = under_key k visited)
  /\ (forall k,
        k <> [] -> (2 <= len (under_key k visited))%Z ->
        exists members, In (k, members) (GROUPS r))
  /\ NoDup (map fst (GROUPS r)).
Proof.
  cbv zeta. unfold scan_by_name. cbn [GROUPS].
  destruct (scan_groups (Shared.walk env ignores root_path root))
    as [Hnd Hget].
  cbv zeta in Hnd, Hget. split; [|split].
  - intros k members Hin. apply sorted_In in Hin. apply filter_In in Hin.
    destruct Hin as [Hin _]. rewrite <- Hget.
    rewrite (dict_get_In str_eqb str_eqb_eq k members _ Hnd Hin). reflexivity.
  - intros k Hk Hlen. eexists. apply sorted_In. apply filter_In. split.
    + apply (dict_get_nonempty_In str_eqb str_eqb_eq k).
      intros E. specialize (Hget k). rewrite E in Hget. cbn [map] in Hget.
      rewrite <- Hget in Hlen. unfold len in Hlen. cbn in Hlen. lia.
    + cbn [fst snd]. apply andb_true_iff. split.
      * apply Z.geb_le. specialize (Hget k). rewrite <- Hget in Hlen.
        unfold len in *. rewrite length_map in Hlen. lia.
      * destruct k; [congruence | reflexivity].
  - eapply Permutation_NoDup.
    + apply Permutation_map. apply Permutation_sym. apply sorted_perm.
    + apply NoDup_map_filter. exact Hnd.
Qed.

(** X16. The order of the report of [scan_by_name]: a group comes
    before every group with fewer files; among groups with as many
    files, before those with a smaller total size; among groups equal in
    both, in ascending order of the keys. *)
Theorem scan_by_name_order (root : dirtree) (root_path : pystr)
  (ignores : list pystr) (l1 l2 l3 : list (pystr * list member))
  (a b : pystr * list member) :
  GROUPS (scan_by_name env root root_path min_size ignores include_cloud
            ignore_ext)
  = l1 ++ a :: l2 ++ b :: l3 ->
  (len (snd b) <= len (snd a))%Z
  /\ (len (snd a) = len (snd b) ->
      (total_size (snd b) <= total_size (snd a))%Z
      /\ (total_size (snd a) = total_size (snd b) ->
          str_leb (fst a) (fst b) = true)).
Proof.
  unfold scan_by_name. cbn [GROUPS]. intros E.
  match type of E with
  | sorted ?le ?l = _ =>
      pose proof (sorted_StronglySorted le
                    (fun x y => key_le_total (grp_sort x) (grp_sort y))
                    (fun x y z => key_le_trans (grp_sort x) (grp_sort y)
                                    (grp_sort z)) l) as Hs
  end.
  rewrite E in Hs. apply StronglySorted_before in Hs.
  apply key_le_iff in Hs. unfold grp_sort in Hs. cbn [fst snd] in Hs.
  destruct Hs as [H | [E1 [H | [E2 Hs]]]].
  - split; [lia|]. intros; lia.
  - split; [lia|]. intros _. split; [lia|]. intros; lia.
  - split; [lia|]. intros _. split; [lia|]. intros _. exact Hs.
Qed.

End WithEnv.

Lemma scan_by_name_order_witness :
  (len (snd Samples.album_y_names) <= len (snd Samples.album_x_names))%Z
  /\ (len (snd Samples.album_x_names) = len (snd Samples.album_y_names) ->
      (total_size (snd Samples.album_y_names)
       <= total_size (snd Samples.album_x_names))%Z
      /\ (total_size (snd Samples.album_x_names)
          = total_size (snd Samples.album_y_names) ->
          str_leb (fst Samples.album_x_names) (fst Samples.album_y_names)
          = true)).
Proof.
  apply (scan_by_name_order Samples.album (10 * Examples.MiB) false true
           Samples.album_tree (lit "/r") [] [] [] []
           Samples.album_x_names Samples.album_y_names).
  vm_compute. reflexivity.
Defined.

End NameGroups.

(* ================================================================== *)
(** * Proofs: whole runs of the size-based finder *)
(* ================================================================== *)

Module RunFacts.
Import ListFacts DuplicateFileSizeFinder HashFacts SizeFacts BudgetFacts Runs.

Lemma index_In (p : pystr) (l : list pystr) :
  In p l -> exists i, index p l = Some i.
Proof.
  induction l as [|x r IH]; [intros []|]. cbn [index].
  destruct (str_eqb x p) eqn:E; [intros _; eexists; reflexivity|].
  intros [-> | H]; [rewrite str_eqb_refl in E; discriminate|].
  destruct (IH H) as [i ->]. eexists. reflexivity.
Qed.

(** ** What the requests do to a waiting worker *)

Lemma resume_accepted (g : globals) (data : resume_body) :
  RESUME_EVENT (fst (resume g data))
  = (accepted data || RESUME_EVENT g).
Proof.
  unfold resume, accepted.
  destruct (action_is data (lit "continue")); [reflexivity|].
  destruct (action_is data (lit "raise")); [|reflexivity].
  destruct (new_min_size data) as [|n|]; try reflexivity.
  destruct (n <? 1024 * 1024)%Z; reflexivity.
Qed.

Lemma resume_rejected (g : globals) (data : resume_body) :
  accepted data = false -> fst (resume g data) = g.
Proof.
  unfold resume, accepted.
  destruct (action_is data (lit "continue")); [discriminate|].
  destruct (action_is data (lit "raise")); [|reflexivity].
  destruct (new_min_size data) as [|n|]; try reflexivity.
  destruct (n <? 1024 * 1024)%Z; [reflexivity | discriminate].
Qed.

Lemma deliver_rejected (requests : list (Q * resume_body)) :
  forall t g,
    RESUME_EVENT g = false ->
    forallb (fun r => negb (accepted (snd r))) requests = true ->
    deliver requests t g = None.
Proof.
  induction requests as [|[delay body] r IH]; intros t g Hg Hall;
    cbn [deliver]; [reflexivity|].
  cbn [forallb snd] in Hall. apply andb_true_iff in Hall.
  destruct Hall as [Hb Hr]. apply negb_true_iff in Hb.
  rewrite (resume_rejected g body Hb), Hg. apply IH; assumption.
Qed.

Lemma deliver_first_accepted (pre : list (Q * resume_body)) :
  forall t g delay body post,
    RESUME_EVENT g = false ->
    forallb (fun r => negb (accepted (snd r))) pre = true ->
    accepted body = true ->
    deliver (pre ++ (delay, body) :: post) t g
    = Some (fold_left (fun t r => t + fst r) pre t + delay,
            fst (resume g body), post).
Proof.
  induction pre as [|[d b] r IH]; intros t g delay body post Hg Hall Hb;
    cbn [app deliver fold_left].
  - rewrite resume_accepted, Hb. reflexivity.
  - cbn [forallb snd] in Hall. apply andb_true_iff in Hall.
    destruct Hall as [Hb' Hr]. apply negb_true_iff in Hb'.
    rewrite (resume_rejected g b Hb'), Hg. cbn [fst]. apply IH; assumption.
Qed.


Section WithEnv.
Variable env : environment.

Section Loop.
Variable time_budget_sec : Z.
Variable started : Q.
Variable total_to_hash : Z.

#[local] Abbreviation checkpoint := (checkpoint time_budget_sec started total_to_hash).
#[local] Abbreviation hash_files := (hash_files env time_budget_sec started total_to_hash).
#[local] Abbreviation hash_jobs := (hash_jobs env time_budget_sec started total_to_hash).
#[local] Abbreviation before_wait := (before_wait started total_to_hash).
#[local] Abbreviation here := (outcome_worker (fun w : worker => w)).

(** ** A check point, however it ends *)

Lemma checkpoint_blocked (w w1 : worker) :
  checkpoint w = Blocked w1 ->
  w1 = before_wait w /\ done w1 = done w /\ hashed w1 = hashed w
  /\ groups w1 = groups w.
Proof.
  destruct (before_wait_frame started total_to_hash w) as (B1 & B2 & B3 & _).
  destruct (checkpoint_cases time_budget_sec started total_to_hash w)
    as [(w2 & -> & _) | [[-> _] | ->]]; intros E; try discriminate.
  injection E as <-. auto.
Qed.

Lemma checkpoint_not_raised (w w1 : worker) : checkpoint w <> Raised w1.
Proof.
  destruct (checkpoint_cases time_budget_sec started total_to_hash w)
    as [(w2 & -> & _) | [[-> _] | ->]]; discriminate.
Qed.

(** ** The files that are read *)

Lemma hash_files_any (size : Z) (paths rest : list pystr) :
  incl rest paths ->
  forall w,
    (forall w', hash_files size paths rest w <> Raised w')
    /\ exists l,
         hashed (here (hash_files size paths rest w)) = hashed w ++ l
         /\ incl l rest.
Proof.
  induction rest as [|p rest IH]; intros Hincl w.
  - cbn. split; [discriminate|]. exists []. rewrite app_nil_r.
    split; [reflexivity | apply incl_refl].
  - rewrite hash_files_step.
    destruct (checkpoint w) as [[waited w1] | w1 | w1] eqn:Ec.
    + destruct (checkpoint_frame _ _ _ _ _ _ Ec) as (_ & _ & Hh).
      destruct (waited && (size <? min_size_ref (shared w1))%Z).
      * destruct (index_In p paths) as [i ->];
          [apply Hincl; left; reflexivity|].
        split; [discriminate|]. exists []. cbn. rewrite Hh, app_nil_r.
        split; [reflexivity | intros ? []].
      * destruct (IH (fun x Hx => Hincl x (or_intror Hx))
                    (hash_one env size p w1)) as [Hr (l & Hl & Hi)].
        split; [exact Hr|]. exists (p :: l).
        destruct (hash_one_frame env size p w1) as (_ & H1 & _).
        rewrite Hl, H1, Hh, <- app_assoc. split; [reflexivity|].
        intros x [<- | Hx]; [left; reflexivity | right; apply Hi; exact Hx].
    + destruct (checkpoint_blocked _ _ Ec) as (_ & _ & Hh & _).
      split; [discriminate|]. exists []. cbn. rewrite Hh, app_nil_r.
      split; [reflexivity | intros ? []].
    + destruct (checkpoint_not_raised _ _ Ec).
Qed.

Lemma hash_jobs_any (jobs : list (Z * list pystr)) :
  forall w,
    (forall w', hash_jobs jobs w <> Raised w')
    /\ exists l,
         hashed (here (hash_jobs jobs w)) = hashed w ++ l
         /\ incl l (flat_map snd jobs).
Proof.
  induction jobs as [|[size paths] jobs IH]; intros w.
  - cbn. split; [discriminate|]. exists []. rewrite app_nil_r.
    split; [reflexivity | apply incl_refl].
  - cbn [flat_map snd].
    destruct (size <? min_size_ref (shared w))%Z eqn:El.
    + destruct (hash_jobs_skip env time_budget_sec started total_to_hash
                  size paths jobs w El) as (w1 & E & _ & _ & Hh & _).
      rewrite E. destruct (IH w1) as [Hr (l & Hl & Hi)].
      split; [exact Hr|]. exists l. rewrite Hl, Hh.
      split; [reflexivity | apply incl_appr; exact Hi].
    + rewrite (hash_jobs_step _ _ _ _ _ _ _ _ El).
      destruct (hash_files_any size paths paths (incl_refl _) w)
        as [Hr (l1 & Hl1 & Hi1)].
      destruct (hash_files size paths paths w) as [w1 | w1 | w1] eqn:Ef.
      * cbn [outcome_worker] in Hl1.
        destruct (IH w1) as [Hr' (l & Hl & Hi)].
        split; [exact Hr'|]. exists (l1 ++ l).
        rewrite Hl, Hl1, app_assoc. split; [reflexivity|].
        apply incl_app; [apply incl_appl | apply incl_appr]; assumption.
      * cbn [outcome_worker] in *. split; [discriminate|].
        exists l1. split; [exact Hl1 | apply incl_appl; exact Hi1].
      * destruct (Hr w1 eq_refl).
Qed.


(** ** A worker that waits *)

Lemma hash_files_blocked (size : Z) (paths rest : list pystr) :
  forall w w1,
    hash_files size paths rest w = Blocked w1 -> exists w2, w1 = before_wait w2.
Proof.
  induction rest as [|p rest IH]; intros w w1; [discriminate|].
  rewrite hash_files_step.
  destruct (checkpoint w) as [[waited w'] | w' | w'] eqn:Ec.
  - destruct (waited && (size <? min_size_ref (shared w'))%Z).
    + destruct (index p paths); discriminate.
    + apply IH.
  - intros E. injection E as <-.
    destruct (checkpoint_blocked _ _ Ec) as [-> _]. eexists. reflexivity.
  - discriminate.
Qed.

Lemma hash_jobs_blocked (jobs : list (Z * list pystr)) :
  forall w w1,
    hash_jobs jobs w = Blocked w1 -> exists w2, w1 = before_wait w2.
Proof.
  induction jobs as [|[size paths] jobs IH]; intros w w1; [discriminate|].
  destruct (size <? min_size_ref (shared w))%Z eqn:El.
  - destruct (hash_jobs_skip env time_budget_sec started total_to_hash
                size paths jobs w El) as (w' & E & _).
    rewrite E. apply IH.
  - rewrite (hash_jobs_step _ _ _ _ _ _ _ _ El).
    destruct (hash_files size paths paths w) as [w' | w' | w'] eqn:Ef.
    + apply IH.
    + intros E. injection E as <-. eapply hash_files_blocked. exact Ef.
    + discriminate.
Qed.

Lemma before_wait_state (w : worker) :
  Status.state (STATUS (shared (before_wait w))) = NeedsTuning
  /\ RESUME_EVENT (shared (before_wait w)) = false
  /\ Status.suggest_min_size (STATUS (shared (before_wait w)))
     = Some (Z.max (min_size_ref (shared (before_wait w)) * 2)
               (50 * 1024 * 1024)).
Proof.
  unfold DuplicateFileSizeFinder.before_wait.
  destruct (refresh_average_frame w) as (_ & _ & _ & Hs & _).
  unfold announce_tuning, publish_progress, min_size_ref. cbv zeta.
  cbn [shared with_shared set_status clear STATUS RESUME_EVENT
         CURRENT_MIN_SIZE fold_left Status.state Status.suggest_min_size
         Status.set_state Status.set_suggest_min_size Status.set_message].
  repeat split.
Qed.

(** ** A budget that is used up *)

#[local] Abbreviation remaining_budget :=
  (remaining_budget time_budget_sec started).
#[local] Abbreviation publish_progress :=
  (publish_progress started total_to_hash).

Lemma checkpoint_spent (w : worker) :
  remaining_budget w <= 0 ->
  checkpoint w = Finished (false, publish_progress (refresh_average w)).
Proof.
  intros H. rewrite checkpoint_unfold. unfold over_budget.
  replace (Qltb 0 (remaining_budget w)) with false; [reflexivity|].
  symmetry. unfold Qltb. apply negb_false_iff. apply Qle_bool_iff. exact H.
Qed.

Section Spent.
Hypothesis cost_nonneg : forall p, 0 <= hash_cost env p.

Lemma hash_files_spent (size : Z) (paths rest : list pystr) :
  forall w,
    remaining_budget w <= 0 ->
    exists w',
      hash_files size paths rest w = Finished w'
      /\ remaining_budget w' <= 0 /\ inbox w' = inbox w
      /\ min_size_ref (shared w') = min_size_ref (shared w).
Proof.
  induction rest as [|p rest IH]; intros w Hw.
  - exists w. cbn. auto.
  - rewrite hash_files_step, (checkpoint_spent w Hw). cbn [andb].
    destruct (refresh_average_frame w) as (_ & _ & _ & Hs & Hi & Hn & _).
    destruct (hash_one_frame env size p (publish_progress (refresh_average w)))
      as (_ & _ & H1s & H1i & H1n & _).
    destruct (IH (hash_one env size p (publish_progress (refresh_average w))))
      as (w' & E & Hr & Hi' & Hm').
    { unfold DuplicateFileSizeFinder.remaining_budget in *. rewrite H1n.
      change (now (publish_progress (refresh_average w)))
        with (now (refresh_average w)).
      rewrite Hn. pose proof (cost_nonneg p). lra. }
    exists w'. split; [exact E|]. split; [exact Hr|].
    rewrite Hi', Hm', H1i, H1s.
    change (inbox (publish_progress (refresh_average w)))
      with (inbox (refresh_average w)).
    change (min_size_ref (shared (publish_progress (refresh_average w))))
      with (min_size_ref (shared (refresh_average w))).
    rewrite Hi, Hs. auto.
Qed.

Lemma hash_jobs_spent (jobs : list (Z * list pystr)) :
  forall w,
    remaining_budget w <= 0 ->
    exists w',
      hash_jobs jobs w = Finished w'
      /\ inbox w' = inbox w
      /\ min_size_ref (shared w') = min_size_ref (shared w).
Proof.
  induction jobs as [|[size paths] jobs IH]; intros w Hw.
  - exists w. cbn. auto.
  - destruct (size <? min_size_ref (shared w))%Z eqn:El.
    + destruct (hash_jobs_skip env time_budget_sec started total_to_hash
                  size paths jobs w El)
        as (w1 & E & _ & _ & _ & _ & Hm & Hi & Hn & _).
      rewrite E. destruct (IH w1) as (w' & E' & Hi' & Hm').
      { unfold DuplicateFileSizeFinder.remaining_budget in *.
        rewrite Hn. exact Hw. }
      exists w'. rewrite Hi', Hm', Hi, Hm. auto.
    + rewrite (hash_jobs_step _ _ _ _ _ _ _ _ El).
      destruct (hash_files_spent size paths paths w Hw)
        as (w1 & -> & Hr & Hi & Hm).
      destruct (IH w1 Hr) as (w' & E' & Hi' & Hm').
      exists w'. rewrite Hi', Hm', Hi, Hm. auto.
Qed.

End Spent.

(** ** The progress that is published *)

#[local] Abbreviation hash_done w := (Status.hash_done (STATUS (shared w))).
#[local] Abbreviation hash_total w := (Status.hash_total (STATUS (shared w))).

Lemma resume_progress (g : globals) (data : resume_body) :
  Status.hash_done (STATUS (fst (resume g data))) = Status.hash_done (STATUS g)
  /\ Status.hash_total (STATUS (fst (resume g data)))
     = Status.hash_total (STATUS g).
Proof.
  unfold resume.
  destruct (action_is data (lit "continue")); [split; reflexivity|].
  destruct (action_is data (lit "raise")); [|split; reflexivity].
  destruct (new_min_size data) as [|n|]; try (split; reflexivity);
    destruct (_ <? 1024 * 1024)%Z; split; reflexivity.
Qed.

Lemma deliver_progress (requests : list (Q * resume_body)) :
  forall t g t' g' rest,
    deliver requests t g = Some (t', g', rest) ->
    Status.hash_done (STATUS g') = Status.hash_done (STATUS g)
    /\ Status.hash_total (STATUS g') = Status.hash_total (STATUS g).
Proof.
  induction requests as [|[delay body] r IH]; intros t g t' g' rest;
    cbn [deliver]; [discriminate|].
  destruct (resume_progress g body) as [H1 H2].
  destruct (RESUME_EVENT (fst (resume g body))).
  - intros E. injection E as _ <- _. auto.
  - intros E. destruct (IH _ _ _ _ _ E) as [H3 H4]. split; congruence.
Qed.

Lemma checkpoint_progress (w : worker) :
  let w1 := outcome_worker snd (checkpoint w) in
  hash_done w1 = done w /\ done w1 = done w /\ hash_total w1 = hash_total w.
Proof.
  cbv zeta.
  destruct (refresh_average_frame w) as (Hd & _ & _ & Hs & _).
  destruct (checkpoint_cases time_budget_sec started total_to_hash w)
    as [(w2 & -> & Ew) | [[-> _] | ->]]; cbn [outcome_worker snd].
  - destruct (wait_frame _ _ Ew) as (Hd2 & _).
    destruct (before_wait_frame started total_to_hash w) as (Hdb & _).
    unfold wait in Ew.
    destruct (deliver _ _ _) as [[[t g] r]|] eqn:Ed; [|discriminate].
    injection Ew as <-. destruct (deliver_progress _ _ _ _ _ _ Ed) as [H1 H2].
    cbn in H1, H2 |- *. rewrite H1, H2, Hd, Hs. auto.
  - cbn. rewrite Hd, Hs. auto.
  - cbn. rewrite Hd, Hs. auto.
Qed.

Lemma hash_files_progress (size : Z) (rest : list pystr) :
  forall pre w,
    NoDup (pre ++ rest) ->
    (0 <= hash_done w <= done w)%Z ->
    let w' := here (hash_files size (pre ++ rest) rest w) in
    (0 <= hash_done w' <= done w')%Z
    /\ (done w' <= done w + len rest)%Z
    /\ hash_total w' = hash_total w
    /\ (forall wf, hash_files size (pre ++ rest) rest w = Finished wf ->
                   done wf = (done w + len rest)%Z).
Proof.
  induction rest as [|p rest IH]; intros pre w Hnd Hw; cbv zeta.
  - cbn. unfold len. cbn. split; [exact Hw|]. split; [lia|].
    split; [reflexivity|]. intros wf E. injection E as <-. lia.
  - rewrite hash_files_step, len_cons.
    destruct (checkpoint_progress w) as (Hp & Hd & Ht). cbv zeta in Hp, Hd, Ht.
    destruct (checkpoint w) as [[waited w1] | w1 | w1] eqn:Ec;
      cbn [outcome_worker snd] in Hp, Hd, Ht.
    + destruct (waited && (size <? min_size_ref (shared w1))%Z).
      * rewrite (SizeClaims.index_middle _ _ _ Hnd).
        cbn [outcome_worker]. cbn [done with_done shared].
        rewrite len_app, len_cons, Hp, Hd, Ht.
        pose proof (len_nonneg rest). pose proof (len_nonneg pre).
        split; [lia|]. split; [lia|]. split; [reflexivity|].
        intros wf E. apply Finished_inj in E. subst wf.
        cbn [done with_done]. lia.
      * destruct (hash_one_frame env size p w1) as (H1d & _ & H1s & _).
        replace (pre ++ p :: rest) with ((pre ++ [p]) ++ rest) in *
          by (rewrite <- app_assoc; reflexivity).
        destruct (IH (pre ++ [p]) (hash_one env size p w1) Hnd)
          as (I1 & I2 & I3 & I4).
        { rewrite H1s, H1d, Hp, Hd. lia. }
        cbv zeta in I1, I2, I3. rewrite H1d, Hd in I2. rewrite H1s, Ht in I3.
        split; [exact I1|]. split; [lia|]. split; [exact I3|].
        intros wf E. rewrite (I4 wf E), H1d, Hd. lia.
    + cbn [outcome_worker]. rewrite Hp, Hd, Ht.
      pose proof (len_nonneg rest).
      split; [lia|]. split; [lia|]. split; [reflexivity | discriminate].
    + destruct (checkpoint_not_raised _ _ Ec).
Qed.

Lemma hash_jobs_skip_progress (size : Z) (paths : list pystr)
  (jobs : list (Z * list pystr)) (w : worker) :
  (size <? min_size_ref (shared w))%Z = true ->
  exists w',
    hash_jobs ((size, paths) :: jobs) w = hash_jobs jobs w'
    /\ done w' = (done w + len paths)%Z
    /\ hash_done w' = (done w + len paths)%Z
    /\ hash_total w' = hash_total w.
Proof.
  intros H. cbn [DuplicateFileSizeFinder.hash_jobs]. rewrite H. cbv zeta.
  eexists. split; [reflexivity|]. cbn. repeat split.
Qed.

Lemma hash_jobs_progress (jobs : list (Z * list pystr)) :
  (forall size paths, In (size, paths) jobs -> NoDup paths) ->
  forall w,
    (0 <= hash_done w <= done w)%Z ->
    let w' := here (hash_jobs jobs w) in
    (0 <= hash_done w' <= done w')%Z
    /\ (done w' <= done w + total_of jobs)%Z
    /\ hash_total w' = hash_total w.
Proof.
  induction jobs as [|[size paths] jobs IH]; intros Hnd w Hw; cbv zeta.
  - cbn. split; [exact Hw|]. split; [lia | reflexivity].
  - assert (Hnd' : forall size paths, In (size, paths) jobs -> NoDup paths)
      by (intros s ps Hin; apply (Hnd s ps); right; exact Hin).
    cbn [total_of fold_right snd]. fold (total_of jobs).
    pose proof (BudgetFacts.total_of_nonneg jobs) as Hj.
    pose proof (len_nonneg paths) as Hl.
    destruct (size <? min_size_ref (shared w))%Z eqn:El.
    + destruct (hash_jobs_skip_progress size paths jobs w El)
        as (w1 & -> & S1 & S2 & S3).
      destruct (IH Hnd' w1) as (I1 & I2 & I3); [lia|].
      cbv zeta in I1, I2, I3. rewrite S1 in I2. rewrite S3 in I3.
      split; [exact I1|]. split; [lia | exact I3].
    + rewrite (hash_jobs_step _ _ _ _ _ _ _ _ El).
      destruct (hash_files_progress size paths [] w
                  (Hnd size paths (or_introl eq_refl)) Hw)
        as (F1 & F2 & F3 & F4).
      cbv zeta in F1, F2, F3. cbn [app] in *.
      destruct (hash_files size paths paths w) as [w1 | w1 | w1] eqn:Ef;
        cbn [outcome_worker] in F1, F2, F3 |- *.
      * destruct (IH Hnd' w1 F1) as (I1 & I2 & I3). cbv zeta in I1, I2, I3.
        split; [exact I1|]. split; [lia|]. congruence.
      * split; [exact F1|]. split; [lia | exact F3].
      * split; [exact F1|]. split; [lia | exact F3].
Qed.

End Loop.

(** ** The buckets, in terms of the walk *)

Section Walk.
Variables (include_cloud : bool) (min_size : Z).

#[local] Abbreviation walk_entry := (walk_entry env include_cloud min_size).
#[local] Abbreviation of_size size :=
  (filter (admitted_with_size env include_cloud min_size size)).

Lemma walk_fold_buckets (visited : list pystr) :
  forall st,
    NoDup (map fst (size_buckets st)) ->
    let st' := fold_left walk_entry visited st in
    NoDup (map fst (size_buckets st'))
    /\ forall size,
         dict_get Z.eqb size (size_buckets st')
         = dict_get Z.eqb size (size_buckets st) ++ of_size size visited.
Proof.
  induction visited as [|f r IH]; intros st Hnd; cbn [fold_left filter].
  - split; [exact Hnd|]. intros size. rewrite app_nil_r. reflexivity.
  - pose proof (walk_entry_buckets env include_cloud min_size st f) as Hb.
    unfold admitted_with_size.
    destruct (passed_over env include_cloud min_size f) eqn:Hp.
    + destruct (IH (walk_entry st f)) as [Hnd' Hget];
        [rewrite Hb; exact Hnd|].
      split; [exact Hnd'|]. intros size. rewrite Hget, Hb. reflexivity.
    + destruct (getsize (stat_of env f)) as [s|] eqn:Es.
      * destruct (IH (walk_entry st f)) as [Hnd' Hget].
        { rewrite Hb. apply dict_append_NoDup; [apply Z.eqb_eq | exact Hnd]. }
        split; [exact Hnd'|]. intros size. rewrite Hget, Hb. cbn [negb andb].
        rewrite (dict_get_append Z.eqb Z.eqb_eq). rewrite (Z.eqb_sym s size).
        destruct (size =? s)%Z; [rewrite <- app_assoc|]; reflexivity.
      * destruct (IH (walk_entry st f)) as [Hnd' Hget];
          [rewrite Hb; exact Hnd|].
        split; [exact Hnd'|]. intros size. rewrite Hget, Hb. reflexivity.
Qed.

Lemma walk_files_buckets (visited : list pystr) :
  let st := walk_files env include_cloud min_size visited in
  NoDup (map fst (size_buckets st))
  /\ forall size,
       dict_get Z.eqb size (size_buckets st) = of_size size visited.
Proof.
  unfold walk_files.
  destruct (walk_fold_buckets visited
              {| size_buckets := []; walk_scanned := 0; walk_skipped := 0 |})
    as [Hnd Hget]; [constructor|].
  split; [exact Hnd|]. intros size. rewrite Hget. reflexivity.
Qed.

(** A job is a size with all the admitted entries of that size, of
    which there are at least two. *)
Lemma jobs_of_walk (visited : list pystr) (size : Z) (paths : list pystr) :
  In (size, paths) (jobs_of (walk_files env include_cloud min_size visited)) ->
  paths = of_size size visited /\ (2 <= len paths)%Z.
Proof.
  unfold jobs_of. intros Hin. apply filter_In in Hin.
  destruct Hin as [Hin Hlen]. cbn [snd] in Hlen.
  destruct (walk_files_buckets visited) as [Hnd Hget]. cbv zeta in Hnd, Hget.
  rewrite <- Hget, (dict_get_In Z.eqb Z.eqb_eq size paths _ Hnd Hin).
  split; [reflexivity | lia].
Qed.

End Walk.

(** ** A run, however it ends *)

Lemma run_worker_loop root root_path excludes include_cloud time_budget_sec
  t0 g0 requests :
  exists w0,
    let visited := Shared.walk env excludes root_path root in
    let st := walk_files env include_cloud (min_size_ref g0) visited in
    let o := hash_jobs env time_budget_sec t0 (total_of (jobs_of st))
               (jobs_of st) w0 in
    hashed w0 = [] /\ done w0 = 0%Z /\ inbox w0 = requests
    /\ min_size_ref (shared w0) = min_size_ref g0
    /\ now w0 = walk_clock env visited t0
    /\ Status.hash_done (STATUS (shared w0)) = 0%Z
    /\ Status.hash_total (STATUS (shared w0)) = total_of (jobs_of st)
    /\ find_duplicates_streaming env root root_path excludes include_cloud
         time_budget_sec t0 g0 requests
       = match o with
         | Finished w => Finished (finish t0 w)
         | Blocked w => Blocked w
         | Raised w => Raised w
         end.
Proof.
  unfold find_duplicates_streaming. cbv zeta.
  eexists.
  refine (conj _ (conj _ (conj _ (conj _ (conj _ (conj _ (conj _ eq_refl)))))));
    reflexivity.
Qed.

(** X18. Whatever the requests and however the run ends (finished or
    waiting for a decision), the only files [sha256_file] has read are
    entries of the walk that were not passed over (regular files, no
    links, no cloud placeholders unless they are included, of a
    readable size not below the minimum at the walk) and whose size at
    least two such entries have: a file of a unique size is never
    read. *)
Theorem only_shared_sizes_are_read root root_path excludes include_cloud
  time_budget_sec t0 g0 requests p :
  let visited := Shared.walk env excludes root_path root in
  In p (hashed (run_worker
                  (find_duplicates_streaming env root root_path excludes
                     include_cloud time_budget_sec t0 g0 requests))) ->
  In p visited
  /\ passed_over env include_cloud (min_size_ref g0) p = false
  /\ exists size,
       getsize (stat_of env p) = Some size
       /\ (2 <= len (filter (admitted_with_size env include_cloud
                               (min_size_ref g0) size) visited))%Z.
Proof.
  cbv zeta.
  destruct (run_worker_loop root root_path excludes include_cloud
              time_budget_sec t0 g0 requests)
    as (w0 & Hh & _ & _ & _ & _ & _ & _ & ->).
  cbv zeta.
  match goal with
  | |- context [hash_jobs _ _ _ ?tot ?jobs w0] =>
      destruct (hash_jobs_any time_budget_sec t0 tot jobs w0)
        as [_ (l & Hl & Hi)];
      destruct (hash_jobs env time_budget_sec t0 tot jobs w0) as [w | w | w]
  end; cbn [outcome_worker] in Hl; unfold run_worker; cbn [outcome_worker];
    try (change (hashed (snd (finish t0 w))) with (hashed w));
    rewrite Hl, Hh; cbn [app]; intros Hp; apply Hi in Hp;
    apply in_flat_map in Hp; destruct Hp as ([size paths] & Hjob & Hp);
    cbn [snd] in Hp;
    destruct (jobs_of_walk _ _ _ _ _ Hjob) as [-> Hlen];
    apply filter_In in Hp; destruct Hp as [Hv Ha];
    unfold admitted_with_size in Ha; apply andb_true_iff in Ha;
    destruct Ha as [Hpass Hs]; apply negb_true_iff in Hpass;
    (split; [exact Hv|]); (split; [exact Hpass|]); exists size;
    (split; [|exact Hlen]);
    destruct (getsize (stat_of env p)) as [s|]; try discriminate;
    apply Z.eqb_eq in Hs; subst; reflexivity.
Qed.

(** X19. A run of [find_duplicates_streaming] ends in one of two ways,
    and never with an exception out of the hashing loop: it finishes,
    with the state [done] and an ETA of 0, or it stops at a check point
    to wait for a decision, with the state [needs_tuning], the event
    cleared and the suggestion [max(2 * minimum, 50 MiB)] published for
    the minimum size as it is then. *)
Theorem run_finishes_or_waits root root_path excludes include_cloud
  time_budget_sec t0 g0 requests :
  match find_duplicates_streaming env root root_path excludes include_cloud
          time_budget_sec t0 g0 requests with
  | Finished (_, w) =>
      Status.state (STATUS (shared w)) = Done
      /\ Status.eta_seconds (STATUS (shared w)) = Some 0%Z
  | Blocked w =>
      Status.state (STATUS (shared w)) = NeedsTuning
      /\ RESUME_EVENT (shared w) = false
      /\ Status.suggest_min_size (STATUS (shared w))
         = Some (Z.max (min_size_ref (shared w) * 2) (50 * 1024 * 1024))
  | Raised _ => False
  end.
Proof.
  destruct (run_worker_loop root root_path excludes include_cloud
              time_budget_sec t0 g0 requests)
    as (w0 & _ & _ & _ & _ & _ & _ & _ & ->).
  cbv zeta.
  match goal with
  | |- context [hash_jobs _ _ _ ?tot ?jobs w0] =>
      destruct (hash_jobs_any time_budget_sec t0 tot jobs w0) as [Hr _];
      pose proof (hash_jobs_blocked time_budget_sec t0 tot jobs w0) as Hb;
      destruct (hash_jobs env time_budget_sec t0 tot jobs w0) as [w | w | w]
  end.
  - cbn. split; reflexivity.
  - destruct (Hb w eq_refl) as [w2 ->]. apply before_wait_state.
  - exact (Hr w eq_refl).
Qed.


(** X21. The progress a run publishes stays within its total: when the
    walk yields no path twice, [hash_done] in the status is between 0
    and [hash_total] when the run has finished and when it waits for a
    decision, whatever was skipped after a raise. *)
Theorem progress_within_total root root_path excludes include_cloud
  time_budget_sec t0 g0 requests :
  NoDup (Shared.walk env excludes root_path root) ->
  let w := run_worker
             (find_duplicates_streaming env root root_path excludes
                include_cloud time_budget_sec t0 g0 requests) in
  (0 <= Status.hash_done (STATUS (shared w))
     <= Status.hash_total (STATUS (shared w)))%Z.
Proof.
  intros Hnd. cbv zeta.
  destruct (run_worker_loop root root_path excludes include_cloud
              time_budget_sec t0 g0 requests)
    as (w0 & _ & Hd & _ & _ & _ & Hhd & Hht & ->).
  cbv zeta in *.
  match type of Hht with
  | _ = total_of ?jobs =>
      destruct (hash_jobs_progress time_budget_sec t0 (total_of jobs) jobs)
        with (w := w0) as (I1 & I2 & I3)
  end.
  { intros size paths Hjob.
    destruct (jobs_of_walk _ _ _ _ _ Hjob) as [-> _].
    apply NoDup_filter. exact Hnd. }
  { rewrite Hhd, Hd. lia. }
  cbv zeta in I1, I2, I3. rewrite Hd in I2. rewrite Hht in I3.
  match goal with
  | |- context [hash_jobs _ _ _ ?tot ?jobs w0] =>
      destruct (hash_jobs env time_budget_sec t0 tot jobs w0) as [w | w | w]
  end; unfold run_worker; cbn [outcome_worker] in *;
    try (change (Status.hash_done (STATUS (shared (snd (finish t0 w)))))
           with (Status.hash_done (STATUS (shared w)));
         change (Status.hash_total (STATUS (shared (snd (finish t0 w)))))
           with (Status.hash_total (STATUS (shared w))));
    rewrite I3; lia.
Qed.

(** X22. The groups of a finished run are reported by the bytes that
    deleting all but one copy would free, [size * (len(files) - 1)],
    largest first. *)
Theorem groups_by_reclaim root root_path excludes include_cloud
  time_budget_sec t0 g0 requests gs w l1 l2 l3 a b :
  find_duplicates_streaming env root root_path excludes include_cloud
    time_budget_sec t0 g0 requests = Finished (gs, w) ->
  gs = l1 ++ a :: l2 ++ b :: l3 ->
  (size b * (len (files b) - 1) <= size a * (len (files a) - 1))%Z.
Proof.
  intros Hrun Hgs.
  destruct (run_worker_loop root root_path excludes include_cloud
              time_budget_sec t0 g0 requests)
    as (w0 & _ & _ & _ & _ & _ & _ & _ & E).
  rewrite E in Hrun. cbv zeta in Hrun.
  match type of Hrun with
  | match ?o with _ => _ end = _ => destruct o as [w1 | w1 | w1]
  end; try discriminate.
  apply Finished_inj in Hrun. unfold finish in Hrun. cbv zeta in Hrun.
  injection Hrun as Hg _. rewrite Hgs in Hg.
  match type of Hg with
  | sorted ?le ?l = _ =>
      assert (Hs : StronglySorted (fun x y => le x y = true) (sorted le l))
  end.
  { apply sorted_StronglySorted.
    - intros x y. unfold by_reclaim_desc. rewrite !Z.leb_le. lia.
    - intros x y z. unfold by_reclaim_desc. rewrite !Z.leb_le. lia. }
  rewrite Hg in Hs. apply NameGroups.StronglySorted_before in Hs.
  unfold by_reclaim_desc, reclaim in Hs. apply Z.leb_le in Hs. exact Hs.
Qed.

End WithEnv.


Lemma only_shared_sizes_are_read_witness :
  In (lit "/r/a/x.txt")
    (Shared.walk Samples.album [] (lit "/r") Samples.album_tree)
  /\ passed_over Samples.album false (10 * Examples.MiB) (lit "/r/a/x.txt")
     = false
  /\ exists size,
       getsize (stat_of Samples.album (lit "/r/a/x.txt")) = Some size
       /\ (2 <= len (filter (admitted_with_size Samples.album false
                               (10 * Examples.MiB) size)
                       (Shared.walk Samples.album [] (lit "/r")
                          Samples.album_tree)))%Z.
Proof.
  apply (only_shared_sizes_are_read Samples.album Samples.album_tree
           (lit "/r") [] false 3600 0
           (Examples.initial_globals (10 * Examples.MiB)) []
           (lit "/r/a/x.txt")).
  vm_compute. left. reflexivity.
Defined.


Lemma progress_within_total_witness :
  (0 <= Status.hash_done
          (STATUS (shared (run_worker Samples.album_by_content)))
     <= Status.hash_total
          (STATUS (shared (run_worker Samples.album_by_content))))%Z.
Proof.
  apply (progress_within_total Samples.album Samples.album_tree
           (lit "/r") [] false 3600 0
           (Examples.initial_globals (10 * Examples.MiB)) []).
  vm_compute. repeat constructor; cbn; intuition discriminate.
Defined.

Lemma groups_by_reclaim_witness :
  (size Samples.album_y_group * (len (files Samples.album_y_group) - 1)
   <= size Samples.album_x_group * (len (files Samples.album_x_group) - 1))%Z.
Proof.
  apply (groups_by_reclaim Samples.album Samples.album_tree
           (lit "/r") [] false 3600 0
           (Examples.initial_globals (10 * Examples.MiB)) []
           [Samples.album_x_group; Samples.album_y_group]
           (Examples.result_worker Samples.album_by_content)
           [] [] [] Samples.album_x_group Samples.album_y_group).
  - vm_compute. reflexivity.
  - reflexivity.
Defined.

End RunFacts.

(* ================================================================== *)
(** * Proofs: the endpoints [/delete] and [/delete-batch] *)
(* ================================================================== *)

Module EndpointFacts.
Import ListFacts Endpoints.

Section WithTrash.
Variable disk : Type.
Variable send2trash : pystr -> disk -> disk * option pystr.
Variable decode_error : json -> pystr.

#[local] Abbreviation try_trash := (try_trash disk send2trash decode_error).
#[local] Abbreviation delete_one := (delete_one disk send2trash decode_error).
#[local] Abbreviation trash_all := (trash_all disk send2trash decode_error).
#[local] Abbreviation delete_batch := (delete_batch disk send2trash decode_error).

(** The disk after the tokens were handled one after the other: a token
    that cannot be decoded changes nothing, any other is given to
    [send2trash], whether the calls before it succeeded or not. *)
#[local] Abbreviation trashed :=
  (fold_left (fun d t => match decode_token t with
                         | Some p => fst (send2trash p d)
                         | None => d
                         end)).

#[local] Abbreviation undecodable :=
  (fun t => match decode_token t with
            | Some _ => false
            | None => true
            end).

Lemma encoded_token (p tok : pystr) :
  Shared.encode_path p = Some tok ->
  decode_token (Str tok) = Some p /\ (p <> [] -> falsy (Str tok) = false).
Proof.
  intros E. apply TokenFacts.encode_path_decode in E. split; [exact E|].
  intros Hp. destruct tok as [|c r]; [|reflexivity].
  vm_compute in E. congruence.
Qed.

Lemma try_trash_disk (t : json) (d : disk) :
  fst (try_trash t d) = match decode_token t with
                        | Some p => fst (send2trash p d)
                        | None => d
                        end.
Proof. unfold Endpoints.try_trash. destruct (decode_token t); reflexivity. Qed.

Lemma try_trash_undecodable (t : json) (d : disk) :
  undecodable t = true -> snd (try_trash t d) <> None.
Proof.
  unfold Endpoints.try_trash. destruct (decode_token t); [discriminate|].
  intros _. discriminate.
Qed.

Lemma trash_all_spec (tokens : list json) :
  forall d ok errors,
    exists new,
      trash_all tokens d ok errors
      = (trashed tokens d, (ok + (len tokens - len new))%Z, errors ++ new)
      /\ (len (filter undecodable tokens) <= len new <= len tokens)%Z.
Proof.
  induction tokens as [|t r IH]; intros d ok errors.
  - exists []. rewrite app_nil_r. cbn [Endpoints.trash_all fold_left filter].
    unfold len. cbn. replace (ok + 0)%Z with ok by lia.
    split; [reflexivity | lia].
  - cbn [Endpoints.trash_all fold_left filter]. rewrite <- try_trash_disk.
    pose proof (try_trash_undecodable t d) as Hu.
    destruct (try_trash t d) as [d' [msg|]] eqn:Et; cbn [fst snd] in *.
    + destruct (IH d' ok (errors ++ [msg])) as (new & -> & Hlen).
      exists (msg :: new). rewrite <- app_assoc. cbn [app].
      split; [rewrite !len_cons; f_equal; f_equal; lia|].
      destruct (undecodable t); rewrite !len_cons; lia.
    + destruct (IH d' (ok + 1)%Z errors) as (new & -> & Hlen).
      exists new. split; [rewrite !len_cons; f_equal; f_equal; lia|].
      destruct (undecodable t) eqn:Eu.
      * destruct (Hu eq_refl eq_refl).
      * rewrite !len_cons; lia.
Qed.

Lemma delete_batch_disk (tokens : list json) (d : disk) :
  fst (delete_batch (Some tokens) d) = trashed tokens d.
Proof.
  unfold Endpoints.delete_batch. cbv zeta.
  destruct (trash_all_spec tokens d 0%Z []) as (new & -> & _). reflexivity.
Qed.

(** X23. [delete_batch] goes through the whole list, whatever fails on
    the way: the disk is what handling the tokens one after the other
    leaves, a token that cannot be decoded changing nothing.  The count
    [deleted] is between 0 and the number of tokens less those that
    cannot be decoded; [ok] says that it is the number of tokens, and
    then no error text is returned.  An empty or absent list is
    answered with [ok] and 0. *)
Theorem delete_batch_counts (paths : option (list json)) (d : disk) :
  let tokens := match paths with
                | Some l => l
                | None => []
                end in
  let r := snd (delete_batch paths d) in
  fst (delete_batch paths d) = trashed tokens d
  /\ (0 <= batch_deleted r)%Z
  /\ (batch_deleted r + len (filter undecodable tokens) <= len tokens)%Z
  /\ (batch_ok r = true <-> batch_deleted r = len tokens)
  /\ (batch_ok r = true -> batch_error r = []).
Proof.
  cbv zeta. unfold Endpoints.delete_batch. cbv zeta.
  destruct (trash_all_spec (match paths with Some l => l | None => [] end)
              d 0%Z []) as (new & -> & Hlen).
  cbn [fst snd batch_ok batch_deleted batch_error app].
  pose proof (len_nonneg new) as Hn.
  pose proof (len_nonneg (filter undecodable
                            (match paths with Some l => l | None => [] end))).
  split; [reflexivity|]. split; [lia|]. split; [lia|].
  split; [apply Z.eqb_eq|].
  intros E. apply Z.eqb_eq in E.
  destruct new as [|m new']; [reflexivity|].
  rewrite len_cons in E. pose proof (len_nonneg new'). lia.
Qed.

Lemma trashed_encoded (tokens : list json) (paths : list pystr) :
  Forall2 (fun t p => exists s, t = Str s /\ Shared.encode_path p = Some s)
    tokens paths ->
  forall d,
    trashed tokens d = fold_left (fun d p => fst (send2trash p d)) paths d.
Proof.
  induction 1 as [|t p tokens paths (s & -> & E) _ IH]; intros d;
    cbn [fold_left]; [reflexivity|].
  destruct (encoded_token p s E) as [-> _]. apply IH.
Qed.

Lemma trash_all_never_fails (tokens : list json) :
  (forall p d, snd (send2trash p d) = None) ->
  Forall (fun t => decode_token t <> None) tokens ->
  forall d ok errors,
    snd (fst (trash_all tokens d ok errors)) = (ok + len tokens)%Z
    /\ snd (trash_all tokens d ok errors) = errors.
Proof.
  intros Hnever. induction 1 as [|t r Ht _ IH]; intros d ok errors.
  - cbn. unfold len. cbn. split; [lia | reflexivity].
  - cbn [Endpoints.trash_all]. unfold Endpoints.try_trash.
    destruct (decode_token t) as [p|]; [|congruence].
    pose proof (Hnever p d) as Hp.
    destruct (send2trash p d) as [d' e]. cbn [snd] in Hp. subst e.
    destruct (IH d' (ok + 1)%Z errors) as [-> ->]. rewrite len_cons.
    split; [lia | reflexivity].
Qed.

(** X24. Given the tokens [encode_path] makes of a list of paths,
    [delete_batch] hands exactly these paths to [send2trash], in the
    order of the list and each one once, whether the calls before
    succeeded or not; when [send2trash] raises on none, the reply is
    [ok] with the number of paths as [deleted] and no error text. *)
Theorem delete_batch_of_encoded (tokens : list json) (paths : list pystr)
  (d : disk) :
  Forall2 (fun t p => exists s, t = Str s /\ Shared.encode_path p = Some s)
    tokens paths ->
  fst (delete_batch (Some tokens) d)
  = fold_left (fun d p => fst (send2trash p d)) paths d
  /\ ((forall p d, snd (send2trash p d) = None) ->
      snd (delete_batch (Some tokens) d)
      = {| batch_ok := true; batch_deleted := len paths; batch_error := [] |}).
Proof.
  intros Henc. split.
  - rewrite delete_batch_disk. apply trashed_encoded. exact Henc.
  - intros Hnever.
    assert (Hdec : Forall (fun t => decode_token t <> None) tokens).
    { clear d. induction Henc as [|t p ts ps (s & -> & E) _ IH];
        constructor; [|exact IH].
      destruct (encoded_token p s E) as [Hd _]. congruence. }
    destruct (trash_all_never_fails tokens Hnever Hdec d 0%Z []) as [H1 H2].
    unfold Endpoints.delete_batch. cbv zeta.
    destruct (trash_all tokens d 0%Z []) as [[d' ok] errors].
    cbn [fst snd] in *. subst ok errors.
    assert (Hl : len tokens = len paths)
      by (unfold len; rewrite (Forall2_length Henc); reflexivity).
    rewrite Z.add_0_l, Z.eqb_refl, Hl. reflexivity.
Qed.

(** X25. Given the token [encode_path] makes of a path that is not
    empty, [delete_one] hands that path to [send2trash], once, and
    answers 200 with [ok] when nothing was raised and 500 with the text
    of the exception otherwise.  The token of the empty path is the
    empty string, which is answered with 400 and leaves the disk as it
    is. *)
Theorem delete_one_of_encoded (p tok : pystr) (d : disk) :
  Shared.encode_path p = Some tok ->
  delete_one (Str tok) d
  = match p with
    | [] => (d, {| ok := false; error := Some (lit "no path"); code := 400 |})
    | _ :: _ =>
        (fst (send2trash p d),
         match snd (send2trash p d) with
         | None => {| ok := true; error := None; code := 200 |}
         | Some msg => {| ok := false; error := Some msg; code := 500 |}
         end)
    end.
Proof.
  intros E. destruct p as [|c r].
  - vm_compute in E. injection E as <-. reflexivity.
  - destruct (encoded_token _ _ E) as [Hd Hf].
    unfold Endpoints.delete_one, Endpoints.try_trash.
    rewrite Hf by discriminate. rewrite Hd.
    destruct (send2trash (c :: r) d) as [d' [msg|]]; reflexivity.
Qed.

End WithTrash.

Lemma delete_batch_of_encoded_witness :
  fst (delete_batch (list pystr) Samples.trash_can (fun _ => lit "bad token")
         (Some [Str (lit "L3IvYS94LnR4dA=="); Str (lit "L3IvYi94LnR4dA==")])
         [])
  = [lit "/r/b/x.txt"; lit "/r/a/x.txt"]
  /\ ((forall p d, snd (Samples.trash_can p d) = None) ->
      snd (delete_batch (list pystr) Samples.trash_can
             (fun _ => lit "bad token")
             (Some [Str (lit "L3IvYS94LnR4dA==");
                    Str (lit "L3IvYi94LnR4dA==")])
             [])
      = {| batch_ok := true; batch_deleted := 2; batch_error := [] |}).
Proof.
  apply (delete_batch_of_encoded (list pystr) Samples.trash_can
           (fun _ => lit "bad token")
           [Str (lit "L3IvYS94LnR4dA=="); Str (lit "L3IvYi94LnR4dA==")]
           [lit "/r/a/x.txt"; lit "/r/b/x.txt"] []).
  repeat constructor; eexists; (split; [reflexivity | vm_compute; reflexivity]).
Defined.

Lemma delete_one_of_encoded_witness :
  delete_one (list pystr) Samples.trash_can (fun _ => lit "bad token")
    (Str (lit "L3IvYS94LnR4dA==")) []
  = ([lit "/r/a/x.txt"], {| ok := true; error := None; code := 200 |}).
Proof.
  apply (delete_one_of_encoded (list pystr) Samples.trash_can
           (fun _ => lit "bad token") (lit "/r/a/x.txt")
           (lit "L3IvYS94LnR4dA==") []).
  vm_compute. reflexivity.
Defined.

End EndpointFacts.
